(** * The evidence pool of [evidence/pool.go]

    A shallow embedding of the pool of Byzantine-behaviour evidence: the
    ordered key-value store holding the pending and committed sets, the
    broadcast list, the atomic size counter, the consensus buffer and the
    expiry cursor, followed by the properties of its operations. *)

From Stdlib Require Import ZArith List String Bool Lia.
From stdpp Require Import base list strings gmap.

Local Open Scope Z_scope.

(** ** Machine integers

    Go's fixed-width integers are integers of [Z] with the wrap-around of
    their arithmetic written out. *)

Module int64.
Definition min : Z := - 2 ^ 63.
Definition max : Z := 2 ^ 63 - 1.
Definition InRange (z : Z) : Prop := min <= z <= max.
(** The two's-complement representative of [z] on 64 bits. *)
Definition wrap (z : Z) : Z := (z + 2 ^ 63) mod 2 ^ 64 - 2 ^ 63.
Definition add (a b : Z) : Z := wrap (a + b).
Definition sub (a b : Z) : Z := wrap (a - b).
End int64.

Module uint32.
Definition modulus : Z := 2 ^ 32.
Definition InRange (z : Z) : Prop := 0 <= z < modulus.
(** The conversion [uint32(z)]. *)
Definition wrap (z : Z) : Z := z mod modulus.
(** The bitwise complement [^x] of a [uint32]. *)
Definition not (x : Z) : Z := wrap (Z.lnot x).
End uint32.

(** [sync/atomic]: the calls of the pool are sequential here, so an atomic
    operation is the operation itself. *)
Module atomic.
Definition LoadUint32 (addr : Z) : Z := addr.
Definition StoreUint32 (val : Z) : Z := uint32.wrap val.
(** [AddUint32(&addr, delta)] stores and returns [addr + delta] on 32 bits. *)
Definition AddUint32 (addr delta : Z) : Z := uint32.wrap (addr + delta).
End atomic.

(** ** Package [time]

    An instant is its number of nanoseconds since the epoch; a [Duration] is
    an [int64] count of nanoseconds, and [Sub] saturates at its bounds as the
    Go library does. *)
Module time.
Definition Time : Type := Z.
Definition Duration : Type := Z.
Definition Nanosecond : Duration := 1.
Definition Second : Duration := 1000000000.
Definition minDuration : Duration := int64.min.
Definition maxDuration : Duration := int64.max.
Definition Sub (t u : Time) : Duration :=
  if t - u <? minDuration then minDuration
  else if maxDuration <? t - u then maxDuration
  else t - u.
Definition Add (t : Time) (d : Duration) : Time := t + d.
Definition After (t u : Time) : bool := u <? t.
End time.

(** ** Package [types]: votes, validators and the two kinds of evidence *)
Module types.

Record Vote : Type := mkVote {
  Vote_Height : Z;
  Vote_Round : Z;
  Vote_BlockID : string;
  Vote_ValidatorAddress : string
}.

Record Validator : Type := mkValidator {
  Address : string;
  VotingPower : Z
}.

Abbreviation ValidatorSet := (list Validator) (only parsing).

Record Header : Type := mkHeader { Header_Height : Z; Header_Time : time.Time }.
Record BlockMeta : Type := mkBlockMeta { BlockMeta_Header : Header }.
Record Commit : Type := mkCommit { Commit_Height : Z; Commit_Round : Z }.

(** Modelled from the spec: the evidence taxonomy of [types/evidence.go],
    which is not among the sources. It is sealed, with exactly two
    variants. A duplicate-vote evidence holds the two votes, the
    timestamp and the validator set captured at the offending height; a
    light-client attack holds the conflicting header (by its hash), the
    common height, the byzantine validators (a slice, [None] when nil)
    and a timestamp. *)
Inductive Evidence : Type :=
| DuplicateVoteEvidence (VoteA VoteB : Vote) (Timestamp : time.Time)
    (ValSet : ValidatorSet)
| LightClientAttackEvidence (ConflictingBlock : string) (CommonHeight : Z)
    (ByzantineValidators : option (list Validator)) (Timestamp : time.Time).

Abbreviation EvidenceList := (list Evidence) (only parsing).

(** Modelled from the spec: [NewDuplicateVoteEvidence] of
    [types/evidence.go], forming [DuplicateVoteEvidence(A, B, time, vals)]. *)
Definition NewDuplicateVoteEvidence (vote1 vote2 : Vote) (blockTime : time.Time)
    (valSet : ValidatorSet) : Evidence :=
  DuplicateVoteEvidence vote1 vote2 blockTime valSet.

(** Modelled from the spec: the accessors every variant exposes. *)
Definition Height (ev : Evidence) : Z :=
  match ev with
  | DuplicateVoteEvidence a _ _ _ => Vote_Height a
  | LightClientAttackEvidence _ h _ _ => h
  end.

Definition Time (ev : Evidence) : time.Time :=
  match ev with
  | DuplicateVoteEvidence _ _ t _ => t
  | LightClientAttackEvidence _ _ _ t => t
  end.

(** Modelled from the spec: [ValidatorsByVotingPower], the order of
    byzantine validators: descending voting power, ties broken by
    ascending address. *)
Definition ValidatorsByVotingPower_Less (a b : Validator) : bool :=
  if VotingPower a =? VotingPower b
  then String.ltb (Address a) (Address b)
  else VotingPower b <? VotingPower a.

Fixpoint sort_insert (v : Validator) (l : list Validator) : list Validator :=
  match l with
  | [] => [v]
  | w :: l' =>
      if ValidatorsByVotingPower_Less w v then w :: sort_insert v l' else v :: l
  end.

(** [sort.Sort(ValidatorsByVotingPower(vals))]. *)
Definition sort_Sort (vals : list Validator) : list Validator :=
  foldr sort_insert [] vals.

#[global] Instance Vote_eq_dec : EqDecision Vote.
Proof. solve_decision. Defined.
#[global] Instance Validator_eq_dec : EqDecision Validator.
Proof. solve_decision. Defined.
#[global] Instance Evidence_eq_dec : EqDecision Evidence.
Proof. solve_decision. Defined.

End types.

(** ** Package [orderedcode]: order-preserving keys

    A key is the sequence of items it was appended from. For the keys of the
    pool, an [int64] prefix followed by an [int64] height and a string, the
    byte-wise order of the encodings is the lexicographic order of the
    items, and a key begins with the bytes of an encoded prefix exactly
    when its first item is that prefix. Items of different kinds never meet
    at the same place of two such keys; the order puts an integer first. *)
Module orderedcode.

Inductive Item : Type :=
| Int64 (z : Z)
| Str (s : string).

Abbreviation Key := (list Item) (only parsing).

#[global] Instance Item_eq_dec : EqDecision Item.
Proof. solve_decision. Defined.

(** [Append(buf, items...)]; it has no error for [int64] and [string]. *)
Definition Append (buf : Key) (items : list Item) : Key := buf ++ items.

Definition item_compare (a b : Item) : comparison :=
  match a, b with
  | Int64 x, Int64 y => x ?= y
  | Int64 _, Str _ => Lt
  | Str _, Int64 _ => Gt
  | Str s, Str t => String.compare s t
  end.

Fixpoint compare (k1 k2 : Key) : comparison :=
  match k1, k2 with
  | [], [] => Eq
  | [], _ :: _ => Lt
  | _ :: _, [] => Gt
  | a :: k1', b :: k2' =>
      match item_compare a b with
      | Eq => compare k1' k2'
      | c => c
      end
  end.

End orderedcode.

(** ** Package [dbm]: the ordered key-value store

    The data of a store is the list of its entries in ascending key order.
    A batch is the list of keys it will delete. *)
Module dbm.
Import orderedcode.

Abbreviation DB V := (list (Key * V)) (only parsing).
Abbreviation Batch := (list Key) (only parsing).

Section Store.
Context {V : Type}.

Fixpoint get (key : Key) (db : DB V) : option V :=
  match db with
  | [] => None
  | (k, v) :: db' => if decide (k = key) then Some v else get key db'
  end.

Definition has (key : Key) (db : DB V) : bool :=
  match get key db with Some _ => true | None => false end.

(** [Set]: replaces the value of a present key, and else inserts the
    entry at its place in the order. *)
Fixpoint set (key : Key) (value : V) (db : DB V) : DB V :=
  match db with
  | [] => [(key, value)]
  | (k, v) :: db' =>
      match compare key k with
      | Lt => (key, value) :: db
      | Eq => (key, value) :: db'
      | Gt => (k, v) :: set key value db'
      end
  end.

Definition delete (key : Key) (db : DB V) : DB V :=
  filter (fun kv => kv.1 <> key) db.

(** The effect of a written batch. *)
Definition write (batch : Batch) (db : DB V) : DB V :=
  fold_left (fun d k => delete k d) batch db.

(** [IteratePrefix(db, prefix)]: the entries whose key begins with
    [prefix], in key order. *)
Definition IteratePrefix (db : DB V) (prefix : Key) : list (Key * V) :=
  filter (fun kv => prefix `prefix_of` kv.1) db.

(** The keys of a store are strictly ascending. *)
Fixpoint ascending (db : DB V) : Prop :=
  match db with
  | [] => True
  | (k, _) :: db' =>
      match db' with
      | [] => True
      | (k', _) :: _ => compare k k' = Lt
      end /\ ascending db'
  end.

End Store.

End dbm.

(** ** Package [tmproto]: consensus parameters and stored bytes *)
Module tmproto.

Record EvidenceParams : Type := mkEvidenceParams {
  MaxAgeNumBlocks : Z;
  MaxAgeDuration : time.Duration
}.

Record ConsensusParams : Type := mkConsensusParams { Evidence : EvidenceParams }.

(** Modelled from the spec: the canonical encodings of the generated
    protobuf code, which is not among the sources. The bytes of a store
    value are what they encode: an evidence item ([EvidenceToProto] then
    [Marshal]), a protobuf evidence message that is no valid evidence, a
    commit height ([gogotypes.Int64Value]) or anything else; decoding the
    encoding of an evidence item gives the item back. Sealed, non-nil
    evidence always encodes, so encoding has no error here. *)
Inductive Bytes : Type :=
| EvidenceBytes (ev : types.Evidence)
| InvalidEvidenceBytes (raw : string)
| Int64ValueBytes (height : Z)
| OtherBytes (raw : string).

(** A decoded protobuf evidence message: that of an evidence item, or one
    that is no valid evidence. *)
Inductive EvidencePb : Type :=
| PbOf (ev : types.Evidence)
| PbInvalid (raw : string).

(** [evpb.Unmarshal(bz)]. *)
Definition Unmarshal (bz : Bytes) : option EvidencePb :=
  match bz with
  | EvidenceBytes ev => Some (PbOf ev)
  | InvalidEvidenceBytes raw => Some (PbInvalid raw)
  | Int64ValueBytes _ | OtherBytes _ => None
  end.

(** [types.EvidenceFromProto(&evpb)]. *)
Definition EvidenceFromProto (evpb : EvidencePb) : option types.Evidence :=
  match evpb with
  | PbOf ev => Some ev
  | PbInvalid _ => None
  end.

(** [trustedPb.Unmarshal(bz)] followed by
    [types.LightClientAttackEvidenceFromProto(&trustedPb)], giving the
    byzantine validators of the stored light-client attack. *)
Definition UnmarshalLightClientAttackEvidence (bz : Bytes)
    : option (option (list types.Validator)) :=
  match bz with
  | EvidenceBytes (types.LightClientAttackEvidence _ _ vals _) => Some vals
  | _ => None
  end.

End tmproto.

(** ** Errors *)

(** The operations of the store that can report an error. *)
Inductive StoreOp : Type :=
| OpGet (key : orderedcode.Key)
| OpHas (key : orderedcode.Key)
| OpSet (key : orderedcode.Key)
| OpIteratePrefix (prefix : orderedcode.Key)
| OpIteratorError (prefix : orderedcode.Key)
| OpBatchDelete (key : orderedcode.Key)
| OpBatchWriteSync.

Inductive error : Type :=
| errors_New (text : string)
| fmt_Errorf (format : string) (err : error)
| ErrInvalidEvidence (ev : types.Evidence) (Reason : error)
| ErrStore (op : StoreOp)
| ErrUnmarshal.

(** ** Package [sm]: the replicated state *)
Module sm.

Record State : Type := mkState {
  LastBlockHeight : Z;
  LastBlockTime : time.Time;
  LastValidators : types.ValidatorSet;
  ConsensusParams : tmproto.ConsensusParams
}.

(** The state store: [Load], and [LoadValidators], whose error is [None]. *)
Record Store : Type := mkStore {
  Load : error + State;
  LoadValidators : Z -> option (list types.Validator)
}.

End sm.

(** The interface [BlockStore] of the pool, a [nil] result being [None]. *)
Record BlockStore : Type := mkBlockStore {
  LoadBlockMeta : Z -> option types.BlockMeta;
  LoadBlockCommit : Z -> option types.Commit
}.

(** ** Package [log] *)
Module log.
Inductive Level : Type := Debug | Info | Error.
Abbreviation Logger := (list (Level * string)) (only parsing).
End log.

(** ** The pool *)

Record duplicateVoteSet : Type := mkDuplicateVoteSet {
  VoteA : types.Vote;
  VoteB : types.Vote
}.

Definition prefixCommitted : Z := 9.
Definition prefixPending : Z := 10.

Record Pool : Type := mkPool {
  logger : log.Logger;
  evidenceStore : dbm.DB tmproto.Bytes;
  evidenceList : list types.Evidence;
  evidenceSize : Z;
  stateDB : sm.Store;
  blockStore : BlockStore;
  state : sm.State;
  consensusBuffer : list duplicateVoteSet;
  pruningHeight : Z;
  pruningTime : time.Time
}.

Definition with_logger (l : log.Logger) (p : Pool) : Pool :=
  mkPool l (evidenceStore p) (evidenceList p) (evidenceSize p)
    (stateDB p) (blockStore p) (state p)
    (consensusBuffer p) (pruningHeight p) (pruningTime p).

Definition with_evidenceStore (db : dbm.DB tmproto.Bytes) (p : Pool) : Pool :=
  mkPool (logger p) db (evidenceList p) (evidenceSize p)
    (stateDB p) (blockStore p) (state p)
    (consensusBuffer p) (pruningHeight p) (pruningTime p).

Definition with_evidenceList (l : list types.Evidence) (p : Pool) : Pool :=
  mkPool (logger p) (evidenceStore p) l (evidenceSize p)
    (stateDB p) (blockStore p) (state p)
    (consensusBuffer p) (pruningHeight p) (pruningTime p).

Definition with_evidenceSize (n : Z) (p : Pool) : Pool :=
  mkPool (logger p) (evidenceStore p) (evidenceList p) n
    (stateDB p) (blockStore p) (state p)
    (consensusBuffer p) (pruningHeight p) (pruningTime p).

Definition with_state (s : sm.State) (p : Pool) : Pool :=
  mkPool (logger p) (evidenceStore p) (evidenceList p) (evidenceSize p)
    (stateDB p) (blockStore p) s
    (consensusBuffer p) (pruningHeight p) (pruningTime p).

Definition with_consensusBuffer (b : list duplicateVoteSet) (p : Pool) : Pool :=
  mkPool (logger p) (evidenceStore p) (evidenceList p) (evidenceSize p)
    (stateDB p) (blockStore p) (state p)
    b (pruningHeight p) (pruningTime p).

Definition with_pruning (h : Z) (t : time.Time) (p : Pool) : Pool :=
  mkPool (logger p) (evidenceStore p) (evidenceList p) (evidenceSize p)
    (stateDB p) (blockStore p) (state p)
    (consensusBuffer p) h t.

(** A call of the logger appends its entry. *)
Definition logf (lvl : log.Level) (msg : string) (p : Pool) : Pool :=
  with_logger (logger p ++ [(lvl, msg)]) p.

(** The outcome of a call that can panic. *)
Inductive Outcome (A : Type) : Type :=
| Panic (msg : string)
| Returns (a : A).
Arguments Panic {A} msg.
Arguments Returns {A} a.

(** The collaborators the pool calls and that are not part of it: the
    hashing of evidence, the protobuf size computation, the verifier and the
    store's errors. *)
Class Collaborators : Type := mkCollaborators {
  (** [ev.Hash()]: the content hash of an evidence item. *)
  Hash : types.Evidence -> string;
  (** The serialized size of one evidence message inside an aggregate. *)
  ProtoSize : tmproto.EvidencePb -> Z;
  (** [evpool.verify(ev)] of [evidence/verify.go], which is not among the
      sources: a pure check of the evidence against the cached state, the
      state store and the block store, [None] when the evidence is valid. *)
  verify_ : sm.State -> sm.Store -> BlockStore -> types.Evidence -> option error;
  (** The operations on which the store reports an error. A failed [Has]
      answers false and a failed [Get] answers nil; a failed [Set], batch
      [Delete] or [WriteSync] changes nothing. *)
  fails : StoreOp -> bool
}.

Section EvidencePool.
Import orderedcode types sm.
Context `{Collaborators}.

(** Modelled from the spec: [tmproto.EvidenceList.Size] of the generated
    protobuf code, the serialized size of the aggregate: the sum of the
    serialized sizes of its items. *)
Definition EvidenceList_Size (evList : list tmproto.EvidencePb) : Z :=
  foldr (fun evpb n => ProtoSize evpb + n) 0 evList.

(** *** The store, with its errors *)

Definition store_Has (db : dbm.DB tmproto.Bytes) (key : Key) : bool * option error :=
  if fails (OpHas key) then (false, Some (ErrStore (OpHas key)))
  else (dbm.has key db, None).

Definition store_Get (db : dbm.DB tmproto.Bytes) (key : Key)
    : option tmproto.Bytes * option error :=
  if fails (OpGet key) then (None, Some (ErrStore (OpGet key)))
  else (dbm.get key db, None).

Definition store_Set (db : dbm.DB tmproto.Bytes) (key : Key) (value : tmproto.Bytes)
    : dbm.DB tmproto.Bytes * option error :=
  if fails (OpSet key) then (db, Some (ErrStore (OpSet key)))
  else (dbm.set key value db, None).

Definition store_IteratePrefix (db : dbm.DB tmproto.Bytes) (prefix : Key)
    : list (Key * tmproto.Bytes) * option error :=
  if fails (OpIteratePrefix prefix) then ([], Some (ErrStore (OpIteratePrefix prefix)))
  else (dbm.IteratePrefix db prefix, None).

(** [iter.Error()]. *)
Definition iter_Error (prefix : Key) : option error :=
  if fails (OpIteratorError prefix) then Some (ErrStore (OpIteratorError prefix))
  else None.

Definition batch_Delete (batch : dbm.Batch) (key : Key) : dbm.Batch * option error :=
  if fails (OpBatchDelete key) then (batch, Some (ErrStore (OpBatchDelete key)))
  else (batch ++ [key], None).

Definition batch_WriteSync (batch : dbm.Batch) (db : dbm.DB tmproto.Bytes)
    : dbm.DB tmproto.Bytes * option error :=
  if fails OpBatchWriteSync then (db, Some (ErrStore OpBatchWriteSync))
  else (dbm.write batch db, None).

(** *** Keys *)

Definition evMapKey (ev : Evidence) : string := Hash ev.

Definition prefixToBytes (prefix : Z) : Key := Append [] [Int64 prefix].

Definition keyCommitted (evidence : Evidence) : Key :=
  let height := Height evidence in
  Append [] [Int64 prefixCommitted; Int64 height; Str (Hash evidence)].

Definition keyPending (evidence : Evidence) : Key :=
  let height := Height evidence in
  Append [] [Int64 prefixPending; Int64 height; Str (Hash evidence)].

Definition bytesToEv (evBytes : tmproto.Bytes) : option Evidence :=
  match tmproto.Unmarshal evBytes with
  | None => None
  | Some evpb => tmproto.EvidenceFromProto evpb
  end.

(** *** Readers *)

Definition verify (evpool : Pool) (ev : Evidence) : option error :=
  verify_ (state evpool) (stateDB evpool) (blockStore evpool) ev.

Definition Size (evpool : Pool) : Z := atomic.LoadUint32 (evidenceSize evpool).

Definition State (evpool : Pool) : sm.State := state evpool.

Definition isExpired (evpool : Pool) (height : Z) (time_ : time.Time) : bool :=
  let params := tmproto.Evidence (ConsensusParams (State evpool)) in
  let ageDuration := time.Sub (LastBlockTime (State evpool)) time_ in
  let ageNumBlocks := int64.sub (LastBlockHeight (State evpool)) height in
  (tmproto.MaxAgeNumBlocks params <? ageNumBlocks)
  && (tmproto.MaxAgeDuration params <? ageDuration).

Definition isCommitted (evpool : Pool) (evidence : Evidence) : bool * Pool :=
  let key := keyCommitted evidence in
  let '(ok, err) := store_Has (evidenceStore evpool) key in
  (ok, match err with
       | Some _ => logf log.Error "failed to find committed evidence" evpool
       | None => evpool
       end).

Definition isPending (evpool : Pool) (evidence : Evidence) : bool * Pool :=
  let key := keyPending evidence in
  let '(ok, err) := store_Has (evidenceStore evpool) key in
  (ok, match err with
       | Some _ => logf log.Error "failed to find pending evidence" evpool
       | None => evpool
       end).

Fixpoint validators_match (byzValsCopy trusted : list Validator) : bool :=
  match trusted, byzValsCopy with
  | [], _ => true
  | val :: trusted', c :: byzValsCopy' =>
      if negb (String.eqb (Address c) (Address val)) then false
      else if negb (VotingPower c =? VotingPower val) then false
      else validators_match byzValsCopy' trusted'
  | _ :: _, [] => false
  end.

Definition len_vals (vals : option (list Validator)) : nat :=
  match vals with Some l => length l | None => 0%nat end.

Definition fastCheck (evpool : Pool) (ev : Evidence) : bool * Pool :=
  match ev with
  | LightClientAttackEvidence _ _ lcaeVals _ =>
      let key := keyPending ev in
      let '(evBytes, err) := store_Get (evidenceStore evpool) key in
      match evBytes, err with
      | None, _ => (false, evpool)
      | Some _, Some _ =>
          (false, logf log.Error "failed to load light client attack evidence" evpool)
      | Some bz, None =>
          match tmproto.UnmarshalLightClientAttackEvidence bz with
          | None =>
              (false, logf log.Error
                 "failed to convert light client attack evidence from bytes" evpool)
          | Some trustedVals =>
              if bool_decide (trustedVals = None) && negb (bool_decide (lcaeVals = None))
              then (false, evpool)
              else if negb (Nat.eqb (len_vals trustedVals) (len_vals lcaeVals))
              then (false, evpool)
              else
                let byzValsCopy := sort_Sort (default [] lcaeVals) in
                (validators_match byzValsCopy (default [] trustedVals), evpool)
          end
      end
  | _ => isPending evpool ev
  end.

(** *** Writers *)

Definition addPendingEvidence (evpool : Pool) (ev : Evidence) : option error * Pool :=
  let evBytes := tmproto.EvidenceBytes ev in
  let key := keyPending ev in
  match store_Set (evidenceStore evpool) key evBytes with
  | (_, Some err) => (Some (fmt_Errorf "failed to persist evidence: %w" err), evpool)
  | (db, None) =>
      (None,
       with_evidenceSize (atomic.AddUint32 (evidenceSize evpool) 1)
         (with_evidenceStore db evpool))
  end.

(** Modelled from the spec: the broadcast list of [libs/clist], which is not
    among the sources, as the list of its elements; removal unlinks every
    node whose hash is in the given set. *)
Definition removeEvidenceFromList (evpool : Pool) (blockEvidenceMap : gset string)
    : Pool :=
  with_evidenceList
    (filter (fun ev => evMapKey ev ∉ blockEvidenceMap) (evidenceList evpool)) evpool.

Definition PushBack (ev : Evidence) (evpool : Pool) : Pool :=
  with_evidenceList (evidenceList evpool ++ [ev]) evpool.

(** The body of the loop of [markEvidenceAsCommitted], on the pool, the batch
    and the set of removed hashes. *)
Definition markEvidenceAsCommitted_step (height : Z)
    (acc : Pool * dbm.Batch * gset string) (ev : Evidence)
    : Pool * dbm.Batch * gset string :=
  let '(evpool, batch, blockEvidenceMap) := acc in
  let '(pending, evpool) := isPending evpool ev in
  let '(evpool, batch, blockEvidenceMap) :=
    if pending then
      let '(batch, err) := batch_Delete batch (keyPending ev) in
      let evpool :=
        match err with
        | Some _ => logf log.Error "failed to batch pending evidence" evpool
        | None => evpool
        end in
      (evpool, batch, {[evMapKey ev]} ∪ blockEvidenceMap)
    else (evpool, batch, blockEvidenceMap) in
  let key := keyCommitted ev in
  let evBytes := tmproto.Int64ValueBytes height in
  let '(db, err) := store_Set (evidenceStore evpool) key evBytes in
  let evpool := with_evidenceStore db evpool in
  let evpool :=
    match err with
    | Some _ => logf log.Error "failed to save committed evidence" evpool
    | None => evpool
    end in
  (logf log.Debug "marked evidence as committed" evpool, batch, blockEvidenceMap).

Definition markEvidenceAsCommitted (evpool : Pool) (evidence : EvidenceList)
    (height : Z) : Pool :=
  let '(evpool, batch, blockEvidenceMap) :=
    fold_left (markEvidenceAsCommitted_step height) evidence (evpool, [], ∅) in
  if Nat.eqb (size blockEvidenceMap) 0 then evpool
  else
    match batch_WriteSync batch (evidenceStore evpool) with
    | (_, Some _) => logf log.Error "failed to batch delete pending evidence" evpool
    | (db, None) =>
        let evpool := with_evidenceStore db evpool in
        let evpool := removeEvidenceFromList evpool blockEvidenceMap in
        with_evidenceSize
          (atomic.AddUint32 (evidenceSize evpool)
             (uint32.not (uint32.wrap (Z.of_nat (size blockEvidenceMap) - 1))))
          evpool
    end.

(** The loop of [listEvidence] over the entries of the iterator, on the
    aggregate [evList], [totalSize] and [evidence]. *)
Fixpoint listEvidence_loop (maxBytes : Z) (iterErr : option error)
    (entries : list (Key * tmproto.Bytes))
    (evList : list tmproto.EvidencePb) (totalSize : Z) (evidence : list Evidence)
    : list Evidence * Z * option error :=
  match entries with
  | [] => (evidence, totalSize, iterErr)
  | (_, value) :: entries' =>
      match tmproto.Unmarshal value with
      | None => (evidence, totalSize, Some ErrUnmarshal)
      | Some evpb =>
          let evList := evList ++ [evpb] in
          let evSize := EvidenceList_Size evList in
          if negb (maxBytes =? -1) && (maxBytes <? evSize)
          then (evidence, totalSize, iterErr)
          else
            match tmproto.EvidenceFromProto evpb with
            | None => ([], totalSize, Some ErrUnmarshal)
            | Some ev =>
                listEvidence_loop maxBytes iterErr entries' evList evSize
                  (evidence ++ [ev])
            end
      end
  end.

Definition listEvidence (evpool : Pool) (prefixKey : Z) (maxBytes : Z)
    : list Evidence * Z * option error :=
  match store_IteratePrefix (evidenceStore evpool) (prefixToBytes prefixKey) with
  | (_, Some err) => ([], 0, Some (fmt_Errorf "database error: %v" err))
  | (entries, None) =>
      listEvidence_loop maxBytes (iter_Error (prefixToBytes prefixKey)) entries [] 0 []
  end.

Definition PendingEvidence (evpool : Pool) (maxBytes : Z)
    : list Evidence * Z * Pool :=
  if Size evpool =? 0 then ([], 0, evpool)
  else
    let '(evidence, size, err) := listEvidence evpool prefixPending maxBytes in
    (evidence, size,
     match err with
     | Some _ => logf log.Error "failed to retrieve pending evidence" evpool
     | None => evpool
     end).

(** The loop of [batchExpiredPendingEvidence] over the entries of the
    iterator, on the pool, the batch and the set of removed hashes. *)
Fixpoint batchExpiredPendingEvidence_loop (evpool : Pool)
    (entries : list (Key * tmproto.Bytes)) (batch : dbm.Batch)
    (blockEvidenceMap : gset string)
    : Z * time.Time * gset string * dbm.Batch * Pool :=
  match entries with
  | [] =>
      (LastBlockHeight (State evpool), LastBlockTime (State evpool),
       blockEvidenceMap, batch, evpool)
  | (key, value) :: entries' =>
      match bytesToEv value with
      | None =>
          batchExpiredPendingEvidence_loop
            (logf log.Error "failed to transition evidence from protobuf" evpool)
            entries' batch blockEvidenceMap
      | Some ev =>
          if negb (isExpired evpool (Height ev) (Time ev)) then
            let params := tmproto.Evidence (ConsensusParams (State evpool)) in
            (int64.add (int64.add (Height ev) (tmproto.MaxAgeNumBlocks params)) 1,
             time.Add (time.Add (Time ev) (tmproto.MaxAgeDuration params)) time.Second,
             blockEvidenceMap, batch, evpool)
          else
            match batch_Delete batch key with
            | (batch, Some _) =>
                batchExpiredPendingEvidence_loop
                  (logf log.Error "failed to batch evidence" evpool)
                  entries' batch blockEvidenceMap
            | (batch, None) =>
                batchExpiredPendingEvidence_loop evpool entries' batch
                  ({[evMapKey ev]} ∪ blockEvidenceMap)
            end
      end
  end.

Definition batchExpiredPendingEvidence (evpool : Pool) (batch : dbm.Batch)
    : Z * time.Time * gset string * dbm.Batch * Pool :=
  match store_IteratePrefix (evidenceStore evpool) (prefixToBytes prefixPending) with
  | (_, Some _) =>
      let evpool := logf log.Error "failed to iterate over pending evidence" evpool in
      (LastBlockHeight (State evpool), LastBlockTime (State evpool), ∅, batch, evpool)
  | (entries, None) => batchExpiredPendingEvidence_loop evpool entries batch ∅
  end.

Definition removeExpiredPendingEvidence (evpool : Pool) : Z * time.Time * Pool :=
  let '(height, time_, blockEvidenceMap, batch, evpool) :=
    batchExpiredPendingEvidence evpool [] in
  if Nat.eqb (size blockEvidenceMap) 0 then (height, time_, evpool)
  else
    let evpool := logf log.Debug "removing expired evidence" evpool in
    match batch_WriteSync batch (evidenceStore evpool) with
    | (_, Some _) =>
        let evpool := logf log.Error "failed to batch delete pending evidence" evpool in
        (LastBlockHeight (State evpool), LastBlockTime (State evpool), evpool)
    | (db, None) =>
        let evpool := with_evidenceStore db evpool in
        let evpool := removeEvidenceFromList evpool blockEvidenceMap in
        (height, time_,
         with_evidenceSize
           (atomic.AddUint32 (evidenceSize evpool)
              (uint32.not (uint32.wrap (Z.of_nat (size blockEvidenceMap) - 1))))
           evpool)
    end.

Definition updateState (evpool : Pool) (st : sm.State) : Pool := with_state st evpool.

(** The body of the loop of [processConsensusBuffer]: [None] when the pair
    yields no evidence, with the error logged. *)
Definition formDuplicateVoteEvidence (evpool : Pool) (st : sm.State)
    (voteSet : duplicateVoteSet) : option Evidence * Pool :=
  if Vote_Height (VoteA voteSet) =? LastBlockHeight st then
    (Some (NewDuplicateVoteEvidence (VoteA voteSet) (VoteB voteSet)
             (LastBlockTime st) (LastValidators st)), evpool)
  else if Vote_Height (VoteA voteSet) <? LastBlockHeight st then
    match sm.LoadValidators (stateDB evpool) (Vote_Height (VoteA voteSet)) with
    | None =>
        (None, logf log.Error "failed to load validator set for conflicting votes" evpool)
    | Some valSet =>
        match LoadBlockMeta (blockStore evpool) (Vote_Height (VoteA voteSet)) with
        | None =>
            (None, logf log.Error "failed to load block time for conflicting votes" evpool)
        | Some blockMeta =>
            (Some (NewDuplicateVoteEvidence (VoteA voteSet) (VoteB voteSet)
                     (Header_Time (BlockMeta_Header blockMeta)) valSet), evpool)
        end
    end
  else
    (None,
     logf log.Error
       "inbound duplicate votes from consensus are of a greater height than current state"
       evpool).

Definition processConsensusBuffer_step (st : sm.State) (evpool : Pool)
    (voteSet : duplicateVoteSet) : Pool :=
  match formDuplicateVoteEvidence evpool st voteSet with
  | (None, evpool) => evpool
  | (Some dve, evpool) =>
      let '(pending, evpool) := isPending evpool dve in
      if pending then logf log.Debug "evidence already pending; ignoring" evpool
      else
        let '(committed, evpool) := isCommitted evpool dve in
        if committed then logf log.Debug "evidence already committed; ignoring" evpool
        else
          match addPendingEvidence evpool dve with
          | (Some _, evpool) =>
              logf log.Error
                "failed to flush evidence from consensus buffer to pending list: %w" evpool
          | (None, evpool) =>
              logf log.Info "verified new evidence of byzantine behavior"
                (PushBack dve evpool)
          end
  end.

Definition processConsensusBuffer (evpool : Pool) (st : sm.State) : Pool :=
  let evpool := fold_left (processConsensusBuffer_step st) (consensusBuffer evpool) evpool in
  with_consensusBuffer [] evpool.

Definition ReportConflictingVotes (evpool : Pool) (voteA voteB : Vote) : Pool :=
  with_consensusBuffer (consensusBuffer evpool ++ [mkDuplicateVoteSet voteA voteB]) evpool.

Definition AddEvidence (evpool : Pool) (ev : Evidence) : option error * Pool :=
  let evpool := logf log.Debug "attempting to add evidence" evpool in
  let '(pending, evpool) := isPending evpool ev in
  if pending then (None, logf log.Debug "evidence already pending; ignoring" evpool)
  else
    let '(committed, evpool) := isCommitted evpool ev in
    if committed
    then (None, logf log.Debug "evidence was already committed; ignoring" evpool)
    else
      match verify evpool ev with
      | Some err => (Some err, evpool)
      | None =>
          match addPendingEvidence evpool ev with
          | (Some err, evpool) =>
              (Some (fmt_Errorf "failed to add evidence to pending list: %w" err), evpool)
          | (None, evpool) =>
              let evpool := PushBack ev evpool in
              (None, logf log.Info "verified new evidence of byzantine behavior" evpool)
          end
      end.

(** The loop of [CheckEvidence], on the pool and the hashes of the items
    already checked. *)
Fixpoint CheckEvidence_loop (evpool : Pool) (hashes : list string)
    (evList : EvidenceList) : option error * Pool :=
  match evList with
  | [] => (None, evpool)
  | ev :: evList' =>
      let '(ok, evpool) := fastCheck evpool ev in
      let checked : error * Pool + Pool :=
        if ok then inr evpool
        else
          let '(committed, evpool) := isCommitted evpool ev in
          if committed
          then inl (ErrInvalidEvidence ev (errors_New "evidence was already committed"),
                    evpool)
          else
            match verify evpool ev with
            | Some err => inl (err, evpool)
            | None =>
                let '(err, evpool) := addPendingEvidence evpool ev in
                let evpool :=
                  match err with
                  | Some _ =>
                      logf log.Error "failed to add evidence to pending list" evpool
                  | None => evpool
                  end in
                inr (logf log.Info "verified new evidence of byzantine behavior" evpool)
            end in
      match checked with
      | inl (err, evpool) => (Some err, evpool)
      | inr evpool =>
          if bool_decide (Hash ev ∈ hashes)
          then (Some (ErrInvalidEvidence ev (errors_New "duplicate evidence")), evpool)
          else CheckEvidence_loop evpool (hashes ++ [Hash ev]) evList'
      end
  end.

Definition CheckEvidence (evpool : Pool) (evList : EvidenceList)
    : option error * Pool :=
  CheckEvidence_loop evpool [] evList.

Definition Update (evpool : Pool) (st : sm.State) (ev : EvidenceList) : Outcome Pool :=
  if LastBlockHeight st <=? LastBlockHeight (state evpool) then
    Panic
      "failed EvidencePool.Update new state height is less than or equal to previous state height"
  else
    let evpool := logf log.Debug "updating evidence pool" evpool in
    let evpool := processConsensusBuffer evpool st in
    let evpool := updateState evpool st in
    let evpool := markEvidenceAsCommitted evpool ev (LastBlockHeight st) in
    if (0 <? Size evpool) && (pruningHeight evpool <? LastBlockHeight st)
       && time.After (LastBlockTime st) (pruningTime evpool)
    then
      let '(height, time_, evpool) := removeExpiredPendingEvidence evpool in
      Returns (with_pruning height time_ evpool)
    else Returns evpool.

Definition NewPool (lg : log.Logger) (evidenceDB : dbm.DB tmproto.Bytes)
    (stateDB : sm.Store) (blockStore : BlockStore) : error + Pool :=
  match sm.Load stateDB with
  | inl err => inl (fmt_Errorf "failed to load state: %w" err)
  | inr st =>
      let pool := mkPool lg evidenceDB [] 0 stateDB blockStore st [] 0 0 in
      let '(height, time_, pool) := removeExpiredPendingEvidence pool in
      let pool := with_pruning height time_ pool in
      match listEvidence pool prefixPending (-1) with
      | (_, _, Some err) => inl err
      | (evList, _, None) =>
          let pool :=
            with_evidenceSize (atomic.StoreUint32 (Z.of_nat (length evList))) pool in
          inr (fold_left (fun p ev => PushBack ev p) evList pool)
      end
  end.

End EvidencePool.

(** * Invariants and auxiliary notions *)

(** Two pools agree on everything but the store and the log. *)
Definition same_memory (p p' : Pool) : Prop :=
  evidenceList p' = evidenceList p /\ evidenceSize p' = evidenceSize p
  /\ state p' = state p /\ consensusBuffer p' = consensusBuffer p
  /\ pruningHeight p' = pruningHeight p /\ pruningTime p' = pruningTime p
  /\ stateDB p' = stateDB p /\ blockStore p' = blockStore p.

(** Two pools agree on the cached state, the consensus buffer, the expiry
    cursor and the collaborating stores. *)
Definition same_config (p p' : Pool) : Prop :=
  state p' = state p /\ consensusBuffer p' = consensusBuffer p
  /\ pruningHeight p' = pruningHeight p /\ pruningTime p' = pruningTime p
  /\ stateDB p' = stateDB p /\ blockStore p' = blockStore p.

(** The pending entries of the store, in key order. *)
Definition pendingEntries (evpool : Pool) : list (orderedcode.Key * tmproto.Bytes) :=
  dbm.IteratePrefix (evidenceStore evpool) [orderedcode.Int64 prefixPending].

(** Invariant I1 (disjointness): no evidence is both pending and committed. *)
Definition I1_disjoint `{Collaborators} (evpool : Pool) : Prop :=
  forall ev : types.Evidence,
    ~ (dbm.has (keyPending ev) (evidenceStore evpool) = true
       /\ dbm.has (keyCommitted ev) (evidenceStore evpool) = true).

(** The serialized size of an aggregate of evidence items. *)
Definition aggregateSize `{Collaborators} (evs : list types.Evidence) : Z :=
  EvidenceList_Size (map tmproto.PbOf evs).

(** The items of [evs] taken from the front while the aggregate, which
    already holds [used] bytes, stays within [maxBytes]; all of them when
    [maxBytes] is [-1]. *)
Fixpoint fitting_prefix `{Collaborators} (maxBytes used : Z)
    (evs : list types.Evidence) : list types.Evidence :=
  match evs with
  | [] => []
  | ev :: evs' =>
      let used' := used + ProtoSize (tmproto.PbOf ev) in
      if negb (maxBytes =? -1) && (maxBytes <? used') then []
      else ev :: fitting_prefix maxBytes used' evs'
  end.

(** The pending evidence: the pending entries that decode, in key order. *)
Definition pendingEvidence (evpool : Pool) : list types.Evidence :=
  omap (fun kv => bytesToEv kv.2) (pendingEntries evpool).

(** Invariant I2 (list and store): the hashes of the broadcast list are, as
    a multiset, the hashes of the pending set. *)
Definition I2_list_is_pending `{Collaborators} (evpool : Pool) : Prop :=
  map Hash (evidenceList evpool) ≡ₚ map Hash (pendingEvidence evpool).

(** Invariant I3 (size counter): the counter is the number of pending
    entries. *)
Definition I3_size_is_pending (evpool : Pool) : Prop :=
  evidenceSize evpool = Z.of_nat (length (pendingEntries evpool)).

(** Every pending entry holds an evidence item under the key of that item. *)
Definition pending_wf `{Collaborators} (evpool : Pool) : Prop :=
  forall k v, (k, v) ∈ pendingEntries evpool ->
    exists ev, v = tmproto.EvidenceBytes ev /\ k = keyPending ev.

(** The pool when [Update] reaches its pruning step: the buffer flushed, the
    state updated, the evidence of the block marked as committed. *)
Definition Update_reconciled `{Collaborators} (evpool : Pool) (st : sm.State)
    (ev : list types.Evidence) : Pool :=
  markEvidenceAsCommitted
    (updateState
       (processConsensusBuffer (logf log.Debug "updating evidence pool" evpool) st)
       st)
    ev (sm.LastBlockHeight st).

(** Whether the scan of the pending set takes an entry for expired: its
    value decodes to an evidence item that is expired. *)
Definition expired_entry (evpool : Pool) (kv : orderedcode.Key * tmproto.Bytes) : bool :=
  match bytesToEv kv.2 with
  | Some ev => isExpired evpool (types.Height ev) (types.Time ev)
  | None => false
  end.

(** The entries left when the leading expired entries are dropped. *)
Fixpoint drop_expired (evpool : Pool) (entries : list (orderedcode.Key * tmproto.Bytes))
    : list (orderedcode.Key * tmproto.Bytes) :=
  match entries with
  | [] => []
  | kv :: entries' =>
      if expired_entry evpool kv then drop_expired evpool entries' else entries
  end.

(** The leading expired entries. *)
Fixpoint take_expired (evpool : Pool) (entries : list (orderedcode.Key * tmproto.Bytes))
    : list (orderedcode.Key * tmproto.Bytes) :=
  match entries with
  | [] => []
  | kv :: entries' =>
      if expired_entry evpool kv then kv :: take_expired evpool entries' else []
  end.

(** The freshness bounds in the words of the specification: an item is
    fresh in height when its height is not older than
    [LastBlockHeight - MaxAgeNumBlocks], and fresh in time when its time is
    not older than [LastBlockTime - MaxAgeDuration]. *)
Definition spec_height_fresh (st : sm.State) (height : Z) : Prop :=
  sm.LastBlockHeight st
    - tmproto.MaxAgeNumBlocks (tmproto.Evidence (sm.ConsensusParams st)) <= height.

Definition spec_time_fresh (st : sm.State) (t : time.Time) : Prop :=
  sm.LastBlockTime st
    - tmproto.MaxAgeDuration (tmproto.Evidence (sm.ConsensusParams st)) <= t.

(** The set of hashes the loop of [markEvidenceAsCommitted] records. *)
Definition markEvidenceAsCommitted_removed `{Collaborators} (evpool : Pool)
    (evidence : list types.Evidence) (height : Z) : gset string :=
  (fold_left (markEvidenceAsCommitted_step height) evidence (evpool, [], ∅)).2.

(** The set of hashes [batchExpiredPendingEvidence] records. *)
Definition batchExpiredPendingEvidence_removed `{Collaborators} (evpool : Pool)
    : gset string :=
  (batchExpiredPendingEvidence evpool []).1.1.2.

(** * Scenarios

    Concrete collaborators and pools on which the properties below are
    exercised. *)

Module Scenario.
Import types.

(** A sample content hash: the conflicting header of a light-client attack,
    the validator and the two block identifiers of a duplicate vote. *)
Definition sampleHash (ev : Evidence) : string :=
  match ev with
  | DuplicateVoteEvidence a b _ _ =>
      Vote_ValidatorAddress a ++ "/" ++ Vote_BlockID a ++ "/" ++ Vote_BlockID b
  | LightClientAttackEvidence blk _ _ _ => blk
  end.

(** Sample serialized sizes: 300 bytes at height 1, 400 at height 2, ... *)
Definition sampleSize (evpb : tmproto.EvidencePb) : Z :=
  match evpb with
  | tmproto.PbOf ev => 200 + 100 * Z.abs (Height ev)
  | tmproto.PbInvalid _ => 0
  end.

(** A verifier that accepts, a store that never fails. *)
Definition healthy : Collaborators :=
  mkCollaborators sampleHash sampleSize (fun _ _ _ _ => None) (fun _ => false).

(** A verifier that rejects every item. *)
Definition rejecting : Collaborators :=
  mkCollaborators sampleHash sampleSize
    (fun _ _ _ _ => Some (errors_New "evidence is not valid")) (fun _ => false).


Definition second (n : Z) : time.Time := n * time.Second.

Definition params : tmproto.ConsensusParams :=
  tmproto.mkConsensusParams (tmproto.mkEvidenceParams 5 (second 10)).

Definition stateAt (height : Z) (t : time.Time) : sm.State :=
  sm.mkState height t [mkValidator "val1" 10] params.

Definition vote (height : Z) (blockID : string) : Vote :=
  mkVote height 0 blockID "val1".

(** A store whose batch deletions fail. *)
Definition batchDeleteFailing : Collaborators :=
  mkCollaborators sampleHash sampleSize (fun _ _ _ _ => None)
    (fun op => match op with OpBatchDelete _ => true | _ => false end).

(** A duplicate vote at [height] and [t], for the blocks [blk] and [blk']. *)
Definition dve (height : Z) (t : time.Time) (blk : string) : Evidence :=
  DuplicateVoteEvidence (vote height blk) (vote height (blk ++ "'")) t
    [mkValidator "val1" 10].

(** An empty pool at [height] and [t], as [NewPool] makes it. *)
Definition emptyPool (height : Z) (t : time.Time) : Pool :=
  mkPool [] [] [] 0 (sm.mkStore (inr (stateAt height t)) (fun _ => None))
    (mkBlockStore (fun _ => None) (fun _ => None)) (stateAt height t) []
    height t.

(** The pool a call has returned. *)
Definition returned (o : Outcome Pool) : Pool :=
  match o with
  | Returns p => p
  | Panic _ => emptyPool 0 0
  end.

(** Expiry. Evidence at height 5 and time 100 s, with the sample window of
    5 blocks and 10 s, in a pool created at height 9: it expires once the
    height is at least 11 and the time is after 110 s. *)
Definition ev5 : Evidence := dve 5 (second 100) "blockA".

Definition expiryPool1 : Pool :=
  (AddEvidence (H := healthy) (emptyPool 9 (second 104)) ev5).2.

(** The update to height 10 scans the pending set and sets the cursor. *)
Definition expiryPool2 : Pool :=
  returned (Update (H := healthy) expiryPool1 (stateAt 10 (second 105)) []).

(** Height 12 at 110.5 s, then height 13 at 110.8 s: the item is expired,
    the time is not yet beyond the cursor. *)
Definition expiryState_in_margin : sm.State := stateAt 12 (second 110 + 500000000).

Definition expiryPool3 : Pool :=
  returned (Update (H := healthy) expiryPool2 expiryState_in_margin []).

Definition expiryState_in_margin' : sm.State := stateAt 13 (second 110 + 800000000).

(** Height 11 at 120 s: the item is expired, the height is not yet beyond
    the cursor. *)
Definition expiryState_at_cursor_height : sm.State := stateAt 11 (second 120).

(** Height 12 at 112 s: beyond the cursor. *)
Definition expiryState_beyond : sm.State := stateAt 12 (second 112).

(** Commit. Evidence at height 10, pending in a pool at height 10. *)
Definition ev10 : Evidence := dve 10 (second 100) "blockA".

Definition pendingPool (H : Collaborators) : Pool :=
  (AddEvidence (H := H) (emptyPool 10 (second 100)) ev10).2.

(** Byte cap. Three pending items of serialized sizes 300, 400 and 500, added
    out of key order. *)
Definition e300 : Evidence := dve 1 (second 1) "block1".
Definition e400 : Evidence := dve 2 (second 2) "block2".
Definition e500 : Evidence := dve 3 (second 3) "block3".

Definition threePool : Pool :=
  (AddEvidence (H := healthy)
     (AddEvidence (H := healthy)
        (AddEvidence (H := healthy) (emptyPool 3 (second 3)) e500).2 e300).2 e400).2.

(** Historical duplicate vote. Votes at height 8 reported to a pool at height
    12 whose stores know the validators [V8] and the header time [T8] of
    height 8. *)
Definition V8 : list Validator := [mkValidator "val1" 7; mkValidator "val2" 3].
Definition T8 : time.Time := second 80.

Definition historyPool : Pool :=
  ReportConflictingVotes
    (mkPool [] [] [] 0
       (sm.mkStore (inr (stateAt 12 (second 120)))
          (fun h => if h =? 8 then Some V8 else None))
       (mkBlockStore
          (fun h => if h =? 8 then Some (mkBlockMeta (mkHeader 8 T8)) else None)
          (fun _ => None))
       (stateAt 12 (second 120)) [] 12 (second 120))
    (vote 8 "blockA") (vote 8 "blockB").

(** Commit. The evidence of [pendingPool] committed by the block of height
    11. *)
Definition committedPool : Pool :=
  returned (Update (H := healthy) (pendingPool healthy) (stateAt 11 (second 101)) [ev10]).

(** A second duplicate vote at height 10. *)
Definition ev10' : Evidence := dve 10 (second 100) "blockB".

(** Restart. At height 8 and 13 s the items of heights 1 and 2 of
    [threePool] are expired and the item of height 3 is not. *)
Definition restartState : sm.State := stateAt 8 (second 13).

Definition agedPool : Pool := updateState threePool restartState.

Definition restartStore : sm.Store := sm.mkStore (inr restartState) (fun _ => None).

Definition restartBlocks : BlockStore :=
  mkBlockStore (fun _ => None) (fun _ => None).

(** The pool opened on the store of [threePool] at [restartState]. *)
Definition restartedPool : Pool :=
  match NewPool (H := healthy) [] (evidenceStore threePool) restartStore restartBlocks with
  | inr pool => pool
  | inl _ => emptyPool 0 0
  end.

(** A store whose membership tests fail. *)
Definition hasFailing : Collaborators :=
  mkCollaborators sampleHash sampleSize (fun _ _ _ _ => None)
    (fun op => match op with OpHas _ => true | _ => false end).

(** The store of [pendingPool] followed by an entry of other bytes. *)
Definition corruptKey : orderedcode.Key :=
  [orderedcode.Int64 prefixPending; orderedcode.Int64 11; orderedcode.Str "junk"].

Definition corruptPool (bz : tmproto.Bytes) : Pool :=
  with_evidenceStore (evidenceStore (pendingPool healthy) ++ [(corruptKey, bz)])
    (pendingPool healthy).

(** Votes of height 10 reported to a pool at height 9, then the update to
    height 10. *)
Definition reportedPool : Pool :=
  returned
    (Update (H := healthy)
       (ReportConflictingVotes (emptyPool 9 (second 90)) (vote 10 "blockA")
          (vote 10 "blockB"))
       (stateAt 10 (second 100)) []).

End Scenario.

(** * Properties *)

(** ** Arithmetic of the size counter *)

Lemma uint32_not_eq (x : Z) : uint32.not x = (- x - 1) mod 2 ^ 32.
Proof. unfold uint32.not, uint32.wrap, uint32.modulus, Z.lnot. f_equal. Qed.

Lemma AddUint32_decrement (size n : Z) :
  atomic.AddUint32 size (uint32.not (uint32.wrap (n - 1))) = (size - n) mod 2 ^ 32.
Proof.
  unfold atomic.AddUint32. rewrite uint32_not_eq. unfold uint32.wrap, uint32.modulus.
  rewrite Zplus_mod_idemp_r.
  replace (size + (- ((n - 1) mod 2 ^ 32) - 1))
    with ((size - 1) - ((n - 1) mod 2 ^ 32)) by lia.
  rewrite Zminus_mod_idemp_r. f_equal. lia.
Qed.

Lemma int64_wrap_id (z : Z) : int64.InRange z -> int64.wrap z = z.
Proof.
  unfold int64.InRange, int64.min, int64.max, int64.wrap. intros Hz.
  rewrite Z.mod_small; lia.
Qed.

Lemma time_Sub_exact (t u : time.Time) :
  int64.InRange (t - u) -> time.Sub t u = t - u.
Proof.
  unfold int64.InRange, time.Sub, time.minDuration, time.maxDuration. intros Hz.
  destruct (Z.ltb_spec (t - u) int64.min); [lia|].
  destruct (Z.ltb_spec int64.max (t - u)); [lia|]. reflexivity.
Qed.

(** ** The key order and the store *)

Module dbm_facts.
Import orderedcode dbm.

Lemma string_compare_refl (s : string) : String.compare s s = Eq.
Proof.
  pose proof (String.compare_antisym s s) as Hs.
  destruct (String.compare s s); simpl in Hs; congruence.
Qed.

Lemma item_compare_refl (a : Item) : item_compare a a = Eq.
Proof. destruct a; simpl; [apply Z.compare_refl | apply string_compare_refl]. Qed.

Lemma item_compare_eq (a b : Item) : item_compare a b = Eq -> a = b.
Proof.
  destruct a, b; simpl; intros Hc; try discriminate.
  - apply Z.compare_eq in Hc. congruence.
  - apply String.compare_eq_iff in Hc. congruence.
Qed.

Lemma item_compare_antisym (a b : Item) :
  item_compare a b = CompOpp (item_compare b a).
Proof.
  destruct a, b; simpl; try reflexivity.
  - apply Z.compare_antisym.
  - apply String.compare_antisym.
Qed.

Lemma compare_refl (k : Key) : compare k k = Eq.
Proof. induction k as [|a k IH]; simpl; [|rewrite item_compare_refl]; auto. Qed.

Lemma compare_eq (k1 k2 : Key) : compare k1 k2 = Eq -> k1 = k2.
Proof.
  revert k2. induction k1 as [|a k1 IH]; intros [|b k2]; simpl; try congruence.
  destruct (item_compare a b) eqn:Hab; try discriminate.
  intros Hc. apply item_compare_eq in Hab. apply IH in Hc. congruence.
Qed.

Lemma compare_antisym (k1 k2 : Key) : compare k1 k2 = CompOpp (compare k2 k1).
Proof.
  revert k2. induction k1 as [|a k1 IH]; intros [|b k2]; simpl; try reflexivity.
  rewrite (item_compare_antisym a b).
  destruct (item_compare b a); simpl; auto.
Qed.

Lemma ascii_compare_lt_trans (a b c : Ascii.ascii) :
  Ascii.compare a b = Lt -> Ascii.compare b c = Lt -> Ascii.compare a c = Lt.
Proof.
  unfold Ascii.compare. rewrite !N.compare_lt_iff. apply N.lt_trans.
Qed.

Lemma string_compare_lt_trans (s1 s2 s3 : string) :
  String.compare s1 s2 = Lt -> String.compare s2 s3 = Lt -> String.compare s1 s3 = Lt.
Proof.
  revert s2 s3. induction s1 as [|a s1 IH]; intros [|b s2] [|c s3]; simpl;
    try congruence.
  destruct (Ascii.compare a b) eqn:Hab; try discriminate;
    destruct (Ascii.compare b c) eqn:Hbc; try discriminate; intros H12 H23.
  - apply Ascii.compare_eq_iff in Hab, Hbc. subst b c.
    rewrite (proj2 (N.compare_eq_iff _ _) eq_refl : Ascii.compare a a = Eq).
    eapply IH; eassumption.
  - apply Ascii.compare_eq_iff in Hab. subst b. rewrite Hbc. reflexivity.
  - apply Ascii.compare_eq_iff in Hbc. subst c. rewrite Hab. reflexivity.
  - rewrite (ascii_compare_lt_trans a b c Hab Hbc). reflexivity.
Qed.

Lemma item_compare_lt_trans (a b c : Item) :
  item_compare a b = Lt -> item_compare b c = Lt -> item_compare a c = Lt.
Proof.
  destruct a, b, c; simpl; try congruence.
  - rewrite !Z.compare_lt_iff. lia.
  - apply string_compare_lt_trans.
Qed.

Lemma compare_lt_trans (k1 k2 k3 : Key) :
  compare k1 k2 = Lt -> compare k2 k3 = Lt -> compare k1 k3 = Lt.
Proof.
  revert k2 k3. induction k1 as [|a k1 IH]; intros [|b k2] [|c k3]; simpl;
    try congruence.
  destruct (item_compare a b) eqn:Hab; try discriminate;
    destruct (item_compare b c) eqn:Hbc; try discriminate; intros H12 H23.
  - apply item_compare_eq in Hab, Hbc. subst b c. rewrite item_compare_refl.
    eapply IH; eassumption.
  - apply item_compare_eq in Hab. subst b. rewrite Hbc. reflexivity.
  - apply item_compare_eq in Hbc. subst c. rewrite Hab. reflexivity.
  - rewrite (item_compare_lt_trans a b c Hab Hbc). reflexivity.
Qed.

Section Facts.
Context {V : Type}.
Implicit Types (db : DB V) (k key : Key) (v : V).

Lemma get_set_eq db k v : get k (set k v db) = Some v.
Proof.
  induction db as [|[k' v'] db IH]; simpl.
  - rewrite decide_True; auto.
  - destruct (compare k k') eqn:Hc; simpl.
    + rewrite decide_True; auto.
    + rewrite decide_True; auto.
    + rewrite decide_False; auto.
      intros ->. rewrite compare_refl in Hc. discriminate.
Qed.

Lemma get_set_ne db k k' v : k <> k' -> get k' (set k v db) = get k' db.
Proof.
  intros Hne. induction db as [|[k0 v0] db IH]; simpl.
  - rewrite decide_False; auto.
  - destruct (compare k k0) eqn:Hc; simpl.
    + apply compare_eq in Hc. subst k0.
      rewrite !decide_False; auto.
    + rewrite (decide_False (P := k = k')); auto.
    + rewrite IH. reflexivity.
Qed.

Lemma has_set_eq db k v : has k (set k v db) = true.
Proof. unfold has. rewrite get_set_eq. reflexivity. Qed.

Lemma has_set_ne db k k' v : k <> k' -> has k' (set k v db) = has k' db.
Proof. intros Hne. unfold has. rewrite get_set_ne; auto. Qed.

Lemma get_delete_eq db k : get k (delete k db) = None.
Proof.
  unfold delete. induction db as [|[k0 v0] db IH]; simpl; auto.
  rewrite filter_cons. simpl. destruct (decide (k0 <> k)) as [Hne|Heq]; simpl; auto.
  rewrite decide_False; auto.
Qed.

Lemma get_delete_ne db k k' : k <> k' -> get k' (delete k db) = get k' db.
Proof.
  intros Hne. unfold delete. induction db as [|[k0 v0] db IH]; simpl; auto.
  rewrite filter_cons. simpl. destruct (decide (k0 <> k)) as [Hne0|Heq]; simpl.
  - rewrite IH. reflexivity.
  - apply dec_stable in Heq. subst k0. rewrite decide_False; auto.
Qed.

Lemma has_delete_eq db k : has k (delete k db) = false.
Proof. unfold has. rewrite get_delete_eq. reflexivity. Qed.

Lemma has_delete_ne db k k' : k <> k' -> has k' (delete k db) = has k' db.
Proof. intros Hne. unfold has. rewrite get_delete_ne; auto. Qed.

Lemma delete_comm db k1 k2 : delete k1 (delete k2 db) = delete k2 (delete k1 db).
Proof.
  unfold delete. induction db as [|[k0 v0] db IH]; simpl; auto.
  rewrite !filter_cons. simpl.
  destruct (decide (k0 <> k2)), (decide (k0 <> k1));
    rewrite ?filter_cons; simpl;
    repeat (match goal with |- context [decide ?P] => destruct (decide P) end);
    try contradiction; congruence.
Qed.

Lemma get_write_in batch db k : k ∈ batch -> get k (write batch db) = None.
Proof.
  unfold write. revert db. induction batch as [|k0 batch IH]; intros db Hin; simpl.
  - inversion Hin.
  - destruct (decide (k ∈ batch)) as [Hb|Hb]; [apply IH; exact Hb|].
    apply elem_of_cons in Hin as [->|Hin]; [|contradiction].
    clear IH. revert db. induction batch as [|k1 batch IH]; intros db; simpl.
    + apply get_delete_eq.
    + apply not_elem_of_cons in Hb as [Hne Hb].
      specialize (IH Hb (delete k1 db)).
      rewrite delete_comm. exact IH.
Qed.

Lemma get_write_notin batch db k : k ∉ batch -> get k (write batch db) = get k db.
Proof.
  unfold write. revert db. induction batch as [|k0 batch IH]; intros db Hb; simpl; auto.
  apply not_elem_of_cons in Hb as [Hne Hb].
  rewrite IH; auto. apply get_delete_ne. congruence.
Qed.

Lemma get_Some_elem db k v : get k db = Some v -> (k, v) ∈ db.
Proof.
  induction db as [|[k0 v0] db IH]; simpl; [discriminate|].
  destruct (decide (k0 = k)) as [->|Hne].
  - intros [= ->]. apply elem_of_cons. auto.
  - intros Hg. apply elem_of_cons. right. auto.
Qed.

Lemma elem_get_is_Some db k v : (k, v) ∈ db -> has k db = true.
Proof.
  unfold has. induction db as [|[k0 v0] db IH]; intros Hin; simpl.
  - inversion Hin.
  - destruct (decide (k0 = k)); auto.
    apply elem_of_cons in Hin as [[= -> ->]|Hin]; [contradiction|]. auto.
Qed.

Lemma elem_set db k v k' v' :
  (k', v') ∈ set k v db -> (k', v') = (k, v) \/ (k', v') ∈ db.
Proof.
  induction db as [|[k0 v0] db IH]; simpl; intros Hin.
  - apply list_elem_of_singleton in Hin. auto.
  - destruct (compare k k0).
    + apply elem_of_cons in Hin as [Hin|Hin]; auto.
      right. apply elem_of_cons. auto.
    + apply elem_of_cons in Hin as [Hin|Hin]; auto.
    + apply elem_of_cons in Hin as [Hin|Hin].
      * right. apply elem_of_cons. auto.
      * apply IH in Hin as [Hin|Hin]; auto. right. apply elem_of_cons. auto.
Qed.

Lemma elem_delete db k k' v' : (k', v') ∈ delete k db -> (k', v') ∈ db /\ k' <> k.
Proof.
  unfold delete. intros Hin. apply list_elem_of_filter in Hin as [Hne Hin]. auto.
Qed.

Lemma elem_write batch db k' v' :
  (k', v') ∈ write batch db -> (k', v') ∈ db /\ k' ∉ batch.
Proof.
  unfold write. revert db. induction batch as [|k batch IH]; intros db Hin; simpl in *.
  - split; [exact Hin|]. intros Hb. inversion Hb.
  - apply IH in Hin as [Hin Hnb]. apply elem_delete in Hin as [Hin Hne].
    split; [exact Hin|]. intros Hb. apply elem_of_cons in Hb as [Hb|Hb]; contradiction.
Qed.

Lemma elem_IteratePrefix db p k v :
  (k, v) ∈ IteratePrefix db p -> (k, v) ∈ db.
Proof.
  unfold IteratePrefix. intros Hin. apply list_elem_of_filter in Hin as [_ Hin]. exact Hin.
Qed.

Lemma elem_IteratePrefix_write batch db p k v :
  (k, v) ∈ IteratePrefix (write batch db) p ->
  (k, v) ∈ IteratePrefix db p /\ k ∉ batch.
Proof.
  unfold IteratePrefix. intros Hin. apply list_elem_of_filter in Hin as [Hp Hin].
  apply elem_write in Hin as [Hin Hnb]. split; [|exact Hnb].
  apply list_elem_of_filter. auto.
Qed.

(** The order of the store is kept by its operations. *)

Lemma ascending_cons db k v :
  ascending ((k, v) :: db) <->
  (forall k' v', (k', v') ∈ db -> compare k k' = Lt) /\ ascending db.
Proof.
  revert k v. induction db as [|[k0 v0] db IH]; intros k v.
  - simpl. split; [|tauto]. intros _. split; [|exact I].
    intros k' v' Hin. inversion Hin.
  - split.
    + intros [Hk Hdb]. split; [|exact Hdb].
      intros k' v' Hin. apply elem_of_cons in Hin as [[= -> ->]|Hin]; [exact Hk|].
      apply IH in Hdb as [Hlt _]. eapply compare_lt_trans; [exact Hk|].
      eapply Hlt. exact Hin.
    + intros [Hlt Hdb]. split; [|exact Hdb].
      apply (Hlt k0 v0). apply elem_of_cons. auto.
Qed.

Lemma set_ascending db k v : ascending db -> ascending (set k v db).
Proof.
  induction db as [|[k0 v0] db IH]; intros Hdb.
  - simpl. auto.
  - cbn [set]. destruct (compare k k0) eqn:Hc.
    + apply compare_eq in Hc. subst k0.
      apply ascending_cons in Hdb. apply ascending_cons. exact Hdb.
    + split; [exact Hc|exact Hdb].
    + apply ascending_cons in Hdb as [Hlt Hdb]. apply ascending_cons.
      split; [|apply IH, Hdb].
      intros k' v' Hin. apply elem_set in Hin as [[= -> ->]|Hin].
      * rewrite compare_antisym, Hc. reflexivity.
      * eapply Hlt. exact Hin.
Qed.

Lemma filter_ascending (P : Key * V -> Prop) `{forall kv, Decision (P kv)} db :
  ascending db -> ascending (filter P db).
Proof.
  induction db as [|[k0 v0] db IH]; intros Hdb; [exact I|].
  apply ascending_cons in Hdb as [Hlt Hdb]. rewrite filter_cons.
  destruct (decide (P (k0, v0))); [|apply IH, Hdb].
  apply ascending_cons. split; [|apply IH, Hdb].
  intros k' v' Hin. apply list_elem_of_filter in Hin as [_ Hin]. eapply Hlt. exact Hin.
Qed.

Lemma delete_ascending db k : ascending db -> ascending (delete k db).
Proof. apply filter_ascending. Qed.

Lemma write_ascending batch db : ascending db -> ascending (write batch db).
Proof.
  unfold write. revert db. induction batch as [|k batch IH]; intros db Hdb; simpl.
  - exact Hdb.
  - apply IH, delete_ascending, Hdb.
Qed.

Lemma IteratePrefix_ascending db p : ascending db -> ascending (IteratePrefix db p).
Proof. apply filter_ascending. Qed.

End Facts.
End dbm_facts.

(** ** The pool *)

(** Reduce the projections of updated pools, and nothing else. *)
Ltac pool_simpl :=
  cbn [evidenceStore evidenceList evidenceSize state logger consensusBuffer
       pruningHeight pruningTime stateDB blockStore
       with_evidenceStore with_evidenceList with_evidenceSize with_state
       with_logger with_consensusBuffer with_pruning logf removeEvidenceFromList
       PushBack updateState fst snd] in *.

Section PoolFacts.
Import orderedcode types dbm_facts.
Context `{Collaborators}.

(** *** Expiry *)

Lemma isExpired_unfold (evpool : Pool) (height : Z) (t : time.Time) :
  isExpired evpool height t = true <->
  tmproto.MaxAgeNumBlocks (tmproto.Evidence (sm.ConsensusParams (state evpool)))
    < int64.sub (sm.LastBlockHeight (state evpool)) height
  /\ tmproto.MaxAgeDuration (tmproto.Evidence (sm.ConsensusParams (state evpool)))
    < time.Sub (sm.LastBlockTime (state evpool)) t.
Proof.
  unfold isExpired, State. rewrite andb_true_iff, !Z.ltb_lt. reflexivity.
Qed.

(** C1 (amended). Without overflow in the two age computations,
    [isExpired(height, time)] holds exactly when BOTH freshness bounds are
    violated: the height is older than [sm.LastBlockHeight - MaxAgeNumBlocks]
    and the time is older than [sm.LastBlockTime - MaxAgeDuration]. An item
    that meets one of the two bounds is not expired. *)
Theorem isExpired_iff_both_bounds_violated (evpool : Pool) (height : Z)
    (t : time.Time) :
  int64.InRange (sm.LastBlockHeight (state evpool) - height) ->
  int64.InRange (sm.LastBlockTime (state evpool) - t) ->
  (isExpired evpool height t = true <->
   ~ spec_height_fresh (state evpool) height /\ ~ spec_time_fresh (state evpool) t)
  /\ (spec_height_fresh (state evpool) height \/ spec_time_fresh (state evpool) t ->
      isExpired evpool height t = false).
Proof.
  intros Hh Ht.
  assert (Hiff : isExpired evpool height t = true <->
    ~ spec_height_fresh (state evpool) height /\ ~ spec_time_fresh (state evpool) t).
  { rewrite isExpired_unfold. unfold int64.sub.
    rewrite int64_wrap_id, time_Sub_exact by assumption.
    unfold spec_height_fresh, spec_time_fresh. lia. }
  split; [exact Hiff|].
  intros Hfresh. apply not_true_is_false. intros He. apply Hiff in He. tauto.
Qed.

(** *** The precondition of [Update] *)


(** *** Frames: what the loops leave alone *)

Lemma same_memory_refl (p : Pool) : same_memory p p.
Proof. unfold same_memory. tauto. Qed.

Lemma same_memory_trans (p q r : Pool) :
  same_memory p q -> same_memory q r -> same_memory p r.
Proof. unfold same_memory. intuition congruence. Qed.

Lemma same_memory_logf (lvl : log.Level) (msg : string) (p : Pool) :
  same_memory p (logf lvl msg p).
Proof. unfold same_memory. simpl. tauto. Qed.

Lemma same_memory_store (db : list (Key * tmproto.Bytes)) (p : Pool) :
  same_memory p (with_evidenceStore db p).
Proof. unfold same_memory. simpl. tauto. Qed.

Lemma isPending_eq (evpool : Pool) (ev : Evidence) :
  isPending evpool ev =
  if fails (OpHas (keyPending ev))
  then (false, logf log.Error "failed to find pending evidence" evpool)
  else (dbm.has (keyPending ev) (evidenceStore evpool), evpool).
Proof. unfold isPending, store_Has. destruct (fails _); reflexivity. Qed.

Lemma isCommitted_eq (evpool : Pool) (ev : Evidence) :
  isCommitted evpool ev =
  if fails (OpHas (keyCommitted ev))
  then (false, logf log.Error "failed to find committed evidence" evpool)
  else (dbm.has (keyCommitted ev) (evidenceStore evpool), evpool).
Proof. unfold isCommitted, store_Has. destruct (fails _); reflexivity. Qed.

Lemma markEvidenceAsCommitted_step_frame (height : Z) (p : Pool) (b : list Key)
    (m : gset string) (ev : Evidence) :
  same_memory p (markEvidenceAsCommitted_step height (p, b, m) ev).1.1.
Proof.
  unfold markEvidenceAsCommitted_step. rewrite isPending_eq.
  unfold batch_Delete, store_Set.
  destruct (fails (OpHas _)); simpl;
    [|destruct (dbm.has _ _); simpl; [destruct (fails (OpBatchDelete _)); simpl|]];
    destruct (fails (OpSet _)); simpl; unfold same_memory; simpl; tauto.
Qed.

Lemma markEvidenceAsCommitted_loop_frame (height : Z) (evidence : list Evidence)
    (p : Pool) (b : list Key) (m : gset string) :
  same_memory p
    (fold_left (markEvidenceAsCommitted_step height) evidence (p, b, m)).1.1.
Proof.
  revert p b m. induction evidence as [|ev evidence IH]; intros p b m; cbn [fold_left].
  - apply same_memory_refl.
  - pose proof (markEvidenceAsCommitted_step_frame height p b m ev) as Hs.
    destruct (markEvidenceAsCommitted_step height (p, b, m) ev) as [[p1 b1] m1].
    eapply same_memory_trans; [exact Hs|apply IH].
Qed.

Lemma batchExpiredPendingEvidence_loop_frame (entries : list (Key * tmproto.Bytes))
    (p : Pool) (b : list Key) (m : gset string) :
  same_memory p (batchExpiredPendingEvidence_loop p entries b m).2
  /\ evidenceStore (batchExpiredPendingEvidence_loop p entries b m).2 = evidenceStore p.
Proof.
  revert p b m. induction entries as [|[k v] entries IH]; intros p b m; simpl.
  - split; [apply same_memory_refl|reflexivity].
  - destruct (bytesToEv v) as [ev|].
    + destruct (isExpired p (Height ev) (Time ev)); simpl.
      * unfold batch_Delete. destruct (fails (OpBatchDelete k)).
        -- destruct (IH (logf log.Error "failed to batch evidence" p) b m) as [Hm Hs].
           split; [|rewrite Hs; reflexivity].
           eapply same_memory_trans; [apply same_memory_logf|exact Hm].
        -- apply IH.
      * split; [apply same_memory_refl|reflexivity].
    + destruct (IH (logf log.Error "failed to transition evidence from protobuf" p) b m)
        as [Hm Hs].
      split; [|rewrite Hs; reflexivity].
      eapply same_memory_trans; [apply same_memory_logf|exact Hm].
Qed.

Lemma batchExpiredPendingEvidence_frame (p : Pool) (b : list Key) :
  same_memory p (batchExpiredPendingEvidence p b).2
  /\ evidenceStore (batchExpiredPendingEvidence p b).2 = evidenceStore p.
Proof.
  unfold batchExpiredPendingEvidence, store_IteratePrefix.
  destruct (fails (OpIteratePrefix _)); simpl.
  - split; [apply same_memory_logf|reflexivity].
  - apply batchExpiredPendingEvidence_loop_frame.
Qed.

(** *** The size counter *)

Lemma markEvidenceAsCommitted_Size (evpool : Pool) (evidence : list Evidence)
    (height : Z) :
  fails OpBatchWriteSync = false ->
  size (markEvidenceAsCommitted_removed evpool evidence height) <> 0%nat ->
  Size (markEvidenceAsCommitted evpool evidence height) =
  atomic.AddUint32 (Size evpool)
    (uint32.not (uint32.wrap
       (Z.of_nat (size (markEvidenceAsCommitted_removed evpool evidence height)) - 1))).
Proof.
  intros Hw Hn. unfold markEvidenceAsCommitted, markEvidenceAsCommitted_removed in *.
  pose proof (markEvidenceAsCommitted_loop_frame height evidence evpool [] ∅) as Hf.
  destruct (fold_left _ evidence _) as [[p1 b1] m1]. simpl in *.
  destruct (Nat.eqb_spec (size m1) 0) as [Hz|_]; [contradiction|].
  unfold batch_WriteSync. rewrite Hw. unfold Size, atomic.LoadUint32. simpl.
  destruct Hf as (_ & Hsz & _). rewrite Hsz. reflexivity.
Qed.

Lemma removeExpiredPendingEvidence_Size (evpool : Pool) :
  fails OpBatchWriteSync = false ->
  size (batchExpiredPendingEvidence_removed evpool) <> 0%nat ->
  Size (removeExpiredPendingEvidence evpool).2 =
  atomic.AddUint32 (Size evpool)
    (uint32.not (uint32.wrap
       (Z.of_nat (size (batchExpiredPendingEvidence_removed evpool)) - 1))).
Proof.
  intros Hw Hn. unfold removeExpiredPendingEvidence, batchExpiredPendingEvidence_removed in *.
  destruct (batchExpiredPendingEvidence_frame evpool []) as [Hf _].
  destruct (batchExpiredPendingEvidence evpool []) as [[[[h t] m1] b1] p1]. simpl in *.
  destruct (Nat.eqb_spec (size m1) 0) as [Hz|_]; [contradiction|].
  unfold batch_WriteSync. rewrite Hw. unfold Size, atomic.LoadUint32. simpl.
  destruct Hf as (_ & Hsz & _). rewrite Hsz. reflexivity.
Qed.

(** C10. The decrement of the size counter by [n] items, an atomic add of
    the complement [^uint32(n-1)], is the subtraction of [n] modulo [2^32]
    for every [n >= 1]; when [n] exceeds the counter, the counter wraps
    around to [2^32 - (n - size)] and does not stop at zero. Both
    decrements of the pool, in [markEvidenceAsCommitted] and in
    [removeExpiredPendingEvidence], are this add. *)
Theorem size_decrement_wraps_around (sz n : Z) :
  1 <= n ->
  atomic.AddUint32 sz (uint32.not (uint32.wrap (n - 1))) = (sz - n) mod 2 ^ 32
  /\ (0 <= sz < n -> n < 2 ^ 32 ->
      atomic.AddUint32 sz (uint32.not (uint32.wrap (n - 1))) = 2 ^ 32 - (n - sz)
      /\ 0 < atomic.AddUint32 sz (uint32.not (uint32.wrap (n - 1))))
  /\ (forall evpool evidence height,
        fails OpBatchWriteSync = false -> Size evpool = sz ->
        Z.of_nat (size (markEvidenceAsCommitted_removed evpool evidence height)) = n ->
        Size (markEvidenceAsCommitted evpool evidence height) =
        atomic.AddUint32 sz (uint32.not (uint32.wrap (n - 1))))
  /\ (forall evpool,
        fails OpBatchWriteSync = false -> Size evpool = sz ->
        Z.of_nat (size (batchExpiredPendingEvidence_removed evpool)) = n ->
        Size (removeExpiredPendingEvidence evpool).2 =
        atomic.AddUint32 sz (uint32.not (uint32.wrap (n - 1)))).
Proof.
  intros Hn. rewrite AddUint32_decrement. split; [reflexivity|]. split; [|split].
  - intros Hsz Hle.
    assert (Heq : (sz - n) mod 2 ^ 32 = 2 ^ 32 - (n - sz)).
    { rewrite <- (Z_mod_plus_full (sz - n) 1 (2 ^ 32)).
      rewrite Z.mod_small; lia. }
    rewrite Heq. lia.
  - intros evpool evidence height Hw Hs Hm.
    rewrite markEvidenceAsCommitted_Size; [|exact Hw|lia].
    rewrite Hs, Hm. apply AddUint32_decrement.
  - intros evpool Hw Hs Hm.
    rewrite removeExpiredPendingEvidence_Size; [|exact Hw|lia].
    rewrite Hs, Hm. apply AddUint32_decrement.
Qed.

(** *** Keys *)

Lemma keyPending_neq_keyCommitted (a b : Evidence) : keyPending a <> keyCommitted b.
Proof. unfold keyPending, keyCommitted, Append. simpl. intros [=]. Qed.

Lemma keyPending_inj (a b : Evidence) :
  keyPending a = keyPending b <-> Height a = Height b /\ Hash a = Hash b.
Proof.
  unfold keyPending, Append. simpl. split.
  - intros [= Hh Hs]. auto.
  - intros [-> ->]. reflexivity.
Qed.

Lemma keyCommitted_inj (a b : Evidence) :
  keyCommitted a = keyCommitted b <-> keyPending a = keyPending b.
Proof.
  unfold keyPending, keyCommitted, Append. simpl. split; intros [= Hh Hs]; congruence.
Qed.

Lemma size_add_nonzero (x : string) (m : gset string) : size ({[x]} ∪ m) <> 0%nat.
Proof. intros Hz. apply size_empty_inv in Hz. set_solver. Qed.

(** *** Committing evidence *)

(** C6. With a store that performs its operations, after
    [markEvidenceAsCommitted([ev], h)] the evidence [ev] is not pending and
    is committed, and no evidence is both pending and committed if none
    was before. *)
Theorem markEvidenceAsCommitted_moves_to_committed (evpool : Pool) (ev : Evidence)
    (height : Z) :
  (forall op, fails op = false) ->
  (isPending (markEvidenceAsCommitted evpool [ev] height) ev).1 = false
  /\ (isCommitted (markEvidenceAsCommitted evpool [ev] height) ev).1 = true
  /\ (I1_disjoint evpool -> I1_disjoint (markEvidenceAsCommitted evpool [ev] height)).
Proof.
  intros Hok.
  assert (Hstore : evidenceStore (markEvidenceAsCommitted evpool [ev] height) =
    if dbm.has (keyPending ev) (evidenceStore evpool)
    then dbm.delete (keyPending ev)
           (dbm.set (keyCommitted ev) (tmproto.Int64ValueBytes height)
              (evidenceStore evpool))
    else dbm.set (keyCommitted ev) (tmproto.Int64ValueBytes height)
           (evidenceStore evpool)).
  { unfold markEvidenceAsCommitted. cbn [fold_left].
    unfold markEvidenceAsCommitted_step. rewrite isPending_eq.
    unfold batch_Delete, store_Set, batch_WriteSync. rewrite !Hok.
    destruct (dbm.has (keyPending ev) (evidenceStore evpool)); cbv beta iota zeta.
    - destruct (Nat.eqb_spec (size ({[evMapKey ev]} ∪ (∅ : gset string))) 0) as [Hz|_].
      + exfalso. exact (size_add_nonzero _ _ Hz).
      + pool_simpl. reflexivity.
    - rewrite size_empty. pool_simpl. reflexivity. }
  rewrite isPending_eq, isCommitted_eq, !Hok. cbn [fst]. rewrite Hstore.
  pose proof (keyPending_neq_keyCommitted ev ev) as Hne.
  split; [|split].
  - destruct (dbm.has (keyPending ev) (evidenceStore evpool)) eqn:Hp.
    + apply has_delete_eq.
    + rewrite has_set_ne by congruence. exact Hp.
  - destruct (dbm.has (keyPending ev) (evidenceStore evpool)) eqn:Hp.
    + rewrite has_delete_ne by exact Hne. apply has_set_eq.
    + apply has_set_eq.
  - intros HI1 e [Hpe Hce]. rewrite Hstore in Hpe, Hce.
    pose proof (keyPending_neq_keyCommitted e ev) as Hne1.
    pose proof (keyPending_neq_keyCommitted ev e) as Hne2.
    destruct (decide (keyPending ev = keyPending e)) as [Heq|Hdiff].
    + (* the committed item itself: it is not pending any more *)
      destruct (dbm.has (keyPending ev) (evidenceStore evpool)) eqn:Hp.
      * rewrite <- Heq, has_delete_eq in Hpe. discriminate.
      * rewrite has_set_ne in Hpe by congruence. congruence.
    + (* another item: both memberships are as before *)
      assert (Hdiff' : keyCommitted ev <> keyCommitted e).
      { intros Hc. apply keyCommitted_inj in Hc. contradiction. }
      apply (HI1 e).
      destruct (dbm.has (keyPending ev) (evidenceStore evpool)) eqn:Hp.
      * rewrite has_delete_ne in Hpe, Hce by congruence.
        rewrite has_set_ne in Hpe, Hce by congruence. auto.
      * rewrite has_set_ne in Hpe, Hce by congruence. auto.
Qed.

(** *** Adding evidence *)

(** [AddEvidence] by cases, when the store answers the membership tests. *)
Lemma AddEvidence_eq (evpool : Pool) (ev : Evidence) :
  (forall key, fails (OpHas key) = false) ->
  AddEvidence evpool ev =
  let evpool := logf log.Debug "attempting to add evidence" evpool in
  if dbm.has (keyPending ev) (evidenceStore evpool)
  then (None, logf log.Debug "evidence already pending; ignoring" evpool)
  else if dbm.has (keyCommitted ev) (evidenceStore evpool)
  then (None, logf log.Debug "evidence was already committed; ignoring" evpool)
  else
    match verify evpool ev with
    | Some err => (Some err, evpool)
    | None =>
        if fails (OpSet (keyPending ev))
        then (Some (fmt_Errorf "failed to add evidence to pending list: %w"
                      (fmt_Errorf "failed to persist evidence: %w"
                         (ErrStore (OpSet (keyPending ev))))), evpool)
        else
          (None,
           logf log.Info "verified new evidence of byzantine behavior"
             (PushBack ev
                (with_evidenceSize (atomic.AddUint32 (evidenceSize evpool) 1)
                   (with_evidenceStore
                      (dbm.set (keyPending ev) (tmproto.EvidenceBytes ev)
                         (evidenceStore evpool)) evpool))))
    end.
Proof.
  intros Hok. unfold AddEvidence. cbv zeta.
  rewrite isPending_eq, Hok.
  destruct (dbm.has (keyPending ev) _); [reflexivity|].
  rewrite isCommitted_eq, Hok.
  destruct (dbm.has (keyCommitted ev) _); [reflexivity|].
  destruct (verify _ ev); [reflexivity|].
  unfold addPendingEvidence, store_Set.
  destruct (fails (OpSet _)); reflexivity.
Qed.

(** A second [AddEvidence] of the same item, when the store answers the
    membership tests: the size counter, the store and the broadcast list
    stay as the first call left them; the second call returns no error
    whenever the first did not; and an item that is pending or committed
    is ignored without error. *)
Lemma AddEvidence_again (evpool : Pool) (ev : Evidence) :
  (forall key, fails (OpHas key) = false) ->
  Size (AddEvidence (AddEvidence evpool ev).2 ev).2 = Size (AddEvidence evpool ev).2
  /\ evidenceStore (AddEvidence (AddEvidence evpool ev).2 ev).2
     = evidenceStore (AddEvidence evpool ev).2
  /\ evidenceList (AddEvidence (AddEvidence evpool ev).2 ev).2
     = evidenceList (AddEvidence evpool ev).2
  /\ ((AddEvidence evpool ev).1 = None ->
      (AddEvidence (AddEvidence evpool ev).2 ev).1 = None)
  /\ (dbm.has (keyPending ev) (evidenceStore evpool) = true
      \/ dbm.has (keyCommitted ev) (evidenceStore evpool) = true ->
      (AddEvidence evpool ev).1 = None
      /\ Size (AddEvidence evpool ev).2 = Size evpool
      /\ evidenceStore (AddEvidence evpool ev).2 = evidenceStore evpool
      /\ evidenceList (AddEvidence evpool ev).2 = evidenceList evpool).
Proof.
  intros Hok. rewrite (AddEvidence_eq (AddEvidence evpool ev).2) by exact Hok.
  rewrite (AddEvidence_eq evpool) by exact Hok. cbv zeta. unfold Size, atomic.LoadUint32.
  pose proof (keyPending_neq_keyCommitted ev ev) as Hne.
  pool_simpl.
  destruct (dbm.has (keyPending ev) (evidenceStore evpool)) eqn:Hp.
  { pool_simpl. rewrite Hp. pool_simpl. intuition auto. }
  destruct (dbm.has (keyCommitted ev) (evidenceStore evpool)) eqn:Hc.
  { pool_simpl. rewrite Hp, Hc. pool_simpl. intuition auto. }
  unfold verify. pool_simpl.
  destruct (verify_ (state evpool) (stateDB evpool) (blockStore evpool) ev) eqn:Hv.
  { pool_simpl. rewrite ?Hp, ?Hc. unfold verify. pool_simpl. rewrite ?Hv. pool_simpl.
    intuition (auto; discriminate). }
  destruct (fails (OpSet (keyPending ev))) eqn:Hs.
  { pool_simpl. rewrite ?Hp, ?Hc. unfold verify. pool_simpl. rewrite ?Hv, ?Hs.
    pool_simpl. intuition (auto; discriminate). }
  pool_simpl. rewrite has_set_eq. pool_simpl.
  intuition (auto; discriminate).
Qed.

(** *** Checking the evidence of a block *)

Lemma isPending_frame (p : Pool) (ev : Evidence) :
  same_memory p (isPending p ev).2
  /\ evidenceStore (isPending p ev).2 = evidenceStore p.
Proof.
  rewrite isPending_eq. destruct (fails _); pool_simpl;
    (split; [first [apply same_memory_logf | apply same_memory_refl]|reflexivity]).
Qed.

Lemma isCommitted_frame (p : Pool) (ev : Evidence) :
  same_memory p (isCommitted p ev).2
  /\ evidenceStore (isCommitted p ev).2 = evidenceStore p.
Proof.
  rewrite isCommitted_eq. destruct (fails _); pool_simpl;
    (split; [first [apply same_memory_logf | apply same_memory_refl]|reflexivity]).
Qed.

Lemma fastCheck_frame (p : Pool) (ev : Evidence) :
  same_memory p (fastCheck p ev).2
  /\ evidenceStore (fastCheck p ev).2 = evidenceStore p.
Proof.
  unfold fastCheck. destruct ev as [a b t vs|blk h vs t].
  - apply isPending_frame.
  - destruct (store_Get _ _) as [[bz|] [err|]]; pool_simpl;
      try (split; [first [apply same_memory_logf | apply same_memory_refl]|reflexivity]).
    destruct (tmproto.UnmarshalLightClientAttackEvidence bz) as [tr|]; pool_simpl;
      try (split; [first [apply same_memory_logf | apply same_memory_refl]|reflexivity]).
    destruct (_ && _); [|destruct (negb _)]; pool_simpl;
      (split; [apply same_memory_refl|reflexivity]).
Qed.

(** An item that is not in the pending set does not pass the fast check. *)
Lemma fastCheck_not_pending (p : Pool) (ev : Evidence) :
  dbm.has (keyPending ev) (evidenceStore p) = false -> (fastCheck p ev).1 = false.
Proof.
  intros Hp. unfold fastCheck. destruct ev as [a b t vs|blk h vs t].
  - rewrite isPending_eq. destruct (fails _); pool_simpl; auto.
  - unfold store_Get. unfold dbm.has in Hp.
    destruct (fails _); pool_simpl; auto.
    destruct (dbm.get _ _); [discriminate|reflexivity].
Qed.

(** The size counter after [k] additions. *)
Lemma AddUint32_iter (k : nat) (sz : Z) :
  Nat.iter (S k) (fun s => atomic.AddUint32 s 1) sz = uint32.wrap (sz + Z.of_nat (S k)).
Proof.
  induction k as [|k IH].
  - reflexivity.
  - rewrite Nat.iter_succ, IH. unfold atomic.AddUint32, uint32.wrap, uint32.modulus.
    rewrite Zplus_mod_idemp_l. f_equal. lia.
Qed.

(** One run of the loop of [CheckEvidence]: entries of the store stay, the
    size counter takes at most one addition per item, and a run without
    error saw pairwise distinct hashes, none of them seen before. *)
Lemma CheckEvidence_loop_spec (evList : list Evidence) (evpool : Pool)
    (hashes : list string) :
  (forall key, dbm.has key (evidenceStore evpool) = true ->
     dbm.has key (evidenceStore (CheckEvidence_loop evpool hashes evList).2) = true)
  /\ (exists k : nat, (k <= length evList)%nat
       /\ evidenceSize (CheckEvidence_loop evpool hashes evList).2
          = Nat.iter k (fun s => atomic.AddUint32 s 1) (evidenceSize evpool))
  /\ ((CheckEvidence_loop evpool hashes evList).1 = None ->
      NoDup (map Hash evList) /\ forall h, h ∈ map Hash evList -> h ∉ hashes).
Proof.
  revert evpool hashes. induction evList as [|ev evList IH]; intros evpool hashes.
  { simpl. repeat split; auto.
    - exists 0%nat. auto.
    - constructor.
    - intros h Hh. inversion Hh. }
  cbn [CheckEvidence_loop].
  destruct (fastCheck_frame evpool ev) as [Hm1 Hs1].
  destruct (fastCheck evpool ev) as [ok p1]. cbn [fst snd] in Hm1, Hs1.
  destruct (isCommitted_frame p1 ev) as [Hm2 Hs2].
  (* the pool after the item has been checked, when the loop goes on *)
  assert (Hnext : forall p2,
    (forall key, dbm.has key (evidenceStore evpool) = true ->
       dbm.has key (evidenceStore p2) = true) ->
    (exists k : nat, (k <= 1)%nat
       /\ evidenceSize p2 = Nat.iter k (fun s => atomic.AddUint32 s 1) (evidenceSize evpool)) ->
    let r := (if bool_decide (Hash ev ∈ hashes)
              then (Some (ErrInvalidEvidence ev (errors_New "duplicate evidence")), p2)
              else CheckEvidence_loop p2 (hashes ++ [Hash ev]) evList) in
    (forall key, dbm.has key (evidenceStore evpool) = true ->
       dbm.has key (evidenceStore r.2) = true)
    /\ (exists k : nat, (k <= length (ev :: evList))%nat
         /\ evidenceSize r.2 = Nat.iter k (fun s => atomic.AddUint32 s 1) (evidenceSize evpool))
    /\ (r.1 = None ->
        NoDup (map Hash (ev :: evList))
        /\ forall h, h ∈ map Hash (ev :: evList) -> h ∉ hashes)).
  { intros p2 Hkeys [k1 [Hk1 Hsz1]] r. subst r.
    destruct (bool_decide_reflect (Hash ev ∈ hashes)) as [Hin|Hnin]; cbn [fst snd].
    - split; [exact Hkeys|]. split; [|discriminate].
      exists k1. split; [simpl; lia|exact Hsz1].
    - destruct (IH p2 (hashes ++ [Hash ev])) as (Hk & [k2 [Hk2 Hsz2]] & Hnd).
      split; [intros key Hkey; apply Hk, Hkeys, Hkey|]. split.
      + exists (k2 + k1)%nat. split; [simpl; lia|].
        rewrite Hsz2, Hsz1. symmetry. apply Nat.iter_add.
      + intros Hnone. destruct (Hnd Hnone) as [Hnodup Hfresh].
        cbn [map]. split.
        * constructor; [|exact Hnodup].
          intros Hdup. apply (Hfresh _ Hdup). apply elem_of_app. right.
          apply list_elem_of_singleton. reflexivity.
        * intros h Hh. apply elem_of_cons in Hh as [->|Hh]; [exact Hnin|].
          intros Hin. apply (Hfresh _ Hh). apply elem_of_app. left. exact Hin. }
  destruct ok.
  { apply Hnext.
    - intros key Hkey. rewrite Hs1. exact Hkey.
    - exists 0%nat. split; [lia|]. simpl. apply Hm1. }
  destruct (isCommitted p1 ev) as [committed p2]. cbn [fst snd] in Hm2, Hs2.
  destruct committed.
  { cbn [fst snd]. split; [|split].
    - intros key Hkey. rewrite Hs2, Hs1. exact Hkey.
    - exists 0%nat. split; [simpl; lia|]. simpl.
      destruct (same_memory_trans _ _ _ Hm1 Hm2) as (_ & Hsz & _). exact Hsz.
    - discriminate. }
  destruct (verify p2 ev) as [err|].
  { cbn [fst snd]. split; [|split].
    - intros key Hkey. rewrite Hs2, Hs1. exact Hkey.
    - exists 0%nat. split; [simpl; lia|]. simpl.
      destruct (same_memory_trans _ _ _ Hm1 Hm2) as (_ & Hsz & _). exact Hsz.
    - discriminate. }
  unfold addPendingEvidence, store_Set.
  destruct (fails (OpSet (keyPending ev))).
  - apply Hnext; pool_simpl.
    + intros key Hkey. rewrite Hs2, Hs1. exact Hkey.
    + exists 0%nat. split; [lia|]. simpl.
      destruct (same_memory_trans _ _ _ Hm1 Hm2) as (_ & Hsz & _). exact Hsz.
  - apply Hnext; pool_simpl.
    + intros key Hkey. rewrite Hs2, Hs1.
      destruct (decide (keyPending ev = key)) as [<-|Hne].
      * apply has_set_eq.
      * rewrite has_set_ne by exact Hne. exact Hkey.
    + exists 1%nat. split; [lia|]. simpl.
      destruct (same_memory_trans _ _ _ Hm1 Hm2) as (_ & Hsz & _).
      rewrite Hsz. reflexivity.
Qed.

(** C9. [CheckEvidence] is not atomic on rejection: when the first item of
    the list is valid and neither pending nor committed, its write to the
    store succeeds, and two items of the list have the same hash,
    [CheckEvidence] returns an error, and yet the first item is in the
    pending set afterwards and the size counter has been incremented. *)
Theorem CheckEvidence_rejection_keeps_added_evidence (evpool : Pool) (ev : Evidence)
    (evList : list Evidence) :
  dbm.has (keyPending ev) (evidenceStore evpool) = false ->
  dbm.has (keyCommitted ev) (evidenceStore evpool) = false ->
  verify evpool ev = None ->
  fails (OpSet (keyPending ev)) = false ->
  ~ NoDup (map Hash (ev :: evList)) ->
  (exists err, (CheckEvidence evpool (ev :: evList)).1 = Some err)
  /\ dbm.has (keyPending ev) (evidenceStore (CheckEvidence evpool (ev :: evList)).2) = true
  /\ (exists k : nat, (1 <= k <= length (ev :: evList))%nat
       /\ Size (CheckEvidence evpool (ev :: evList)).2
          = uint32.wrap (Size evpool + Z.of_nat k)).
Proof.
  intros Hp Hc Hv Hset Hdup.
  destruct (CheckEvidence_loop_spec (ev :: evList) evpool []) as (_ & _ & Hnd).
  split.
  { unfold CheckEvidence. destruct (CheckEvidence_loop evpool [] (ev :: evList)).1 as [err|].
    - exists err. reflexivity.
    - exfalso. apply Hdup. apply Hnd. reflexivity. }
  clear Hnd. unfold CheckEvidence. cbn [CheckEvidence_loop].
  pose proof (fastCheck_not_pending evpool ev Hp) as Hfc.
  destruct (fastCheck_frame evpool ev) as [Hm1 Hs1].
  destruct (fastCheck evpool ev) as [ok p1]. cbn [fst snd] in Hm1, Hs1, Hfc. subst ok.
  destruct (isCommitted_frame p1 ev) as [Hm2 Hs2].
  rewrite isCommitted_eq in *.
  assert (Hv2 : forall q, same_memory p1 q -> verify q ev = None).
  { intros q Hq. unfold verify in *.
    destruct (same_memory_trans _ _ _ Hm1 Hq) as (_ & _ & Hst & _ & _ & _ & Hdb & Hbs).
    rewrite Hst, Hdb, Hbs. exact Hv. }
  rewrite Hs1, Hc in *.
  assert (Hgo : forall p2, same_memory p1 p2 -> evidenceStore p2 = evidenceStore evpool ->
    let r := match
        (let '(committed, evpool0) := (false, p2) in
         if committed
         then inl (ErrInvalidEvidence ev (errors_New "evidence was already committed"),
                   evpool0)
         else
           match verify evpool0 ev with
           | Some err => inl (err, evpool0)
           | None =>
               let '(err, evpool1) := addPendingEvidence evpool0 ev in
               inr (logf log.Info "verified new evidence of byzantine behavior"
                      match err with
                      | Some _ =>
                          logf log.Error "failed to add evidence to pending list" evpool1
                      | None => evpool1
                      end)
           end) : error * Pool + Pool
      with
      | inl (err, evpool0) => (Some err, evpool0)
      | inr evpool0 =>
          if bool_decide (Hash ev ∈ @nil string)
          then (Some (ErrInvalidEvidence ev (errors_New "duplicate evidence")), evpool0)
          else CheckEvidence_loop evpool0 ([] ++ [Hash ev]) evList
      end in
    dbm.has (keyPending ev) (evidenceStore r.2) = true
    /\ (exists k : nat, (1 <= k <= length (ev :: evList))%nat
         /\ Size r.2 = uint32.wrap (Size evpool + Z.of_nat k))).
  { intros p2 Hm Hs r. subst r. cbv beta iota zeta.
    rewrite (Hv2 p2 Hm). unfold addPendingEvidence, store_Set. rewrite Hset.
    cbv beta iota zeta.
    rewrite bool_decide_eq_false_2 by (intros Hin; inversion Hin).
    match goal with |- context [CheckEvidence_loop ?q ?hs evList] =>
      destruct (CheckEvidence_loop_spec evList q hs) as (Hk & [k [Hkle Hsz]] & _);
      set (r := CheckEvidence_loop q hs evList) in *
    end.
    pool_simpl. split.
    - apply Hk. apply has_set_eq.
    - exists (S k). split; [simpl; lia|].
      unfold Size, atomic.LoadUint32. rewrite Hsz.
      destruct Hm1 as (_ & Hsz1 & _). destruct Hm as (_ & Hsz2 & _).
      rewrite Hsz2, Hsz1. etransitivity; [|apply AddUint32_iter].
      symmetry.
      exact (Nat.iter_succ_r k (fun s => atomic.AddUint32 s 1) (evidenceSize evpool)). }
  destruct (fails (OpHas (keyCommitted ev))).
  - apply Hgo; [apply same_memory_logf|pool_simpl; exact Hs1].
  - apply Hgo; [apply same_memory_refl|exact Hs1].
Qed.

(** *** What the reconciliation steps leave alone *)

Lemma same_memory_config (p q : Pool) : same_memory p q -> same_config p q.
Proof. unfold same_memory, same_config. tauto. Qed.

Lemma same_config_refl (p : Pool) : same_config p p.
Proof. unfold same_config. tauto. Qed.

Lemma same_config_trans (p q r : Pool) :
  same_config p q -> same_config q r -> same_config p r.
Proof. unfold same_config. intuition congruence. Qed.

Lemma markEvidenceAsCommitted_config (evpool : Pool) (evidence : list Evidence)
    (height : Z) :
  same_config evpool (markEvidenceAsCommitted evpool evidence height).
Proof.
  unfold markEvidenceAsCommitted.
  pose proof (markEvidenceAsCommitted_loop_frame height evidence evpool [] ∅) as Hf.
  destruct (fold_left _ evidence _) as [[p1 b1] m1]. cbn [fst snd] in Hf.
  apply same_memory_config in Hf.
  destruct (Nat.eqb _ 0); [exact Hf|].
  unfold batch_WriteSync. destruct (fails OpBatchWriteSync).
  - eapply same_config_trans; [exact Hf|]. apply same_memory_config, same_memory_logf.
  - eapply same_config_trans; [exact Hf|]. unfold same_config. pool_simpl. tauto.
Qed.

Lemma removeExpiredPendingEvidence_config (evpool : Pool) :
  same_config evpool (removeExpiredPendingEvidence evpool).2.
Proof.
  unfold removeExpiredPendingEvidence.
  destruct (batchExpiredPendingEvidence_frame evpool []) as [Hf _].
  destruct (batchExpiredPendingEvidence evpool []) as [[[[h t] m1] b1] p1].
  cbn [fst snd] in Hf. apply same_memory_config in Hf.
  destruct (Nat.eqb _ 0); [exact Hf|].
  unfold batch_WriteSync. destruct (fails OpBatchWriteSync); cbn [snd].
  - eapply same_config_trans; [exact Hf|]. unfold same_config. pool_simpl. tauto.
  - eapply same_config_trans; [exact Hf|]. unfold same_config. pool_simpl. tauto.
Qed.

(** *** The consensus buffer *)

Lemma formDuplicateVoteEvidence_Some (evpool evpool' : Pool) (st : sm.State)
    (voteSet : duplicateVoteSet) (dve : Evidence) :
  formDuplicateVoteEvidence evpool st voteSet = (Some dve, evpool') -> evpool' = evpool.
Proof.
  unfold formDuplicateVoteEvidence.
  destruct (_ =? _); [intros [= _ <-]; reflexivity|].
  destruct (_ <? _); [|discriminate].
  destruct (sm.LoadValidators _ _); [|discriminate].
  destruct (LoadBlockMeta _ _); [|discriminate].
  intros [= _ <-]. reflexivity.
Qed.

(** A pair whose evidence is already pending or committed is skipped. *)
Lemma processConsensusBuffer_step_seen (evpool : Pool) (st : sm.State)
    (voteSet : duplicateVoteSet) (dve : Evidence) :
  formDuplicateVoteEvidence evpool st voteSet = (Some dve, evpool) ->
  fails (OpHas (keyPending dve)) = false ->
  fails (OpHas (keyCommitted dve)) = false ->
  dbm.has (keyPending dve) (evidenceStore evpool) = true
  \/ dbm.has (keyCommitted dve) (evidenceStore evpool) = true ->
  same_memory evpool (processConsensusBuffer_step st evpool voteSet)
  /\ evidenceStore (processConsensusBuffer_step st evpool voteSet) = evidenceStore evpool.
Proof.
  intros Hform Hf1 Hf2 Hseen. unfold processConsensusBuffer_step. rewrite Hform.
  rewrite isPending_eq, Hf1.
  destruct (dbm.has (keyPending dve) (evidenceStore evpool)) eqn:Hp.
  - split; [apply same_memory_logf|reflexivity].
  - rewrite isCommitted_eq, Hf2.
    destruct Hseen as [Hs|Hs]; [discriminate|]. rewrite Hs.
    split; [apply same_memory_logf|reflexivity].
Qed.

(** A pair whose evidence is new is written to the pending set, counted and
    pushed to the broadcast list. *)
Lemma processConsensusBuffer_step_new (evpool : Pool) (st : sm.State)
    (voteSet : duplicateVoteSet) (dve : Evidence) :
  formDuplicateVoteEvidence evpool st voteSet = (Some dve, evpool) ->
  fails (OpSet (keyPending dve)) = false ->
  dbm.has (keyPending dve) (evidenceStore evpool) = false ->
  dbm.has (keyCommitted dve) (evidenceStore evpool) = false ->
  evidenceStore (processConsensusBuffer_step st evpool voteSet)
  = dbm.set (keyPending dve) (tmproto.EvidenceBytes dve) (evidenceStore evpool)
  /\ evidenceList (processConsensusBuffer_step st evpool voteSet)
     = evidenceList evpool ++ [dve]
  /\ evidenceSize (processConsensusBuffer_step st evpool voteSet)
     = atomic.AddUint32 (evidenceSize evpool) 1.
Proof.
  intros Hform Hset Hp Hc. unfold processConsensusBuffer_step. rewrite Hform.
  rewrite isPending_eq. destruct (fails (OpHas (keyPending dve))); pool_simpl;
    rewrite ?Hp; rewrite isCommitted_eq;
    destruct (fails (OpHas (keyCommitted dve))); pool_simpl; rewrite ?Hc;
    unfold addPendingEvidence, store_Set; rewrite Hset; pool_simpl; auto.
Qed.

Lemma processConsensusBuffer_buffer (evpool : Pool) (st : sm.State) :
  consensusBuffer (processConsensusBuffer evpool st) = [].
Proof. unfold processConsensusBuffer. reflexivity. Qed.


(** *** Listing pending evidence *)

Lemma EvidenceList_Size_app (l : list tmproto.EvidencePb) (evpb : tmproto.EvidencePb) :
  EvidenceList_Size (l ++ [evpb]) = EvidenceList_Size l + ProtoSize evpb.
Proof.
  unfold EvidenceList_Size. induction l as [|x l IH]; simpl; [lia|].
  rewrite IH. lia.
Qed.

Lemma aggregateSize_cons (ev : Evidence) (evs : list Evidence) :
  aggregateSize (ev :: evs) = ProtoSize (tmproto.PbOf ev) + aggregateSize evs.
Proof. reflexivity. Qed.


(** The loop of [listEvidence] on entries that decode to [evs]. *)
Lemma listEvidence_loop_fitting (maxBytes : Z) (iterErr : option error)
    (evs : list Evidence) (entries : list (Key * tmproto.Bytes))
    (evList : list tmproto.EvidencePb) (evidence : list Evidence) :
  map snd entries = map tmproto.EvidenceBytes evs ->
  listEvidence_loop maxBytes iterErr entries evList (EvidenceList_Size evList) evidence
  = (evidence ++ fitting_prefix maxBytes (EvidenceList_Size evList) evs,
     EvidenceList_Size evList
       + aggregateSize (fitting_prefix maxBytes (EvidenceList_Size evList) evs),
     iterErr).
Proof.
  revert entries evList evidence.
  induction evs as [|ev evs IH]; intros [|[k v] entries] evList evidence Hmap;
    try discriminate.
  - simpl. rewrite app_nil_r. unfold aggregateSize. simpl. rewrite Z.add_0_r.
    reflexivity.
  - injection Hmap as Hv Hmap. cbn [snd] in Hv. subst v.
    cbn [listEvidence_loop fitting_prefix tmproto.Unmarshal tmproto.EvidenceFromProto].
    cbv zeta. rewrite EvidenceList_Size_app.
    destruct (negb (maxBytes =? -1) && (maxBytes <? _)).
    + rewrite app_nil_r. unfold aggregateSize. simpl. rewrite Z.add_0_r. reflexivity.
    + rewrite <- EvidenceList_Size_app. rewrite (IH entries _ _ Hmap).
      rewrite <- app_assoc. cbn [app]. rewrite aggregateSize_cons.
      rewrite EvidenceList_Size_app. rewrite Z.add_assoc. reflexivity.
Qed.

Lemma fitting_prefix_prefix (maxBytes used : Z) (evs : list Evidence) :
  fitting_prefix maxBytes used evs `prefix_of` evs.
Proof.
  revert used. induction evs as [|ev evs IH]; intros used; simpl.
  - reflexivity.
  - destruct (_ && _); [apply prefix_nil|]. apply prefix_cons, IH.
Qed.




(** The writers keep the store in key order. *)
Lemma addPendingEvidence_ascending (evpool : Pool) (ev : Evidence) :
  dbm.ascending (evidenceStore evpool) ->
  dbm.ascending (evidenceStore (addPendingEvidence evpool ev).2).
Proof.
  intros Hasc. unfold addPendingEvidence, store_Set.
  destruct (fails _); pool_simpl; [exact Hasc|]. apply set_ascending, Hasc.
Qed.

Lemma markEvidenceAsCommitted_ascending (evpool : Pool) (evidence : list Evidence)
    (height : Z) :
  dbm.ascending (evidenceStore evpool) ->
  dbm.ascending (evidenceStore (markEvidenceAsCommitted evpool evidence height)).
Proof.
  intros Hasc. unfold markEvidenceAsCommitted.
  assert (Hloop : forall evs p b m, dbm.ascending (evidenceStore p) ->
    dbm.ascending
      (evidenceStore (fold_left (markEvidenceAsCommitted_step height) evs (p, b, m)).1.1)).
  { induction evs as [|ev evs IH]; intros p b m Hp; cbn [fold_left]; [exact Hp|].
    assert (Hstep : dbm.ascending
      (evidenceStore (markEvidenceAsCommitted_step height (p, b, m) ev).1.1)).
    { unfold markEvidenceAsCommitted_step, isPending, store_Has, batch_Delete, store_Set.
      repeat (match goal with |- context [if ?c then _ else _] => destruct c end;
              cbv beta iota zeta; pool_simpl);
        first [exact Hp | apply set_ascending, Hp]. }
    destruct (markEvidenceAsCommitted_step height (p, b, m) ev) as [[p1 b1] m1].
    apply IH, Hstep. }
  specialize (Hloop evidence evpool [] ∅ Hasc).
  destruct (fold_left _ evidence _) as [[p1 b1] m1]. cbn [fst snd] in Hloop.
  destruct (Nat.eqb _ 0); [exact Hloop|].
  unfold batch_WriteSync. destruct (fails _); pool_simpl; [exact Hloop|].
  apply write_ascending, Hloop.
Qed.

Lemma removeExpiredPendingEvidence_ascending (evpool : Pool) :
  dbm.ascending (evidenceStore evpool) ->
  dbm.ascending (evidenceStore (removeExpiredPendingEvidence evpool).2).
Proof.
  intros Hasc. unfold removeExpiredPendingEvidence.
  destruct (batchExpiredPendingEvidence_frame evpool []) as [_ Hst].
  destruct (batchExpiredPendingEvidence evpool []) as [[[[h t] m1] b1] p1].
  cbn [fst snd] in Hst. rewrite <- Hst in Hasc.
  destruct (Nat.eqb _ 0); cbn [snd]; [exact Hasc|].
  unfold batch_WriteSync. destruct (fails _); pool_simpl; [exact Hasc|].
  apply write_ascending, Hasc.
Qed.


(** *** Store errors during reconciliation *)

Lemma IteratePrefix_set_other {V : Type} (db : list (Key * V)) (k p : Key) (v : V) :
  ~ p `prefix_of` k ->
  dbm.IteratePrefix (dbm.set k v db) p = dbm.IteratePrefix db p.
Proof.
  intros Hk. unfold dbm.IteratePrefix.
  induction db as [|[k0 v0] db IH]; simpl.
  - rewrite filter_cons. simpl. rewrite decide_False by exact Hk. reflexivity.
  - destruct (compare k k0) eqn:Hc.
    + apply compare_eq in Hc. subst k0.
      rewrite !filter_cons. simpl. rewrite !decide_False by exact Hk. reflexivity.
    + rewrite (filter_cons _ (k, v)). simpl. rewrite decide_False by exact Hk.
      reflexivity.
    + rewrite !filter_cons. simpl. rewrite IH. reflexivity.
Qed.

Lemma keyCommitted_not_pending_prefix (ev : Evidence) :
  ~ [Int64 prefixPending] `prefix_of` keyCommitted ev.
Proof. intros [rest Hr]. unfold keyCommitted, Append in Hr. simpl in Hr. discriminate. Qed.

Lemma markEvidenceAsCommitted_step_pending (height : Z) (p : Pool) (b : list Key)
    (m : gset string) (ev : Evidence) :
  pendingEntries (markEvidenceAsCommitted_step height (p, b, m) ev).1.1
  = pendingEntries p.
Proof.
  unfold markEvidenceAsCommitted_step, pendingEntries. rewrite isPending_eq.
  unfold batch_Delete, store_Set.
  destruct (fails (OpHas _)); cbv beta iota zeta;
    [|destruct (dbm.has _ _); cbv beta iota zeta;
      [destruct (fails (OpBatchDelete _)); cbv beta iota zeta|]];
    destruct (fails (OpSet _)); cbv beta iota zeta; pool_simpl;
    rewrite ?IteratePrefix_set_other by apply keyCommitted_not_pending_prefix;
    reflexivity.
Qed.

Lemma markEvidenceAsCommitted_loop_pending (height : Z) (evidence : list Evidence)
    (p : Pool) (b : list Key) (m : gset string) :
  pendingEntries (fold_left (markEvidenceAsCommitted_step height) evidence (p, b, m)).1.1
  = pendingEntries p.
Proof.
  revert p b m. induction evidence as [|ev evidence IH]; intros p b m; cbn [fold_left].
  - reflexivity.
  - pose proof (markEvidenceAsCommitted_step_pending height p b m ev) as Hs.
    destruct (markEvidenceAsCommitted_step height (p, b, m) ev) as [[p1 b1] m1].
    rewrite IH. exact Hs.
Qed.


(** *** Expiry pruning in [Update] *)

Lemma Update_eq (evpool : Pool) (st : sm.State) (ev : list Evidence) :
  Update evpool st ev =
  if sm.LastBlockHeight st <=? sm.LastBlockHeight (state evpool) then
    Panic
      "failed EvidencePool.Update new state height is less than or equal to previous state height"
  else
    let evpool := Update_reconciled evpool st ev in
    if (0 <? Size evpool) && (pruningHeight evpool <? sm.LastBlockHeight st)
       && time.After (sm.LastBlockTime st) (pruningTime evpool)
    then
      let '(height, time_, evpool) := removeExpiredPendingEvidence evpool in
      Returns (with_pruning height time_ evpool)
    else Returns evpool.
Proof. reflexivity. Qed.

Lemma processConsensusBuffer_step_config (st : sm.State) (evpool : Pool)
    (voteSet : duplicateVoteSet) :
  same_config evpool (processConsensusBuffer_step st evpool voteSet).
Proof.
  unfold processConsensusBuffer_step.
  destruct (formDuplicateVoteEvidence evpool st voteSet) as [[dve|] p1] eqn:Hform.
  - apply formDuplicateVoteEvidence_Some in Hform. subst p1.
    unfold isPending, isCommitted, store_Has, addPendingEvidence, store_Set.
    repeat (match goal with |- context [if ?c then _ else _] => destruct c end;
            cbv beta iota zeta; pool_simpl);
      unfold same_config; pool_simpl; tauto.
  - unfold formDuplicateVoteEvidence in Hform.
    repeat (match type of Hform with context [if ?c then _ else _] => destruct c end);
      try discriminate;
      repeat (match type of Hform with context [match ?c with _ => _ end] =>
                destruct c end);
      try discriminate; injection Hform as <-;
      first [apply same_memory_config, same_memory_logf | apply same_config_refl].
Qed.

Lemma Update_reconciled_config (evpool : Pool) (st : sm.State) (ev : list Evidence) :
  state (Update_reconciled evpool st ev) = st
  /\ pruningHeight (Update_reconciled evpool st ev) = pruningHeight evpool
  /\ pruningTime (Update_reconciled evpool st ev) = pruningTime evpool.
Proof.
  unfold Update_reconciled.
  match goal with |- context [markEvidenceAsCommitted ?q ev ?h] =>
    destruct (markEvidenceAsCommitted_config q ev h) as (Hst & _ & Hph & Hpt & _)
  end.
  rewrite Hst, Hph, Hpt. unfold processConsensusBuffer. pool_simpl.
  split; [reflexivity|].
  assert (Hfold : forall buf p,
    same_config p (fold_left (processConsensusBuffer_step st) buf p)).
  { induction buf as [|vs buf IH]; intros p; cbn [fold_left].
    - apply same_config_refl.
    - eapply same_config_trans; [apply processConsensusBuffer_step_config|apply IH]. }
  match goal with |- context [fold_left _ ?buf ?p] =>
    destruct (Hfold buf p) as (_ & _ & Hh & Ht & _)
  end.
  rewrite Hh, Ht. pool_simpl. auto.
Qed.

(** The scan of [batchExpiredPendingEvidence] only adds to the batch and to
    the set of hashes. *)
Lemma batchExpiredPendingEvidence_loop_mono (entries : list (Key * tmproto.Bytes))
    (p : Pool) (b : list Key) (m : gset string) :
  (forall k, k ∈ b -> k ∈ (batchExpiredPendingEvidence_loop p entries b m).1.2)
  /\ m ⊆ (batchExpiredPendingEvidence_loop p entries b m).1.1.2.
Proof.
  revert p b m. induction entries as [|[k v] entries IH]; intros p b m;
    cbn [batchExpiredPendingEvidence_loop].
  - cbn [fst snd]. auto.
  - destruct (bytesToEv v) as [ev|]; [|apply IH].
    destruct (negb _); [cbn [fst snd]; auto|].
    unfold batch_Delete. destruct (fails _); [apply IH|].
    destruct (IH p (b ++ [k]) ({[evMapKey ev]} ∪ m)) as [Hb Hm]. split.
    + intros k0 Hk0. apply Hb. apply elem_of_app. auto.
    + intros x Hx. apply Hm. apply elem_of_union. right. exact Hx.
Qed.

(** Over a run of expired entries, the scan puts every key in the batch. *)
Lemma batchExpiredPendingEvidence_loop_expired
    (pre rest : list (Key * tmproto.Bytes)) (p : Pool) (b : list Key)
    (m : gset string) :
  (forall op, fails op = false) ->
  Forall (fun kv => exists e, kv.2 = tmproto.EvidenceBytes e
                      /\ isExpired p (Height e) (Time e) = true) pre ->
  exists m', m ⊆ m'
    /\ (forall kv e, kv ∈ pre -> kv.2 = tmproto.EvidenceBytes e -> Hash e ∈ m')
    /\ batchExpiredPendingEvidence_loop p (pre ++ rest) b m
       = batchExpiredPendingEvidence_loop p rest (b ++ map fst pre) m'.
Proof.
  intros Hok Hpre. revert b m. induction Hpre as [|[k v] pre (e & Hv & He) Hpre IH];
    intros b m.
  - exists m. rewrite app_nil_r. split; [set_solver|]. split; [|reflexivity].
    intros kv e Hin. inversion Hin.
  - cbn [fst snd] in Hv. subst v. cbn [app batchExpiredPendingEvidence_loop].
    cbn [bytesToEv tmproto.Unmarshal tmproto.EvidenceFromProto]. rewrite He.
    cbn [negb]. unfold batch_Delete. rewrite Hok.
    destruct (IH (b ++ [k]) ({[evMapKey e]} ∪ m)) as (m' & Hsub & Hin & Heq).
    exists m'. split; [set_solver|]. split.
    + intros kv e' Hkv Hkv2. apply elem_of_cons in Hkv as [->|Hkv].
      * cbn [snd] in Hkv2. injection Hkv2 as <-. unfold evMapKey in Hsub. set_solver.
      * eapply Hin; eassumption.
    + rewrite Heq. cbn [map fst]. rewrite <- app_assoc. reflexivity.
Qed.

(** Every item [listEvidence] returns is the value of an entry. *)
Lemma listEvidence_loop_elem (maxBytes : Z) (iterErr : option error)
    (entries : list (Key * tmproto.Bytes)) (evList : list tmproto.EvidencePb)
    (totalSize : Z) (evidence : list Evidence) (e : Evidence) :
  e ∈ (listEvidence_loop maxBytes iterErr entries evList totalSize evidence).1.1 ->
  e ∈ evidence \/ exists k, (k, tmproto.EvidenceBytes e) ∈ entries.
Proof.
  revert evList totalSize evidence.
  induction entries as [|[k v] entries IH]; intros evList totalSize evidence;
    cbn [listEvidence_loop].
  - cbn [fst]. auto.
  - destruct v as [ev|raw|h|raw]; cbn [tmproto.Unmarshal]; cbn [fst]; auto.
    + destruct (_ && _); cbn [fst]; auto. cbn [tmproto.EvidenceFromProto].
      intros Hin. apply IH in Hin as [Hin|[k' Hin]].
      * apply elem_of_app in Hin as [Hin|Hin]; auto.
        apply list_elem_of_singleton in Hin. subst e. right. exists k.
        apply elem_of_cons. auto.
      * right. exists k'. apply elem_of_cons. auto.
    + destruct (_ && _); cbn [fst]; auto. cbn [tmproto.EvidenceFromProto fst].
      intros Hin. inversion Hin.
Qed.

(** C2 (amended). Let the pool be the one [Update] has when it reaches its
    pruning step, with a store that performs its operations. If the size
    counter is positive, the new height and time are beyond the expiry
    cursor, and [ev] is a pending item that is expired under the new state
    and is preceded in key order by expired items only, then [Update]
    removes [ev] from the pending set, and no later [PendingEvidence]
    returns it. *)
Theorem Update_prunes_expired_prefix (evpool : Pool) (st : sm.State)
    (evs : list Evidence) (ev : Evidence) (pre post : list (Key * tmproto.Bytes)) :
  (forall op, fails op = false) ->
  sm.LastBlockHeight (state evpool) < sm.LastBlockHeight st ->
  0 < Size (Update_reconciled evpool st evs) ->
  pruningHeight evpool < sm.LastBlockHeight st ->
  pruningTime evpool < sm.LastBlockTime st ->
  pending_wf (Update_reconciled evpool st evs) ->
  pendingEntries (Update_reconciled evpool st evs)
  = pre ++ (keyPending ev, tmproto.EvidenceBytes ev) :: post ->
  Forall (fun kv => exists e, kv.2 = tmproto.EvidenceBytes e
            /\ isExpired (Update_reconciled evpool st evs) (Height e) (Time e) = true)
    pre ->
  isExpired (Update_reconciled evpool st evs) (Height ev) (Time ev) = true ->
  exists evpool',
    Update evpool st evs = Returns evpool'
    /\ (isPending evpool' ev).1 = false
    /\ forall maxBytes, ev ∉ (PendingEvidence evpool' maxBytes).1.1.
Proof.
  intros Hok Hheight Hsize Hph Hpt Hwf Hentries Hpre Hev.
  rewrite Update_eq. rewrite (proj2 (Z.leb_gt _ _) Hheight). cbv zeta.
  destruct (Update_reconciled_config evpool st evs) as (_ & Hh3 & Ht3).
  set (p3 := Update_reconciled evpool st evs) in *.
  rewrite Hh3, Ht3. unfold time.After.
  rewrite (proj2 (Z.ltb_lt _ _) Hsize), (proj2 (Z.ltb_lt _ _) Hph),
    (proj2 (Z.ltb_lt _ _) Hpt). cbn [andb].
  (* the scan reaches [ev] and batches its key *)
  assert (Hscan : exists h t m1 b1 p1,
    batchExpiredPendingEvidence p3 [] = (h, t, m1, b1, p1)
    /\ keyPending ev ∈ b1 /\ Hash ev ∈ m1
    /\ same_memory p3 p1 /\ evidenceStore p1 = evidenceStore p3).
  { destruct (batchExpiredPendingEvidence_frame p3 []) as [Hfm Hfs].
    unfold batchExpiredPendingEvidence, store_IteratePrefix in *. rewrite Hok in *.
    change (dbm.IteratePrefix (evidenceStore p3) (prefixToBytes prefixPending))
      with (pendingEntries p3) in *.
    rewrite Hentries in *.
    replace (pre ++ (keyPending ev, tmproto.EvidenceBytes ev) :: post)
      with ((pre ++ [(keyPending ev, tmproto.EvidenceBytes ev)]) ++ post) in *
      by (rewrite <- app_assoc; reflexivity).
    destruct (batchExpiredPendingEvidence_loop_expired
                (pre ++ [(keyPending ev, tmproto.EvidenceBytes ev)]) post p3 [] ∅ Hok)
      as (m' & _ & Hin & Heq).
    { apply Forall_app. split; [exact Hpre|]. constructor; [|constructor].
      exists ev. auto. }
    rewrite Heq in *.
    match type of Hfm with context [batchExpiredPendingEvidence_loop ?q ?es ?b ?m] =>
      destruct (batchExpiredPendingEvidence_loop_mono es q b m) as [Hb Hm];
      destruct (batchExpiredPendingEvidence_loop q es b m) as [[[[h t] m1] b1] p1]
    end.
    cbn [fst snd] in *. exists h, t, m1, b1, p1. split; [reflexivity|].
    split; [|split; [|split; [exact Hfm|exact Hfs]]].
    - apply Hb. cbn [app]. rewrite map_app. apply elem_of_app. right.
      apply list_elem_of_singleton. reflexivity.
    - apply Hm. apply (Hin (keyPending ev, tmproto.EvidenceBytes ev) ev); [|reflexivity].
      apply elem_of_app. right. apply list_elem_of_singleton. reflexivity. }
  destruct Hscan as (h & t & m1 & b1 & p1 & Hbatch & Hkey & Hhash & Hfm & Hfs).
  unfold removeExpiredPendingEvidence. rewrite Hbatch.
  destruct (Nat.eqb_spec (size m1) 0) as [Hz|_].
  { apply size_empty_inv in Hz. set_solver. }
  unfold batch_WriteSync. rewrite Hok. eexists. split; [reflexivity|].
  assert (Hgone : dbm.get (keyPending ev) (dbm.write b1 (evidenceStore p3)) = None).
  { apply get_write_in. exact Hkey. }
  split.
  - rewrite isPending_eq, Hok. pool_simpl. rewrite Hfs. unfold dbm.has.
    rewrite Hgone. reflexivity.
  - intros maxBytes Hin. unfold PendingEvidence in Hin.
    destruct (Size _ =? 0); [inversion Hin|].
    unfold listEvidence, store_IteratePrefix in Hin. rewrite Hok in Hin.
    match type of Hin with context [listEvidence_loop ?mb ?ie ?es ?l ?ts ?acc] =>
      destruct (listEvidence_loop mb ie es l ts acc) as [[out sz] err] eqn:Hloop;
      pose proof (listEvidence_loop_elem mb ie es l ts acc ev) as Helem;
      rewrite Hloop in Helem
    end.
    cbn [fst snd] in Hin, Helem.
    destruct (Helem Hin) as [Hnil|[k Hk]]; [inversion Hnil|].
    pool_simpl. rewrite Hfs in Hk.
    apply elem_IteratePrefix_write in Hk as [Hk Hnb].
    destruct (Hwf k (tmproto.EvidenceBytes ev) Hk) as (e & He & Hke).
    injection He as <-. subst k. contradiction.
Qed.

(** C8 (amended). With a store that answers the membership tests, a second
    [AddEvidence(ev)] after one that returned no error also returns no
    error and leaves [Size()], the store and the broadcast list as the
    first call left them; evidence that is already pending or already
    committed is ignored without error and without any change to them. *)
Theorem AddEvidence_idempotent_after_success (evpool : Pool) (ev : Evidence) :
  (forall key, fails (OpHas key) = false) ->
  (AddEvidence evpool ev).1 = None ->
  ((AddEvidence (AddEvidence evpool ev).2 ev).1 = None
   /\ Size (AddEvidence (AddEvidence evpool ev).2 ev).2 = Size (AddEvidence evpool ev).2
   /\ evidenceStore (AddEvidence (AddEvidence evpool ev).2 ev).2
      = evidenceStore (AddEvidence evpool ev).2
   /\ evidenceList (AddEvidence (AddEvidence evpool ev).2 ev).2
      = evidenceList (AddEvidence evpool ev).2)
  /\ (dbm.has (keyPending ev) (evidenceStore evpool) = true
      \/ dbm.has (keyCommitted ev) (evidenceStore evpool) = true ->
      Size (AddEvidence evpool ev).2 = Size evpool
      /\ evidenceStore (AddEvidence evpool ev).2 = evidenceStore evpool
      /\ evidenceList (AddEvidence evpool ev).2 = evidenceList evpool).
Proof.
  intros Hok Hfirst.
  destruct (AddEvidence_again evpool ev Hok) as (Hsz & Hst & Hl & Hres & Hseen).
  split.
  - split; [exact (Hres Hfirst)|]. auto.
  - intros Hin. destruct (Hseen Hin) as (_ & H1 & H2 & H3). auto.
Qed.

End PoolFacts.

(** ** The properties on the scenarios *)

Import Scenario types.

Ltac in_range := unfold int64.InRange, int64.min, int64.max; vm_compute; split; discriminate.

(** C1, as stated, fails. In a pool at height 100 and time 1000 s with a
    window of 5 blocks and 10 s, an item of height 50 and time 995 s
    violates the height bound and meets the time bound: one of the two
    bounds is violated, and the item is not expired. *)
Lemma isExpired_not_when_one_bound_violated :
  ~ spec_height_fresh (state (emptyPool 100 (second 1000))) 50
  /\ spec_time_fresh (state (emptyPool 100 (second 1000))) (second 995)
  /\ isExpired (emptyPool 100 (second 1000)) 50 (second 995) = false.
Proof.
  split; [|split].
  - unfold spec_height_fresh. vm_compute. intros Hle. apply Hle. reflexivity.
  - unfold spec_time_fresh. vm_compute. discriminate.
  - vm_compute. reflexivity.
Qed.

Lemma isExpired_iff_both_bounds_violated_witness :
  int64.InRange (sm.LastBlockHeight (state (emptyPool 100 (second 1000))) - 50)
  /\ int64.InRange (sm.LastBlockTime (state (emptyPool 100 (second 1000))) - second 995)
  /\ ((isExpired (emptyPool 100 (second 1000)) 50 (second 995) = true <->
       ~ spec_height_fresh (state (emptyPool 100 (second 1000))) 50
       /\ ~ spec_time_fresh (state (emptyPool 100 (second 1000))) (second 995))
      /\ (spec_height_fresh (state (emptyPool 100 (second 1000))) 50
          \/ spec_time_fresh (state (emptyPool 100 (second 1000))) (second 995) ->
          isExpired (emptyPool 100 (second 1000)) 50 (second 995) = false)).
Proof.
  split; [in_range|]. split; [in_range|].
  apply (isExpired_iff_both_bounds_violated (emptyPool 100 (second 1000)) 50 (second 995));
    in_range.
Defined.

(** C2, as stated, fails. The item of height 5 and time 100 s is pending
    in a pool whose last scan set the cursor to height 11 and 111 s. The
    update to height 12 at 110.5 s makes the item expired (5 < 12 - 5 and
    100 s < 110.5 s - 10 s) and prunes nothing, since the time is not beyond
    the cursor. The next update, to height 13 at 110.8 s, runs on a pool
    that is not empty and in which the item is expired before and after,
    and prunes nothing either: the item is still pending and
    [PendingEvidence] still returns it. *)
Lemma Update_keeps_expired_evidence_within_cursor :
  (pruningHeight expiryPool2 = 11 /\ pruningTime expiryPool2 = second 111)
  /\ Update (H := healthy) expiryPool2 expiryState_in_margin [] = Returns expiryPool3
  /\ (0 < Size expiryPool3
      /\ isExpired expiryPool3 (Height ev5) (Time ev5) = true
      /\ Height ev5 < sm.LastBlockHeight (state expiryPool3) - 5
      /\ Time ev5 < sm.LastBlockTime (state expiryPool3) - second 10)
  /\ (Height ev5 < sm.LastBlockHeight expiryState_in_margin' - 5
      /\ Time ev5 < sm.LastBlockTime expiryState_in_margin' - second 10)
  /\ (exists evpool',
        Update (H := healthy) expiryPool3 expiryState_in_margin' [] = Returns evpool'
        /\ isExpired evpool' (Height ev5) (Time ev5) = true
        /\ (isPending (H := healthy) evpool' ev5).1 = true
        /\ (PendingEvidence (H := healthy) evpool' (-1)).1.1 = [ev5]).
Proof.
  split; [split; reflexivity|]. split; [vm_compute; reflexivity|].
  split; [repeat split; vm_compute; reflexivity|].
  split; [split; reflexivity|].
  eexists. split; [vm_compute; reflexivity|].
  split; [|split]; vm_compute; reflexivity.
Qed.

(** The same at the cursor height: updated to height 11 at 120 s, the item
    is expired and the height is not beyond the cursor, 11. *)
Example Update_keeps_expired_evidence_at_cursor_height :
  exists evpool',
    Update (H := healthy) expiryPool2 expiryState_at_cursor_height [] = Returns evpool'
    /\ isExpired evpool' (Height ev5) (Time ev5) = true
    /\ (PendingEvidence (H := healthy) evpool' (-1)).1.1 = [ev5].
Proof.
  eexists. split; [vm_compute; reflexivity|]. split; vm_compute; reflexivity.
Qed.

Lemma Update_prunes_expired_prefix_witness :
  exists evpool',
    Update (H := healthy) expiryPool2 expiryState_beyond [] = Returns evpool'
    /\ (isPending (H := healthy) evpool' ev5).1 = false
    /\ forall maxBytes, ev5 ∉ (PendingEvidence (H := healthy) evpool' maxBytes).1.1.
Proof.
  assert (Hentries :
    pendingEntries (Update_reconciled (H := healthy) expiryPool2 expiryState_beyond [])
    = [] ++ (keyPending (H := healthy) ev5, tmproto.EvidenceBytes ev5) :: []).
  { vm_compute. reflexivity. }
  apply (Update_prunes_expired_prefix (H := healthy) expiryPool2 expiryState_beyond []
           ev5 [] []).
  - intros op. reflexivity.
  - vm_compute. reflexivity.
  - vm_compute. reflexivity.
  - vm_compute. reflexivity.
  - vm_compute. reflexivity.
  - intros k v Hin. rewrite Hentries in Hin. cbn [app] in Hin.
    apply list_elem_of_singleton in Hin. injection Hin as -> ->.
    exists ev5. split; reflexivity.
  - exact Hentries.
  - constructor.
  - vm_compute. reflexivity.
Defined.



(** S5. With pending items of serialized sizes 300, 400 and 500 in key
    order, 600 bytes give the first item, 700 bytes the first two, and no
    cap gives all three. *)
Example PendingEvidence_byte_cap :
  map snd (pendingEntries threePool) = map tmproto.EvidenceBytes [e300; e400; e500]
  /\ (PendingEvidence (H := healthy) threePool 600).1 = ([e300], 300)
  /\ (PendingEvidence (H := healthy) threePool 700).1 = ([e300; e400], 700)
  /\ (PendingEvidence (H := healthy) threePool (-1)).1 = ([e300; e400; e500], 1200).
Proof. repeat split; vm_compute; reflexivity. Qed.

Lemma sampleSize_nonneg (evpb : tmproto.EvidencePb) : 0 <= sampleSize evpb.
Proof. destruct evpb as [ev|raw]; simpl; lia. Qed.


Lemma markEvidenceAsCommitted_moves_to_committed_witness :
  (isPending (H := healthy) (pendingPool healthy) ev10).1 = true
  /\ (isPending (H := healthy)
        (markEvidenceAsCommitted (H := healthy) (pendingPool healthy) [ev10] 11) ev10).1
     = false
  /\ (isCommitted (H := healthy)
        (markEvidenceAsCommitted (H := healthy) (pendingPool healthy) [ev10] 11) ev10).1
     = true.
Proof.
  split; [vm_compute; reflexivity|].
  destruct (markEvidenceAsCommitted_moves_to_committed (H := healthy)
              (pendingPool healthy) ev10 11 (fun _ => eq_refl)) as (Hp & Hc & _).
  split; [exact Hp|exact Hc].
Defined.

(** C8, as stated, fails for evidence the verifier rejects: both calls of
    [AddEvidence] return the verifier's error, and the second call does not
    return Ok. *)
Lemma AddEvidence_twice_rejected :
  (AddEvidence (H := rejecting) (emptyPool 10 (second 100)) ev10).1
  = Some (errors_New "evidence is not valid")
  /\ (AddEvidence (H := rejecting)
        (AddEvidence (H := rejecting) (emptyPool 10 (second 100)) ev10).2 ev10).1
     = Some (errors_New "evidence is not valid")
  /\ Size (AddEvidence (H := rejecting)
             (AddEvidence (H := rejecting) (emptyPool 10 (second 100)) ev10).2 ev10).2
     = 0.
Proof. repeat split; vm_compute; reflexivity. Qed.

(** S4. Added twice to an empty pool, an item is counted once. *)
Lemma AddEvidence_idempotent_after_success_witness :
  (AddEvidence (H := healthy) (emptyPool 10 (second 100)) ev10).1 = None
  /\ (AddEvidence (H := healthy)
        (AddEvidence (H := healthy) (emptyPool 10 (second 100)) ev10).2 ev10).1 = None
  /\ Size (AddEvidence (H := healthy)
             (AddEvidence (H := healthy) (emptyPool 10 (second 100)) ev10).2 ev10).2
     = 1.
Proof.
  split; [vm_compute; reflexivity|].
  destruct (AddEvidence_idempotent_after_success (H := healthy)
              (emptyPool 10 (second 100)) ev10 (fun _ => eq_refl) eq_refl)
    as [(Hres & Hsz & _) _].
  split; [exact Hres|]. rewrite Hsz. vm_compute. reflexivity.
Defined.

Lemma CheckEvidence_rejection_keeps_added_evidence_witness :
  (exists err,
     (CheckEvidence (H := healthy) (emptyPool 3 (second 3)) [e300; e400; e400]).1
     = Some err)
  /\ dbm.has (keyPending (H := healthy) e300)
       (evidenceStore
          (CheckEvidence (H := healthy) (emptyPool 3 (second 3)) [e300; e400; e400]).2)
     = true
  /\ (exists k : nat, (1 <= k <= length [e300; e400; e400])%nat
       /\ Size (CheckEvidence (H := healthy) (emptyPool 3 (second 3))
                  [e300; e400; e400]).2
          = uint32.wrap (Size (emptyPool 3 (second 3)) + Z.of_nat k)).
Proof.
  apply (CheckEvidence_rejection_keeps_added_evidence (H := healthy)
           (emptyPool 3 (second 3)) e300 [e400; e400]).
  - reflexivity.
  - reflexivity.
  - reflexivity.
  - reflexivity.
  - apply (bool_decide_eq_false_1 (NoDup (map (Hash (Collaborators := healthy))
                                                [e300; e400; e400]))).
    vm_compute. reflexivity.
Defined.

(** The rejected block of the witness: the error is the duplicate, and the
    two distinct items have been added and counted. *)
Example CheckEvidence_rejection_state :
  (CheckEvidence (H := healthy) (emptyPool 3 (second 3)) [e300; e400; e400]).1
  = Some (ErrInvalidEvidence e400 (errors_New "duplicate evidence"))
  /\ Size (CheckEvidence (H := healthy) (emptyPool 3 (second 3)) [e300; e400; e400]).2
     = 2
  /\ (PendingEvidence (H := healthy)
        (CheckEvidence (H := healthy) (emptyPool 3 (second 3)) [e300; e400; e400]).2
        (-1)).1.1 = [e300; e400].
Proof. repeat split; vm_compute; reflexivity. Qed.

Lemma size_decrement_wraps_around_witness :
  1 <= 1
  /\ atomic.AddUint32 0 (uint32.not (uint32.wrap (1 - 1))) = (0 - 1) mod 2 ^ 32
  /\ atomic.AddUint32 0 (uint32.not (uint32.wrap (1 - 1))) = 4294967295.
Proof.
  split; [lia|].
  destruct (size_decrement_wraps_around (H := healthy) 0 1 ltac:(lia))
    as (Hsub & Hwrap & _).
  split; [exact Hsub|]. destruct Hwrap as [Hw _]; [lia|lia|]. rewrite Hw. reflexivity.
Defined.

(** The counter wraps in the pool. With a store whose batch deletions fail,
    a first [markEvidenceAsCommitted] of the pending item takes it off the
    counter and leaves it in the store; a second one finds it pending again
    and decrements the counter, which is 0, to [2^32 - 1]. *)
Example Size_wraps_below_zero :
  Size (markEvidenceAsCommitted (H := batchDeleteFailing)
          (pendingPool batchDeleteFailing) [ev10] 11) = 0
  /\ Size (markEvidenceAsCommitted (H := batchDeleteFailing)
             (markEvidenceAsCommitted (H := batchDeleteFailing)
                (pendingPool batchDeleteFailing) [ev10] 11) [ev10] 12)
     = 4294967295.
Proof. split; vm_compute; reflexivity. Qed.

(** S6. Votes at height 8 reported to a pool at height 12; after the update
    to height 13 the evidence formed carries the header time and the
    validator set of height 8. *)
Example historical_duplicate_vote :
  exists evpool',
    Update (H := healthy) historyPool (stateAt 13 (second 130)) [] = Returns evpool'
    /\ evidenceList evpool'
       = [DuplicateVoteEvidence (vote 8 "blockA") (vote 8 "blockB") T8 V8]
    /\ Size evpool' = 1
    /\ consensusBuffer evpool' = [].
Proof.
  eexists. split; [vm_compute; reflexivity|]. repeat split; vm_compute; reflexivity.
Qed.

(** [NewPool] on an empty store gives the empty pool, with the cursor at the
    loaded state. *)
Example NewPool_empty :
  NewPool (H := healthy) [] []
    (sm.mkStore (inr (stateAt 9 (second 104))) (fun _ => None))
    (mkBlockStore (fun _ => None) (fun _ => None))
  = inr (emptyPool 9 (second 104)).
Proof. vm_compute. reflexivity. Qed.

(** S1 and S2. Votes at height 10 reported to a fresh pool at height 9: the
    update to height 10 at time [T] adds one duplicate-vote evidence with
    timestamp [T]; the update to height 11 with that evidence in the block
    commits it and empties the pending set. *)
Example happy_duplicate_vote_then_committed :
  let T := second 100 in
  let reported :=
    ReportConflictingVotes (emptyPool 9 (second 90)) (vote 10 "blockA") (vote 10 "blockB") in
  let ev :=
    DuplicateVoteEvidence (vote 10 "blockA") (vote 10 "blockB") T [mkValidator "val1" 10] in
  let updated := returned (Update (H := healthy) reported (stateAt 10 T) []) in
  let committed :=
    returned (Update (H := healthy) updated (stateAt 11 (T + time.Second)) [ev]) in
  Size reported = 0
  /\ Size updated = 1
  /\ (PendingEvidence (H := healthy) updated (-1)).1.1 = [ev]
  /\ Size committed = 0
  /\ (isCommitted (H := healthy) committed ev).1 = true
  /\ (PendingEvidence (H := healthy) committed (-1)).1.1 = [].
Proof. cbv zeta. repeat split; vm_compute; reflexivity. Qed.

(** S3. The item of height 5 and time 100 s, with a window of 5 blocks and
    10 s: the update to height 11 at 111 s of the pool created at height 9
    prunes it. *)
Example expiry_at_first_scan :
  Size (returned (Update (H := healthy) expiryPool1 (stateAt 11 (second 111)) [])) = 0
  /\ pendingEntries
       (returned (Update (H := healthy) expiryPool1 (stateAt 11 (second 111)) [])) = [].
Proof. split; vm_compute; reflexivity. Qed.

(** * Further properties of the pool *)

Section MorePoolFacts.
Import orderedcode dbm_facts.
Context `{Collaborators}.

(** ** [AddEvidence] *)

Lemma verify_same_memory (p q : Pool) (ev : Evidence) :
  same_memory p q -> verify q ev = verify p ev.
Proof.
  intros (_ & _ & Hst & _ & _ & _ & Hdb & Hbs). unfold verify.
  rewrite Hst, Hdb, Hbs. reflexivity.
Qed.

(** X1. [AddEvidence] of an item that is neither pending nor committed, that
    the verifier accepts and that the store takes: it returns no error, the
    item is stored under its pending key and decodes back to itself, it is
    pending, the size counter is incremented modulo [2^32], the item is at
    the back of the broadcast list, every other key of the store is as
    before, and the cached state, the buffer and the cursor are untouched. *)
Theorem AddEvidence_adds_new_evidence (evpool : Pool) (ev : Evidence) :
  (forall key, fails (OpHas key) = false) ->
  dbm.has (keyPending ev) (evidenceStore evpool) = false ->
  dbm.has (keyCommitted ev) (evidenceStore evpool) = false ->
  verify evpool ev = None ->
  fails (OpSet (keyPending ev)) = false ->
  (AddEvidence evpool ev).1 = None
  /\ dbm.get (keyPending ev) (evidenceStore (AddEvidence evpool ev).2)
     = Some (tmproto.EvidenceBytes ev)
  /\ bytesToEv (tmproto.EvidenceBytes ev) = Some ev
  /\ (isPending (AddEvidence evpool ev).2 ev).1 = true
  /\ Size (AddEvidence evpool ev).2 = uint32.wrap (Size evpool + 1)
  /\ evidenceList (AddEvidence evpool ev).2 = evidenceList evpool ++ [ev]
  /\ (forall key, key <> keyPending ev ->
        dbm.get key (evidenceStore (AddEvidence evpool ev).2)
        = dbm.get key (evidenceStore evpool))
  /\ same_config evpool (AddEvidence evpool ev).2.
Proof.
  intros Hok Hp Hc Hv Hset. rewrite isPending_eq, Hok.
  rewrite (AddEvidence_eq evpool ev Hok). cbv zeta. pool_simpl. rewrite Hp, Hc.
  rewrite (verify_same_memory evpool) by apply same_memory_logf.
  rewrite Hv, Hset. pool_simpl.
  split; [reflexivity|]. split; [apply get_set_eq|]. split; [reflexivity|].
  split; [apply has_set_eq|]. split; [reflexivity|]. split; [reflexivity|].
  split; [|unfold same_config; pool_simpl; tauto].
  intros key Hne. apply get_set_ne. congruence.
Qed.

(** X2. When [AddEvidence] returns an error, it has changed nothing but the
    log: the store, the broadcast list and the size counter are as before.
    The error is the verifier's, or the store's refusal of the write of an
    item the verifier accepted. *)
Theorem AddEvidence_error_changes_nothing (evpool : Pool) (ev : Evidence)
    (err : error) :
  (AddEvidence evpool ev).1 = Some err ->
  evidenceStore (AddEvidence evpool ev).2 = evidenceStore evpool
  /\ same_memory evpool (AddEvidence evpool ev).2
  /\ (verify evpool ev = Some err
      \/ (verify evpool ev = None /\ fails (OpSet (keyPending ev)) = true)).
Proof.
  unfold AddEvidence. cbv zeta.
  set (p0 := logf log.Debug "attempting to add evidence" evpool).
  assert (Hm0 : same_memory evpool p0) by apply same_memory_logf.
  assert (Hs0 : evidenceStore p0 = evidenceStore evpool) by reflexivity.
  destruct (isPending_frame p0 ev) as [Hm1 Hs1].
  destruct (isPending p0 ev) as [pending p1]. cbn [fst snd] in Hm1, Hs1.
  destruct pending; [discriminate|].
  destruct (isCommitted_frame p1 ev) as [Hm2 Hs2].
  destruct (isCommitted p1 ev) as [committed p2]. cbn [fst snd] in Hm2, Hs2.
  destruct committed; [discriminate|].
  assert (Hm : same_memory evpool p2).
  { eapply same_memory_trans; [exact Hm0|].
    eapply same_memory_trans; [exact Hm1|exact Hm2]. }
  rewrite <- (verify_same_memory evpool p2 ev Hm).
  destruct (verify p2 ev) as [verr|] eqn:Hv.
  - cbn [fst snd]. intros [= ->]. split; [congruence|]. split; [exact Hm|]. auto.
  - unfold addPendingEvidence, store_Set.
    destruct (fails (OpSet (keyPending ev))); [|discriminate].
    cbn [fst snd]. intros _. split; [congruence|]. split; [exact Hm|]. auto.
Qed.

(** ** [fastCheck] and [CheckEvidence] *)

(** X3. [fastCheck] passes only evidence whose pending key is in the store,
    and it changes nothing but the log. *)
Theorem fastCheck_passes_only_pending (evpool : Pool) (ev : Evidence) :
  ((fastCheck evpool ev).1 = true ->
   dbm.has (keyPending ev) (evidenceStore evpool) = true)
  /\ evidenceStore (fastCheck evpool ev).2 = evidenceStore evpool
  /\ same_memory evpool (fastCheck evpool ev).2.
Proof.
  destruct (fastCheck_frame evpool ev) as [Hm Hs].
  split; [|split; [exact Hs|exact Hm]].
  intros Hfc. destruct (dbm.has (keyPending ev) (evidenceStore evpool)) eqn:Hp;
    [reflexivity|].
  rewrite (fastCheck_not_pending evpool ev Hp) in Hfc. discriminate.
Qed.

(** The pool after one item of [CheckEvidence] has been checked without
    error: the item is pending when its write succeeds, and entries stay. *)
Lemma CheckEvidence_loop_pending (evList : list Evidence) (evpool : Pool)
    (hashes : list string) :
  (CheckEvidence_loop evpool hashes evList).1 = None ->
  forall ev, ev ∈ evList -> fails (OpSet (keyPending ev)) = false ->
    dbm.has (keyPending ev)
      (evidenceStore (CheckEvidence_loop evpool hashes evList).2) = true.
Proof.
  revert evpool hashes. induction evList as [|e evList IH]; intros evpool hashes Hnone ev Hin.
  { inversion Hin. }
  revert Hnone. cbn [CheckEvidence_loop].
  pose proof (fastCheck_not_pending evpool e) as Hfc.
  destruct (fastCheck_frame evpool e) as [Hm1 Hs1].
  destruct (fastCheck evpool e) as [ok p1]. cbn [fst snd] in Hm1, Hs1, Hfc.
  destruct (isCommitted_frame p1 e) as [Hm2 Hs2].
  (* once the item is checked, in a pool [p2] that holds it *)
  assert (Hnext : forall p2,
    (fails (OpSet (keyPending e)) = false ->
     dbm.has (keyPending e) (evidenceStore p2) = true) ->
    (if bool_decide (Hash e ∈ hashes)
     then (Some (ErrInvalidEvidence e (errors_New "duplicate evidence")), p2)
     else CheckEvidence_loop p2 (hashes ++ [Hash e]) evList).1 = None ->
    fails (OpSet (keyPending ev)) = false ->
    dbm.has (keyPending ev)
      (evidenceStore
         (if bool_decide (Hash e ∈ hashes)
          then (Some (ErrInvalidEvidence e (errors_New "duplicate evidence")), p2)
          else CheckEvidence_loop p2 (hashes ++ [Hash e]) evList).2) = true).
  { intros p2 Hp2. destruct (bool_decide (Hash e ∈ hashes)); [discriminate|].
    intros Hnone Hset. apply elem_of_cons in Hin as [->|Hin].
    - destruct (CheckEvidence_loop_spec evList p2 (hashes ++ [Hash e])) as (Hk & _).
      apply Hk, Hp2, Hset.
    - apply IH; assumption. }
  destruct ok.
  { apply Hnext. intros _. rewrite Hs1.
    destruct (dbm.has (keyPending e) (evidenceStore evpool)); [reflexivity|].
    discriminate (Hfc eq_refl). }
  destruct (isCommitted p1 e) as [committed p2]. cbn [fst snd] in Hm2, Hs2.
  destruct committed; [discriminate|].
  destruct (verify p2 e); [discriminate|].
  unfold addPendingEvidence, store_Set.
  destruct (fails (OpSet (keyPending e))).
  - apply Hnext. discriminate.
  - apply Hnext. intros _. pool_simpl. apply has_set_eq.
Qed.

(** X4. A list that [CheckEvidence] accepts has pairwise distinct hashes,
    and afterwards every item of the list whose write the store takes is in
    the pending set. *)
Theorem CheckEvidence_accepted_is_distinct_and_pending (evpool : Pool)
    (evList : list Evidence) :
  (CheckEvidence evpool evList).1 = None ->
  NoDup (map Hash evList)
  /\ forall ev, ev ∈ evList -> fails (OpSet (keyPending ev)) = false ->
       dbm.has (keyPending ev) (evidenceStore (CheckEvidence evpool evList).2) = true.
Proof.
  intros Hnone. unfold CheckEvidence in *. split.
  - destruct (CheckEvidence_loop_spec evList evpool []) as (_ & _ & Hnd).
    apply Hnd, Hnone.
  - apply CheckEvidence_loop_pending, Hnone.
Qed.

(** The loop of [CheckEvidence] on a list that holds a committed item which
    is pending only if its hash has been seen: it returns an error. *)
Lemma CheckEvidence_loop_committed (evList : list Evidence) (evpool : Pool)
    (hashes : list string) (ev : Evidence) :
  ev ∈ evList ->
  fails (OpHas (keyCommitted ev)) = false ->
  dbm.has (keyCommitted ev) (evidenceStore evpool) = true ->
  (dbm.has (keyPending ev) (evidenceStore evpool) = true -> Hash ev ∈ hashes) ->
  exists err, (CheckEvidence_loop evpool hashes evList).1 = Some err.
Proof.
  revert evpool hashes. induction evList as [|e evList IH];
    intros evpool hashes Hin Hhas Hc Hp.
  { inversion Hin. }
  cbn [CheckEvidence_loop].
  pose proof (fastCheck_not_pending evpool e) as Hfc.
  destruct (fastCheck_frame evpool e) as [Hm1 Hs1].
  destruct (fastCheck evpool e) as [ok p1]. cbn [fst snd] in Hm1, Hs1, Hfc.
  (* the rest of the loop, for a pool [p2] whose store is that of [evpool],
     with or without the pending key of [e] *)
  assert (Hnext : forall p2,
    evidenceStore p2 = evidenceStore evpool
    \/ evidenceStore p2
       = dbm.set (keyPending e) (tmproto.EvidenceBytes e) (evidenceStore evpool) ->
    (e = ev -> dbm.has (keyPending ev) (evidenceStore evpool) = true) ->
    exists err,
      (if bool_decide (Hash e ∈ hashes)
       then (Some (ErrInvalidEvidence e (errors_New "duplicate evidence")), p2)
       else CheckEvidence_loop p2 (hashes ++ [Hash e]) evList).1 = Some err).
  { intros p2 Hstore Hself.
    destruct (bool_decide_reflect (Hash e ∈ hashes)) as [Hseen|Hnew];
      [eexists; reflexivity|].
    apply elem_of_cons in Hin as [->|Hin].
    { exfalso. apply Hnew, Hp, Hself. reflexivity. }
    apply IH; [exact Hin|exact Hhas| |].
    - destruct Hstore as [->| ->]; [exact Hc|].
      rewrite has_set_ne; [exact Hc|]. apply keyPending_neq_keyCommitted.
    - intros Hpend. apply elem_of_app.
      destruct Hstore as [Hst|Hst]; rewrite Hst in Hpend.
      + left. apply Hp, Hpend.
      + destruct (decide (keyPending e = keyPending ev)) as [Heq|Hne].
        * right. apply list_elem_of_singleton. apply keyPending_inj in Heq.
          symmetry. apply Heq.
        * rewrite has_set_ne in Hpend by exact Hne. left. apply Hp, Hpend. }
  destruct ok.
  { apply Hnext; [left; exact Hs1|].
    intros ->. destruct (dbm.has (keyPending ev) (evidenceStore evpool));
      [reflexivity|]. discriminate (Hfc eq_refl). }
  destruct (isCommitted_frame p1 e) as [Hm2 Hs2].
  destruct (decide (e = ev)) as [->|Hne].
  { rewrite isCommitted_eq, Hhas, Hs1, Hc. eexists. reflexivity. }
  destruct (isCommitted p1 e) as [committed p2]. cbn [fst snd] in Hm2, Hs2.
  destruct committed; [eexists; reflexivity|].
  destruct (verify p2 e); [eexists; reflexivity|].
  unfold addPendingEvidence, store_Set.
  destruct (fails (OpSet (keyPending e))).
  - apply Hnext; [left; pool_simpl; congruence|]. intros Heq. contradiction.
  - apply Hnext; [right; pool_simpl; congruence|]. intros Heq. contradiction.
Qed.

(** X5. [CheckEvidence] rejects a list that holds an item which is committed
    and not pending, when the store answers whether the item is committed. *)
Theorem CheckEvidence_rejects_committed (evpool : Pool) (evList : list Evidence)
    (ev : Evidence) :
  ev ∈ evList ->
  fails (OpHas (keyCommitted ev)) = false ->
  dbm.has (keyCommitted ev) (evidenceStore evpool) = true ->
  dbm.has (keyPending ev) (evidenceStore evpool) = false ->
  exists err, (CheckEvidence evpool evList).1 = Some err.
Proof.
  intros Hin Hhas Hc Hp. unfold CheckEvidence.
  apply (CheckEvidence_loop_committed evList evpool [] ev Hin Hhas Hc).
  rewrite Hp. discriminate.
Qed.

(** ** [markEvidenceAsCommitted] and [Update] on a whole block *)

Lemma get_write_cases {V : Type} (batch : list Key) (db : list (Key * V)) (k : Key) :
  dbm.get k (dbm.write batch db) = if decide (k ∈ batch) then None else dbm.get k db.
Proof.
  destruct (decide (k ∈ batch)); [apply get_write_in|apply get_write_notin]; assumption.
Qed.

(** The loop of [markEvidenceAsCommitted] with a store that performs its
    operations: it marks every item, touches no other key, and batches the
    pending keys of the items, the set of hashes being empty exactly when
    the batch is. *)
Lemma markEvidenceAsCommitted_loop_marks (height : Z) (evidence : list Evidence)
    (p : Pool) (b : list Key) (m : gset string) :
  (forall op, fails op = false) ->
  (b = [] <-> m = ∅) ->
  let r := fold_left (markEvidenceAsCommitted_step height) evidence (p, b, m) in
  (forall k, (forall ev, ev ∈ evidence -> k <> keyCommitted ev) ->
     dbm.get k (evidenceStore r.1.1) = dbm.get k (evidenceStore p))
  /\ (forall k, dbm.has k (evidenceStore p) = true ->
       dbm.has k (evidenceStore r.1.1) = true)
  /\ (forall ev, ev ∈ evidence -> dbm.has (keyCommitted ev) (evidenceStore r.1.1) = true)
  /\ (forall k, k ∈ r.1.2 <->
       k ∈ b \/ exists ev, ev ∈ evidence /\ k = keyPending ev
                          /\ dbm.has k (evidenceStore p) = true)
  /\ (r.1.2 = [] <-> r.2 = ∅).
Proof.
  intros Hok. revert p b m. induction evidence as [|e evidence IH]; intros p b m Hbm;
    cbn [fold_left].
  { cbv zeta. cbn [fst snd]. split; [auto|]. split; [auto|].
    split; [intros ev Hin; inversion Hin|]. split; [|exact Hbm].
    intros k. split; [auto|]. intros [Hk|(ev & Hin & _)]; [exact Hk|inversion Hin]. }
  assert (Hstep : markEvidenceAsCommitted_step height (p, b, m) e
    = (logf log.Debug "marked evidence as committed"
         (with_evidenceStore
            (dbm.set (keyCommitted e) (tmproto.Int64ValueBytes height) (evidenceStore p))
            p),
       if dbm.has (keyPending e) (evidenceStore p) then b ++ [keyPending e] else b,
       if dbm.has (keyPending e) (evidenceStore p) then {[evMapKey e]} ∪ m else m)).
  { unfold markEvidenceAsCommitted_step. rewrite isPending_eq.
    unfold batch_Delete, store_Set. rewrite !Hok.
    destruct (dbm.has (keyPending e) (evidenceStore p)); reflexivity. }
  rewrite Hstep. clear Hstep.
  match goal with |- context [fold_left _ evidence (?q, ?b', ?m')] =>
    specialize (IH q b' m')
  end.
  destruct IH as (Hget & Hkeep & Hcom & Hbatch & Hempty).
  { destruct (dbm.has (keyPending e) (evidenceStore p)); [|exact Hbm].
    split; [intros Hb; destruct b; discriminate|].
    intros Hm. exfalso. eapply size_add_nonzero. rewrite Hm. apply size_empty. }
  pool_simpl. cbv zeta. split; [|split; [|split; [|split]]].
  - intros k Hk. rewrite Hget.
    + apply get_set_ne. intros Heq. apply (Hk e); [apply elem_of_cons; auto|].
      symmetry. exact Heq.
    + intros ev Hin. apply Hk. apply elem_of_cons. auto.
  - intros k Hk. apply Hkeep.
    destruct (decide (keyCommitted e = k)) as [<-|Hne]; [apply has_set_eq|].
    rewrite has_set_ne by exact Hne. exact Hk.
  - intros ev Hin. apply elem_of_cons in Hin as [->|Hin]; [|apply Hcom, Hin].
    apply Hkeep. apply has_set_eq.
  - intros k. rewrite Hbatch. clear Hbatch.
    assert (Hpend : forall ev, dbm.has (keyPending ev)
        (dbm.set (keyCommitted e) (tmproto.Int64ValueBytes height) (evidenceStore p))
        = dbm.has (keyPending ev) (evidenceStore p)).
    { intros ev. apply has_set_ne. intros Heq.
      apply (keyPending_neq_keyCommitted ev e). symmetry. exact Heq. }
    split.
    + intros [Hk|(ev & Hin & -> & Hp)].
      * destruct (dbm.has (keyPending e) (evidenceStore p)) eqn:Hpe; [|auto].
        apply elem_of_app in Hk as [Hk|Hk]; [auto|].
        apply list_elem_of_singleton in Hk. subst k. right. exists e.
        split; [apply elem_of_cons; auto|]. auto.
      * right. exists ev. rewrite Hpend in Hp.
        split; [apply elem_of_cons; auto|]. auto.
    + intros [Hk|(ev & Hin & -> & Hp)].
      * left. destruct (dbm.has (keyPending e) (evidenceStore p)); [|exact Hk].
        apply elem_of_app. auto.
      * apply elem_of_cons in Hin as [->|Hin].
        -- left. rewrite Hp. apply elem_of_app. right.
           apply list_elem_of_singleton. reflexivity.
        -- right. exists ev. rewrite Hpend. auto.
  - exact Hempty.
Qed.

(** [markEvidenceAsCommitted] with a store that performs its operations, by
    the keys of the store. *)
Lemma markEvidenceAsCommitted_store (evpool : Pool) (evidence : list Evidence)
    (height : Z) :
  (forall op, fails op = false) ->
  (forall ev, ev ∈ evidence ->
     dbm.has (keyPending ev)
       (evidenceStore (markEvidenceAsCommitted evpool evidence height)) = false
     /\ dbm.has (keyCommitted ev)
          (evidenceStore (markEvidenceAsCommitted evpool evidence height)) = true)
  /\ (forall e, (forall ev, ev ∈ evidence -> keyPending ev <> keyPending e) ->
       dbm.get (keyPending e)
         (evidenceStore (markEvidenceAsCommitted evpool evidence height))
       = dbm.get (keyPending e) (evidenceStore evpool)
       /\ dbm.get (keyCommitted e)
            (evidenceStore (markEvidenceAsCommitted evpool evidence height))
          = dbm.get (keyCommitted e) (evidenceStore evpool)).
Proof.
  intros Hok. unfold markEvidenceAsCommitted.
  destruct (markEvidenceAsCommitted_loop_marks height evidence evpool [] ∅ Hok)
    as (Hget & Hkeep & Hcom & Hbatch & Hempty); [tauto|].
  destruct (fold_left _ evidence _) as [[p1 b1] m1]. cbn [fst snd] in *.
  assert (Hpget : forall e, dbm.get (keyPending e) (evidenceStore p1)
                            = dbm.get (keyPending e) (evidenceStore evpool)).
  { intros e. apply Hget. intros ev _. apply keyPending_neq_keyCommitted. }
  assert (Hnotin : forall e, keyCommitted e ∉ b1).
  { intros e Hin. apply Hbatch in Hin as [Hin|(ev & _ & Heq & _)]; [inversion Hin|].
    apply (keyPending_neq_keyCommitted ev e). symmetry. exact Heq. }
  assert (Hstore : evidenceStore
      (if Nat.eqb (size m1) 0 then p1
       else
         match batch_WriteSync b1 (evidenceStore p1) with
         | (_, Some _) => logf log.Error "failed to batch delete pending evidence" p1
         | (db, None) =>
             with_evidenceSize
               (atomic.AddUint32
                  (evidenceSize
                     (removeEvidenceFromList (with_evidenceStore db p1) m1))
                  (uint32.not (uint32.wrap (Z.of_nat (size m1) - 1))))
               (removeEvidenceFromList (with_evidenceStore db p1) m1)
         end) = dbm.write b1 (evidenceStore p1)).
  { destruct (Nat.eqb_spec (size m1) 0) as [Hz|Hnz].
    - apply size_empty_inv in Hz. apply leibniz_equiv in Hz.
      apply Hempty in Hz. subst b1. reflexivity.
    - unfold batch_WriteSync. rewrite Hok. reflexivity. }
  rewrite Hstore. clear Hstore. split.
  - intros ev Hin. unfold dbm.has. rewrite !get_write_cases.
    rewrite (decide_False (P := keyCommitted ev ∈ b1)) by apply Hnotin.
    split; [|apply (Hcom ev Hin)].
    destruct (decide (keyPending ev ∈ b1)) as [Hb|Hb]; [reflexivity|].
    rewrite Hpget. destruct (dbm.get (keyPending ev) (evidenceStore evpool)) eqn:Hg;
      [|reflexivity].
    exfalso. apply Hb. apply Hbatch. right. exists ev. split; [exact Hin|].
    split; [reflexivity|]. unfold dbm.has. rewrite Hg. reflexivity.
  - intros e Hdiff. rewrite !get_write_cases.
    rewrite (decide_False (P := keyCommitted e ∈ b1)) by apply Hnotin.
    rewrite decide_False.
    + split; [apply Hpget|]. apply Hget. intros ev Hin Heq.
      apply (Hdiff ev Hin). apply keyCommitted_inj. symmetry. exact Heq.
    + intros Hin. apply Hbatch in Hin as [Hin|(ev & Hev & Heq & _)]; [inversion Hin|].
      apply (Hdiff ev Hev). symmetry. exact Heq.
Qed.

(** X6. With a store that performs its operations, after
    [markEvidenceAsCommitted(evidence, h)] every item of the list is
    committed and not pending, whether it was pending or not, and an item
    that shares its height and hash with none of the list keeps its pending
    and its committed entry. *)
Theorem markEvidenceAsCommitted_commits_all (evpool : Pool)
    (evidence : list Evidence) (height : Z) :
  (forall op, fails op = false) ->
  (forall ev, ev ∈ evidence ->
     (isPending (markEvidenceAsCommitted evpool evidence height) ev).1 = false
     /\ (isCommitted (markEvidenceAsCommitted evpool evidence height) ev).1 = true)
  /\ (forall e,
       (forall ev, ev ∈ evidence -> ~ (Height ev = Height e /\ Hash ev = Hash e)) ->
       (isPending (markEvidenceAsCommitted evpool evidence height) e).1
       = (isPending evpool e).1
       /\ (isCommitted (markEvidenceAsCommitted evpool evidence height) e).1
          = (isCommitted evpool e).1).
Proof.
  intros Hok. destruct (markEvidenceAsCommitted_store evpool evidence height Hok)
    as [Hin Hout].
  split.
  - intros ev Hev. rewrite isPending_eq, isCommitted_eq, !Hok. cbn [fst].
    apply Hin, Hev.
  - intros e Hdiff. rewrite !isPending_eq, !isCommitted_eq, !Hok. cbn [fst].
    unfold dbm.has. destruct (Hout e) as [-> ->]; [|auto].
    intros ev Hev Heq. apply (Hdiff ev Hev). apply keyPending_inj. exact Heq.
Qed.

(** Every key the scan of [batchExpiredPendingEvidence] batches is the key
    of an expired entry, whatever the store's errors. *)
Lemma batchExpiredPendingEvidence_loop_batch (entries : list (Key * tmproto.Bytes))
    (p : Pool) (b : list Key) (m : gset string) (k : Key) :
  k ∈ (batchExpiredPendingEvidence_loop p entries b m).1.2 ->
  k ∈ b \/ exists v, (k, v) ∈ entries /\ expired_entry p (k, v) = true.
Proof.
  revert p b m. induction entries as [|[k0 v0] entries IH]; intros p b m;
    cbn [batchExpiredPendingEvidence_loop].
  { cbn [fst snd]. auto. }
  assert (Hrest : forall lvl msg b' m',
    k ∈ (batchExpiredPendingEvidence_loop (logf lvl msg p) entries b' m').1.2 ->
    k ∈ b' \/ exists v, (k, v) ∈ (k0, v0) :: entries /\ expired_entry p (k, v) = true).
  { intros lvl msg b' m' Hk. apply IH in Hk as [Hk|(v & Hin & He)]; [auto|].
    right. exists v. split; [apply elem_of_cons; auto|exact He]. }
  destruct (bytesToEv v0) as [ev|] eqn:Hdec; [|apply Hrest].
  destruct (isExpired p (Height ev) (Time ev)) eqn:Hexp; cbn [negb].
  - unfold batch_Delete. destruct (fails (OpBatchDelete k0)); [apply Hrest|].
    intros Hk. apply IH in Hk as [Hk|(v & Hin & He)].
    + apply elem_of_app in Hk as [Hk|Hk]; [auto|].
      apply list_elem_of_singleton in Hk. subst k. right. exists v0.
      split; [apply elem_of_cons; auto|]. unfold expired_entry. cbn [snd].
      rewrite Hdec. exact Hexp.
    + right. exists v. split; [apply elem_of_cons; auto|exact He].
  - cbn [fst snd]. auto.
Qed.

(** The store after [removeExpiredPendingEvidence]: a batch of keys of
    expired pending entries has been deleted, an empty one when the write
    failed or nothing was expired. *)
Lemma removeExpiredPendingEvidence_store (evpool : Pool) :
  exists b,
    evidenceStore (removeExpiredPendingEvidence evpool).2
    = dbm.write b (evidenceStore evpool)
    /\ forall k, k ∈ b ->
         exists v, (k, v) ∈ pendingEntries evpool /\ expired_entry evpool (k, v) = true.
Proof.
  unfold removeExpiredPendingEvidence.
  destruct (batchExpiredPendingEvidence_frame evpool []) as [_ Hst].
  assert (Hb : forall k, k ∈ (batchExpiredPendingEvidence evpool []).1.2 ->
    exists v, (k, v) ∈ pendingEntries evpool /\ expired_entry evpool (k, v) = true).
  { unfold batchExpiredPendingEvidence, store_IteratePrefix.
    destruct (fails (OpIteratePrefix _)); cbn [fst snd].
    - intros k Hk. inversion Hk.
    - intros k Hk. apply batchExpiredPendingEvidence_loop_batch in Hk as [Hk|Hk];
        [inversion Hk|exact Hk]. }
  destruct (batchExpiredPendingEvidence evpool []) as [[[[h t] m1] b1] p1].
  cbn [fst snd] in Hst, Hb.
  assert (Hnil : forall k, k ∈ @nil Key ->
    exists v, (k, v) ∈ pendingEntries evpool /\ expired_entry evpool (k, v) = true).
  { intros k Hk. inversion Hk. }
  destruct (Nat.eqb (size m1) 0); cbn [snd].
  { exists []. split; [exact Hst|exact Hnil]. }
  unfold batch_WriteSync. destruct (fails OpBatchWriteSync); pool_simpl.
  - exists []. split; [exact Hst|exact Hnil].
  - exists b1. rewrite Hst. split; [reflexivity|exact Hb].
Qed.

Lemma pendingEntries_prefix (evpool : Pool) (k : Key) (v : tmproto.Bytes) :
  (k, v) ∈ pendingEntries evpool ->
  (k, v) ∈ evidenceStore evpool /\ [Int64 prefixPending] `prefix_of` k.
Proof.
  unfold pendingEntries, dbm.IteratePrefix. intros Hin.
  apply list_elem_of_filter in Hin. tauto.
Qed.

(** X7. With a store that performs its operations, when [Update] returns
    every evidence item of the committed block is committed and not pending,
    whatever the consensus buffer held and whatever was pruned. *)
Theorem Update_commits_block_evidence (evpool evpool' : Pool) (st : sm.State)
    (evs : list Evidence) :
  (forall op, fails op = false) ->
  Update evpool st evs = Returns evpool' ->
  forall ev, ev ∈ evs ->
    (isPending evpool' ev).1 = false /\ (isCommitted evpool' ev).1 = true.
Proof.
  intros Hok. rewrite Update_eq. destruct (_ <=? _); [discriminate|]. cbv zeta.
  destruct (Update_reconciled_config evpool st evs) as (Hstate & _).
  assert (Hmark : forall ev, ev ∈ evs ->
    dbm.has (keyPending ev) (evidenceStore (Update_reconciled evpool st evs)) = false
    /\ dbm.has (keyCommitted ev) (evidenceStore (Update_reconciled evpool st evs)) = true).
  { unfold Update_reconciled. apply markEvidenceAsCommitted_store. exact Hok. }
  set (p3 := Update_reconciled evpool st evs) in *.
  destruct (_ && _).
  - destruct (removeExpiredPendingEvidence_config p3) as (Hst' & _).
    destruct (removeExpiredPendingEvidence_store p3) as (b & Hstore & Hb).
    destruct (removeExpiredPendingEvidence p3) as [[h t] p4]. cbn [snd] in *.
    intros [= <-].
    intros ev Hev. rewrite isPending_eq, isCommitted_eq, !Hok. pool_simpl.
    rewrite Hstore. unfold dbm.has. rewrite !get_write_cases.
    destruct (Hmark ev Hev) as [Hp Hc]. unfold dbm.has in Hp, Hc.
    rewrite (decide_False (P := keyCommitted ev ∈ b)).
    + split; [|exact Hc]. destruct (decide (keyPending ev ∈ b)); [reflexivity|exact Hp].
    + intros Hin. destruct (Hb _ Hin) as (v & Hv & _).
      apply pendingEntries_prefix in Hv as [_ Hpre].
      exact (keyCommitted_not_pending_prefix ev Hpre).
  - intros [= <-].
    intros ev Hev. rewrite isPending_eq, isCommitted_eq, !Hok. cbn [fst].
    apply Hmark, Hev.
Qed.

(** X8. When [Update] returns, the cached state is the state it was given,
    so a further [Update] returns exactly for a state of a strictly greater
    height and panics for any other, the same state included. *)
Theorem Update_successive_heights (evpool evpool' : Pool) (st : sm.State)
    (evs : list Evidence) :
  Update evpool st evs = Returns evpool' ->
  State evpool' = st
  /\ forall st' evs',
       ((exists evpool'', Update evpool' st' evs' = Returns evpool'') <->
        sm.LastBlockHeight st < sm.LastBlockHeight st')
       /\ ((exists msg, Update evpool' st' evs' = Panic msg) <->
           sm.LastBlockHeight st' <= sm.LastBlockHeight st).
Proof.
  intros Hu.
  assert (Hstate : state evpool' = st).
  { revert Hu. rewrite Update_eq. destruct (_ <=? _); [discriminate|]. cbv zeta.
    destruct (Update_reconciled_config evpool st evs) as (Hstate & _).
    set (p3 := Update_reconciled evpool st evs) in *.
    destruct (_ && _).
    - destruct (removeExpiredPendingEvidence_config p3) as (Hst' & _).
      destruct (removeExpiredPendingEvidence p3) as [[h t] p4]. cbn [snd] in *.
      intros [= <-]. pool_simpl. congruence.
    - intros [= <-]. exact Hstate. }
  split; [exact Hstate|]. intros st' evs'. rewrite (Update_eq evpool'), Hstate.
  destruct (Z.leb_spec (sm.LastBlockHeight st') (sm.LastBlockHeight st)) as [Hle|Hlt].
  - split; split.
    + intros [q Hq]. discriminate.
    + intros Hlt. lia.
    + intros _. exact Hle.
    + intros _. eexists. reflexivity.
  - cbv zeta. split; split.
    + intros _. exact Hlt.
    + intros _. destruct (_ && _);
        [destruct (removeExpiredPendingEvidence _) as [[? ?] ?]|]; eexists; reflexivity.
    + intros [msg Hm]. destruct (_ && _) in Hm;
        [destruct (removeExpiredPendingEvidence _) as [[? ?] ?]|]; discriminate.
    + intros Hle. lia.
Qed.

(** ** Pruning *)

Lemma ascending_unique {V : Type} (db : list (Key * V)) (k : Key) (v v' : V) :
  dbm.ascending db -> (k, v) ∈ db -> (k, v') ∈ db -> v = v'.
Proof.
  induction db as [|[k0 v0] db IH]; intros Hasc Hin Hin'; [inversion Hin|].
  apply ascending_cons in Hasc as [Hlt Hasc].
  apply elem_of_cons in Hin as [Heq|Hin];
    apply elem_of_cons in Hin' as [Heq'|Hin'].
  - congruence.
  - injection Heq as -> ->. apply Hlt in Hin'. rewrite compare_refl in Hin'.
    discriminate.
  - injection Heq' as -> ->. apply Hlt in Hin. rewrite compare_refl in Hin.
    discriminate.
  - apply IH; assumption.
Qed.

Lemma elem_write_intro {V : Type} (batch : list Key) (db : list (Key * V)) (k : Key)
    (v : V) :
  (k, v) ∈ db -> k ∉ batch -> (k, v) ∈ dbm.write batch db.
Proof.
  unfold dbm.write. revert db. induction batch as [|k0 batch IH]; intros db Hin Hb;
    simpl; [exact Hin|].
  apply not_elem_of_cons in Hb as [Hne Hb]. apply IH; [|exact Hb].
  unfold dbm.delete. apply list_elem_of_filter. split; [exact Hne|exact Hin].
Qed.

Lemma isExpired_same_state (p q : Pool) (height : Z) (t : time.Time) :
  state q = state p -> isExpired q height t = isExpired p height t.
Proof. intros Hst. unfold isExpired, State. rewrite Hst. reflexivity. Qed.

(** X9. Whatever the store's errors, [removeExpiredPendingEvidence] deletes
    from a store in key order only pending entries that decode to expired
    evidence: a pending entry that does not decode or whose evidence is not
    expired is still pending afterwards, and every entry that is not a
    pending one keeps its value. *)
Theorem removeExpiredPendingEvidence_keeps_unexpired (evpool : Pool) :
  dbm.ascending (evidenceStore evpool) ->
  (forall k v, (k, v) ∈ pendingEntries evpool -> expired_entry evpool (k, v) = false ->
     (k, v) ∈ pendingEntries (removeExpiredPendingEvidence evpool).2)
  /\ (forall k, ~ [Int64 prefixPending] `prefix_of` k ->
       dbm.get k (evidenceStore (removeExpiredPendingEvidence evpool).2)
       = dbm.get k (evidenceStore evpool))
  /\ (forall k v, (k, v) ∈ pendingEntries (removeExpiredPendingEvidence evpool).2 ->
       (k, v) ∈ pendingEntries evpool).
Proof.
  intros Hasc. destruct (removeExpiredPendingEvidence_store evpool) as (b & Hstore & Hb).
  split; [|split].
  - intros k v Hin Hexp. apply pendingEntries_prefix in Hin as Hin'.
    destruct Hin' as [Hdb Hpre].
    unfold pendingEntries, dbm.IteratePrefix. rewrite Hstore.
    apply list_elem_of_filter. split; [exact Hpre|].
    apply elem_write_intro; [exact Hdb|]. intros Hkb.
    destruct (Hb k Hkb) as (v' & Hv' & Hexp').
    apply pendingEntries_prefix in Hv' as [Hdb' _].
    rewrite (ascending_unique _ k v v' Hasc Hdb Hdb') in Hexp. congruence.
  - intros k Hpre. rewrite Hstore. apply get_write_notin. intros Hkb.
    destruct (Hb k Hkb) as (v' & Hv' & _).
    apply pendingEntries_prefix in Hv' as [_ Hpre']. contradiction.
  - intros k v Hin. unfold pendingEntries in *. rewrite Hstore in Hin.
    apply elem_IteratePrefix_write in Hin. tauto.
Qed.

Lemma take_drop_expired (p : Pool) (entries : list (Key * tmproto.Bytes)) :
  take_expired p entries ++ drop_expired p entries = entries.
Proof.
  induction entries as [|kv entries IH]; simpl; [reflexivity|].
  destruct (expired_entry p kv); simpl; [rewrite IH|]; reflexivity.
Qed.

Lemma write_filter {V : Type} (batch : list Key) (db : list (Key * V)) :
  dbm.write batch db = filter (fun kv => kv.1 ∉ batch) db.
Proof.
  unfold dbm.write. revert db. induction batch as [|k batch IH]; intros db; simpl.
  - symmetry. induction db as [|kv db IHdb]; [reflexivity|].
    rewrite filter_cons, decide_True by (intros Hin; inversion Hin).
    rewrite IHdb. reflexivity.
  - rewrite IH. unfold dbm.delete. rewrite list_filter_filter.
    apply list_filter_iff. intros kv. rewrite not_elem_of_cons. tauto.
Qed.

Lemma pendingEntries_write (batch : list Key) (db : list (Key * tmproto.Bytes)) :
  dbm.IteratePrefix (dbm.write batch db) [Int64 prefixPending]
  = filter (fun kv => kv.1 ∉ batch) (dbm.IteratePrefix db [Int64 prefixPending]).
Proof.
  unfold dbm.IteratePrefix. rewrite write_filter, !list_filter_filter.
  apply list_filter_iff. intros kv. tauto.
Qed.

Lemma ascending_app {V : Type} (l1 l2 : list (Key * V)) :
  dbm.ascending (l1 ++ l2) ->
  forall k1 v1 k2 v2, (k1, v1) ∈ l1 -> (k2, v2) ∈ l2 -> compare k1 k2 = Lt.
Proof.
  induction l1 as [|[k0 v0] l1 IH]; intros Hasc k1 v1 k2 v2 H1 H2; [inversion H1|].
  cbn [app] in Hasc. apply ascending_cons in Hasc as [Hlt Hasc].
  apply elem_of_cons in H1 as [Heq|H1].
  - injection Heq as -> ->. apply (Hlt k2 v2). apply elem_of_app. auto.
  - eapply IH; eassumption.
Qed.

Lemma filter_out_leading_keys {V : Type} (l1 l2 : list (Key * V)) :
  dbm.ascending (l1 ++ l2) ->
  filter (fun kv => kv.1 ∉ map fst l1) (l1 ++ l2) = l2.
Proof.
  intros Hasc. rewrite filter_app.
  assert (H1 : filter (fun kv : Key * V => kv.1 ∉ map fst l1) l1 = []).
  { assert (Hkeys : forall kv, kv ∈ l1 -> kv.1 ∈ map fst l1)
      by (intros kv Hin; apply (list_elem_of_fmap_2 fst l1 kv Hin)).
    revert Hkeys. generalize (map fst l1). intros keys Hkeys. clear Hasc.
    induction l1 as [|kv l1 IH]; [reflexivity|].
    rewrite filter_cons, decide_False.
    - apply IH. intros kv' Hin. apply Hkeys. apply elem_of_cons. auto.
    - intros Hnot. apply Hnot. apply Hkeys. apply elem_of_cons. auto. }
  assert (H2 : filter (fun kv : Key * V => kv.1 ∉ map fst l1) l2 = l2).
  { clear H1. pose proof (ascending_app l1 l2 Hasc) as Hsep. clear Hasc.
    induction l2 as [|[k v] l2 IH]; [reflexivity|].
    rewrite filter_cons. rewrite decide_True.
    - rewrite IH; [reflexivity|].
      intros k1 v1 k2 v2 Hin1 Hin2.
      apply (Hsep k1 v1 k2 v2 Hin1). apply elem_of_cons. auto.
    - cbn [fst]. intros Hin. apply list_elem_of_fmap in Hin as ([k1 v1] & Hk & Hin1).
      cbn [fst] in Hk. subst k1.
      assert (Hlt : compare k k = Lt)
        by (apply (Hsep k v1 k v Hin1); apply elem_of_cons; auto).
      rewrite compare_refl in Hlt. discriminate Hlt. }
  rewrite H1, H2. reflexivity.
Qed.

Lemma batchExpiredPendingEvidence_loop_exact (entries : list (Key * tmproto.Bytes))
    (p : Pool) (b : list Key) (m : gset string) :
  (forall key, fails (OpBatchDelete key) = false) ->
  Forall (fun kv => is_Some (bytesToEv kv.2)) entries ->
  exists (c : Z * time.Time) (m' : gset string),
    batchExpiredPendingEvidence_loop p entries b m
    = (c.1, c.2, m', b ++ map fst (take_expired p entries), p)
    /\ m ⊆ m'
    /\ (take_expired p entries <> [] -> m' <> ∅)
    /\ (take_expired p entries = [] -> m' = m)
    /\ (drop_expired p entries = [] ->
        c = (sm.LastBlockHeight (State p), sm.LastBlockTime (State p)))
    /\ (forall k v ev rest, drop_expired p entries = (k, v) :: rest ->
        bytesToEv v = Some ev ->
        let params := tmproto.Evidence (sm.ConsensusParams (State p)) in
        c = (int64.add (int64.add (Height ev) (tmproto.MaxAgeNumBlocks params)) 1,
             time.Add (time.Add (Time ev) (tmproto.MaxAgeDuration params))
               time.Second)).
Proof.
  intros Hok Hdec. revert b m.
  induction Hdec as [|[k v] entries [ev Hev] Hdec IH]; intros b m.
  - exists (sm.LastBlockHeight (State p), sm.LastBlockTime (State p)), m.
    cbn [batchExpiredPendingEvidence_loop take_expired drop_expired map fst snd].
    rewrite app_nil_r. repeat split; try reflexivity; congruence.
  - cbn [snd] in Hev.
    cbn [batchExpiredPendingEvidence_loop take_expired drop_expired].
    assert (Hee : expired_entry p (k, v) = isExpired p (Height ev) (Time ev))
      by (unfold expired_entry; cbn [snd]; rewrite Hev; reflexivity).
    rewrite !Hee. rewrite Hev.
    destruct (isExpired p (Height ev) (Time ev)) eqn:Hexp; cbn [negb].
    + unfold batch_Delete. rewrite Hok.
      destruct (IH (b ++ [k]) ({[evMapKey ev]} ∪ m))
        as (c & m' & Heq & Hsub & _ & _ & Hc1 & Hc2).
      exists c, m'. rewrite Heq. cbn [map fst]. rewrite <- app_assoc. cbn [app].
      split; [reflexivity|]. split; [set_solver|]. split; [set_solver|].
      split; [discriminate|]. split; assumption.
    + exists
        (int64.add (int64.add (Height ev)
           (tmproto.MaxAgeNumBlocks (tmproto.Evidence (sm.ConsensusParams (State p))))) 1,
         time.Add (time.Add (Time ev)
           (tmproto.MaxAgeDuration (tmproto.Evidence (sm.ConsensusParams (State p)))))
           time.Second), m.
      cbn [map fst snd]. rewrite app_nil_r.
      split; [reflexivity|]. split; [reflexivity|]. split; [congruence|].
      split; [reflexivity|]. split; [discriminate|].
      intros k' v' ev' rest Hcons Hev'. injection Hcons as -> -> ->.
      rewrite Hev in Hev'. injection Hev' as ->. reflexivity.
Qed.

(** X10. With a store that performs its operations and pending entries that
    all decode, [removeExpiredPendingEvidence] leaves in the pending set
    exactly the entries from the first unexpired one on, in key order, and
    returns as the next pruning height and time those at which that first
    entry expires, or the height and time of the state when no entry is
    left. *)
Theorem removeExpiredPendingEvidence_drops_expired_prefix (evpool : Pool) :
  (forall op, fails op = false) ->
  dbm.ascending (evidenceStore evpool) ->
  Forall (fun kv => is_Some (bytesToEv kv.2)) (pendingEntries evpool) ->
  pendingEntries (removeExpiredPendingEvidence evpool).2
  = drop_expired evpool (pendingEntries evpool)
  /\ (drop_expired evpool (pendingEntries evpool) = [] ->
      (removeExpiredPendingEvidence evpool).1
      = (sm.LastBlockHeight (State evpool), sm.LastBlockTime (State evpool)))
  /\ (forall k v ev rest,
      drop_expired evpool (pendingEntries evpool) = (k, v) :: rest ->
      bytesToEv v = Some ev ->
      let params := tmproto.Evidence (sm.ConsensusParams (State evpool)) in
      (removeExpiredPendingEvidence evpool).1
      = (int64.add (int64.add (Height ev) (tmproto.MaxAgeNumBlocks params)) 1,
         time.Add (time.Add (Time ev) (tmproto.MaxAgeDuration params)) time.Second)).
Proof.
  intros Hok Hasc Hdec.
  assert (Hpasc : dbm.ascending (pendingEntries evpool))
    by (apply IteratePrefix_ascending; exact Hasc).
  unfold removeExpiredPendingEvidence, batchExpiredPendingEvidence, store_IteratePrefix.
  rewrite Hok.
  change (dbm.IteratePrefix (evidenceStore evpool) (prefixToBytes prefixPending))
    with (pendingEntries evpool).
  destruct (batchExpiredPendingEvidence_loop_exact (pendingEntries evpool) evpool [] ∅
              (fun key => Hok _) Hdec)
    as ([h t] & m' & Heq & _ & Hne & Hnil & Hc1 & Hc2).
  rewrite Heq. cbn [fst snd app] in *.
  pose proof (take_drop_expired evpool (pendingEntries evpool)) as Htd.
  destruct (take_expired evpool (pendingEntries evpool)) as [|kv tk] eqn:Htk.
  - rewrite (Hnil eq_refl). rewrite size_empty. cbn [Nat.eqb fst snd].
    cbn [app] in Htd. rewrite Htd at 1. split; [reflexivity|]. split; assumption.
  - assert (Hsize : size m' <> 0%nat).
    { intros Hz. apply size_empty_inv in Hz. apply Hne; [discriminate|].
      apply leibniz_equiv. exact Hz. }
    apply Nat.eqb_neq in Hsize. rewrite Hsize.
    unfold batch_WriteSync. rewrite Hok. pool_simpl. cbn [fst snd].
    split; [|split; assumption].
    unfold pendingEntries at 1. unfold removeEvidenceFromList. pool_simpl.
    rewrite pendingEntries_write.
    change (dbm.IteratePrefix (evidenceStore evpool) [Int64 prefixPending])
      with (pendingEntries evpool).
    rewrite <- Htd at 1. apply filter_out_leading_keys. rewrite Htd. exact Hpasc.
Qed.

(** *** The order of the listing *)

Lemma ascending_lookup {V : Type} (l : list (Key * V)) (i j : nat)
    (k1 k2 : Key) (v1 v2 : V) :
  dbm.ascending l -> (i < j)%nat ->
  l !! i = Some (k1, v1) -> l !! j = Some (k2, v2) -> compare k1 k2 = Lt.
Proof.
  revert i j. induction l as [|[k v] l IH]; intros i j Hasc Hij Hi Hj;
    [discriminate Hi|].
  apply ascending_cons in Hasc as [Hlt Hasc].
  destruct j as [|j]; [lia|]. cbn [lookup list_lookup] in Hj.
  destruct i as [|i].
  - injection Hi as -> ->. apply (Hlt k2 v2). eapply list_elem_of_lookup_2, Hj.
  - cbn [lookup list_lookup] in Hi. apply (IH i j); [exact Hasc|lia|exact Hi|exact Hj].
Qed.

Lemma pending_wf_entries (entries : list (Key * tmproto.Bytes)) :
  (forall k v, (k, v) ∈ entries ->
     exists ev, v = tmproto.EvidenceBytes ev /\ k = keyPending ev) ->
  exists evs,
    entries = map (fun ev => (keyPending ev, tmproto.EvidenceBytes ev)) evs.
Proof.
  induction entries as [|[k v] entries IH]; intros Hwf.
  - exists []. reflexivity.
  - destruct (Hwf k v) as (ev & -> & ->); [apply elem_of_cons; auto|].
    destruct IH as (evs & ->).
    + intros k' v' Hin. apply Hwf. apply elem_of_cons. auto.
    + exists (ev :: evs). reflexivity.
Qed.

Lemma keyPending_lt (a b : Evidence) :
  compare (keyPending a) (keyPending b) = Lt ->
  Height a < Height b
  \/ (Height a = Height b /\ String.compare (Hash a) (Hash b) = Lt).
Proof.
  unfold keyPending, Append.
  cbn [app compare item_compare]. rewrite Z.compare_refl.
  destruct (Z.compare_spec (Height a) (Height b)) as [Heq|Hlt|Hgt];
    [|auto|discriminate].
  destruct (String.compare (Hash a) (Hash b)); try discriminate. auto.
Qed.

(** X11. [listEvidence] lists "from oldest to newest": when the store is in
    key order and every pending entry holds an item under the pending key of
    that item, the items that [listEvidence] and [PendingEvidence] return
    come in strictly increasing key order, that is by increasing height,
    and by increasing hash within a height. *)
Theorem PendingEvidence_oldest_first (evpool : Pool) (maxBytes : Z) :
  dbm.ascending (evidenceStore evpool) ->
  pending_wf evpool ->
  forall out,
    out = (listEvidence evpool prefixPending maxBytes).1.1
    \/ out = (PendingEvidence evpool maxBytes).1.1 ->
    forall (i j : nat) (a b : Evidence),
      (i < j)%nat -> out !! i = Some a -> out !! j = Some b ->
      Height a < Height b
      \/ (Height a = Height b /\ String.compare (Hash a) (Hash b) = Lt).
Proof.
  intros Hasc Hwf out Hout i j a b Hij Ha Hb.
  destruct (pending_wf_entries (pendingEntries evpool) Hwf) as (evs & Hevs).
  assert (Hpre : out `prefix_of` evs).
  { assert (Hl : (listEvidence evpool prefixPending maxBytes).1.1 `prefix_of` evs).
    { unfold listEvidence, store_IteratePrefix.
      destruct (fails (OpIteratePrefix _)); [apply prefix_nil|].
      change (dbm.IteratePrefix (evidenceStore evpool) (prefixToBytes prefixPending))
        with (pendingEntries evpool).
      change 0 with (EvidenceList_Size []).
      rewrite (listEvidence_loop_fitting maxBytes _ evs).
      - cbn [fst app]. apply fitting_prefix_prefix.
      - rewrite Hevs, !map_map. reflexivity. }
    destruct Hout as [->| ->]; [exact Hl|].
    unfold PendingEvidence. destruct (Size evpool =? 0); [apply prefix_nil|].
    destruct (listEvidence evpool prefixPending maxBytes) as [[out n] err].
    exact Hl. }
  apply keyPending_lt.
  apply (ascending_lookup (pendingEntries evpool) i j _ _
           (tmproto.EvidenceBytes a) (tmproto.EvidenceBytes b)).
  - apply IteratePrefix_ascending, Hasc.
  - exact Hij.
  - rewrite Hevs, list_lookup_fmap.
    rewrite (prefix_lookup_Some _ _ _ _ Ha Hpre). reflexivity.
  - rewrite Hevs, list_lookup_fmap.
    rewrite (prefix_lookup_Some _ _ _ _ Hb Hpre). reflexivity.
Qed.

(** *** Entries that do not decode, and caps below [-1] *)

Lemma listEvidence_loop_decoded (iterErr : option error) (evs : list Evidence)
    (pre rest : list (Key * tmproto.Bytes)) (evList : list tmproto.EvidencePb)
    (evidence : list Evidence) :
  map snd pre = map tmproto.EvidenceBytes evs ->
  listEvidence_loop (-1) iterErr (pre ++ rest) evList (EvidenceList_Size evList)
    evidence
  = listEvidence_loop (-1) iterErr rest (evList ++ map tmproto.PbOf evs)
      (EvidenceList_Size (evList ++ map tmproto.PbOf evs)) (evidence ++ evs).
Proof.
  revert pre evList evidence.
  induction evs as [|ev evs IH]; intros [|[k v] pre] evList evidence Hmap;
    try discriminate.
  - cbn [app map]. rewrite !app_nil_r. reflexivity.
  - injection Hmap as Hv Hmap. cbn [snd] in Hv. subst v.
    cbn [app listEvidence_loop tmproto.Unmarshal tmproto.EvidenceFromProto].
    cbv zeta. cbn [Z.eqb negb andb].
    rewrite (IH pre _ _ Hmap). cbn [map]. rewrite <- !app_assoc. reflexivity.
Qed.

Lemma EvidenceList_Size_PbOf (evs : list Evidence) :
  EvidenceList_Size (map tmproto.PbOf evs) = aggregateSize evs.
Proof. reflexivity. Qed.

(** X12. An entry that does not decode ends an uncapped listing with an
    error, and the two decoding steps differ in what is returned with it:
    when the bytes are no protobuf message, the items listed before the
    entry are returned; when the message is no valid evidence, no item is
    returned. The size returned is that of the items before the entry. *)
Theorem listEvidence_stops_at_undecodable (evpool : Pool) (prefixKey : Z)
    (pre post : list (Key * tmproto.Bytes)) (k : Key) (v : tmproto.Bytes)
    (evs : list Evidence) :
  fails (OpIteratePrefix (prefixToBytes prefixKey)) = false ->
  dbm.IteratePrefix (evidenceStore evpool) (prefixToBytes prefixKey)
  = pre ++ (k, v) :: post ->
  map snd pre = map tmproto.EvidenceBytes evs ->
  bytesToEv v = None ->
  exists err,
    listEvidence evpool prefixKey (-1)
    = (match tmproto.Unmarshal v with None => evs | Some _ => [] end,
       aggregateSize evs, Some err).
Proof.
  intros Hok Hentries Hpre Hv. unfold listEvidence, store_IteratePrefix.
  rewrite Hok, Hentries. change 0 with (EvidenceList_Size []).
  rewrite (listEvidence_loop_decoded _ evs pre _ _ _ Hpre). cbn [app].
  rewrite EvidenceList_Size_PbOf. cbn [listEvidence_loop].
  unfold bytesToEv in Hv. destruct (tmproto.Unmarshal v) as [evpb|].
  - cbv zeta. cbn [Z.eqb negb andb]. rewrite Hv. eexists. reflexivity.
  - eexists. reflexivity.
Qed.

(** X13. Only the cap [-1] stands for "no cap": with any other negative cap,
    sizes being non-negative, [listEvidence] returns no item and size [0],
    whatever the store holds. *)
Theorem listEvidence_negative_cap_lists_nothing (evpool : Pool)
    (prefixKey maxBytes : Z) :
  (forall evpb, 0 <= ProtoSize evpb) ->
  maxBytes < -1 ->
  (listEvidence evpool prefixKey maxBytes).1 = ([], 0).
Proof.
  intros Hpos Hneg. unfold listEvidence, store_IteratePrefix.
  destruct (fails (OpIteratePrefix _)); [reflexivity|].
  destruct (dbm.IteratePrefix _ _) as [|[k v] entries]; [reflexivity|].
  cbn [listEvidence_loop]. destruct (tmproto.Unmarshal v) as [evpb|]; [|reflexivity].
  cbv zeta. cbn [app]. unfold EvidenceList_Size. cbn [foldr].
  specialize (Hpos evpb).
  destruct (Z.eqb_spec maxBytes (-1)) as [Heq|_]; [lia|].
  destruct (Z.ltb_spec maxBytes (ProtoSize evpb + 0)) as [_|Hge]; [|lia].
  reflexivity.
Qed.

(** *** Opening a pool *)

Lemma listEvidence_loop_all (iterErr : option error)
    (entries : list (Key * tmproto.Bytes)) (evList : list tmproto.EvidencePb)
    (totalSize : Z) (evidence out : list Evidence) (n : Z) :
  listEvidence_loop (-1) iterErr entries evList totalSize evidence = (out, n, None) ->
  out = evidence ++ omap (fun kv => bytesToEv kv.2) entries
  /\ Forall (fun kv => is_Some (bytesToEv kv.2)) entries.
Proof.
  revert evList totalSize evidence.
  induction entries as [|[k v] entries IH]; intros evList totalSize evidence;
    cbn [listEvidence_loop].
  - intros [= <- _ _]. rewrite app_nil_r. split; [reflexivity|constructor].
  - destruct (tmproto.Unmarshal v) as [evpb|] eqn:Hu; [|discriminate].
    cbv zeta. cbn [Z.eqb negb andb].
    destruct (tmproto.EvidenceFromProto evpb) as [ev|] eqn:Hev; [|discriminate].
    assert (Hdec : bytesToEv v = Some ev)
      by (unfold bytesToEv; rewrite Hu; exact Hev).
    intros Hloop. apply IH in Hloop as [-> Hall]. rewrite <- app_assoc.
    split.
    + cbn [omap list_omap snd]. rewrite Hdec. reflexivity.
    + constructor; [|exact Hall]. cbn [snd]. rewrite Hdec. eexists. reflexivity.
Qed.

Lemma fold_PushBack (evs : list Evidence) (p : Pool) :
  fold_left (fun p ev => PushBack ev p) evs p
  = with_evidenceList (evidenceList p ++ evs) p.
Proof.
  revert p. induction evs as [|ev evs IH]; intros p; cbn [fold_left].
  - rewrite app_nil_r. destruct p. reflexivity.
  - rewrite IH. unfold PushBack. pool_simpl. rewrite <- app_assoc. reflexivity.
Qed.

Lemma removeExpiredPendingEvidence_empty_list (evpool : Pool) :
  evidenceList evpool = [] ->
  evidenceList (removeExpiredPendingEvidence evpool).2 = [].
Proof.
  intros Hnil. unfold removeExpiredPendingEvidence.
  destruct (batchExpiredPendingEvidence_frame evpool []) as [(Hl & _) _].
  destruct (batchExpiredPendingEvidence evpool []) as [[[[h t] m1] b1] p1].
  cbn [fst snd] in Hl. rewrite Hnil in Hl.
  destruct (Nat.eqb (size m1) 0); cbn [snd]; [exact Hl|].
  unfold batch_WriteSync. destruct (fails OpBatchWriteSync); pool_simpl;
    [exact Hl|]. rewrite Hl. reflexivity.
Qed.

(** X14. The pool that [NewPool] returns holds the state it loaded, an empty
    consensus buffer, and a store whose entries are entries of the given
    database; all its pending entries decode, its broadcast list is the
    pending evidence in key order, and its size counter is the number of
    pending entries on 32 bits, whatever the scan for expired evidence did
    to the counter before. *)
Theorem NewPool_loads_pending_evidence (lg : log.Logger)
    (evidenceDB : list (Key * tmproto.Bytes)) (stateDB_ : sm.Store)
    (blockStore_ : BlockStore) (pool : Pool) :
  NewPool lg evidenceDB stateDB_ blockStore_ = inr pool ->
  sm.Load stateDB_ = inr (State pool)
  /\ stateDB pool = stateDB_ /\ blockStore pool = blockStore_
  /\ consensusBuffer pool = []
  /\ (forall k v, (k, v) ∈ evidenceStore pool -> (k, v) ∈ evidenceDB)
  /\ Forall (fun kv => is_Some (bytesToEv kv.2)) (pendingEntries pool)
  /\ evidenceList pool = pendingEvidence pool
  /\ Size pool = uint32.wrap (Z.of_nat (length (pendingEntries pool))).
Proof.
  unfold NewPool. destruct (sm.Load stateDB_) as [err|st]; [discriminate|].
  set (pool0 := mkPool lg evidenceDB [] 0 stateDB_ blockStore_ st [] 0 0).
  destruct (removeExpiredPendingEvidence_config pool0)
    as (Hst & Hbuf & _ & _ & Hsdb & Hbs).
  destruct (removeExpiredPendingEvidence_store pool0) as (b & Hstore & _).
  pose proof (removeExpiredPendingEvidence_empty_list pool0 eq_refl) as Hlist.
  destruct (removeExpiredPendingEvidence pool0) as [[h t] p1].
  cbn [fst snd] in Hst, Hbuf, Hsdb, Hbs, Hstore, Hlist.
  unfold listEvidence, store_IteratePrefix.
  destruct (fails (OpIteratePrefix _)); [discriminate|]. pool_simpl.
  change (dbm.IteratePrefix (evidenceStore p1) (prefixToBytes prefixPending))
    with (pendingEntries p1).
  destruct (listEvidence_loop _ _ _ _ _ _) as [[evList n] [err|]] eqn:Hloop;
    [discriminate|].
  apply listEvidence_loop_all in Hloop as [-> Hall]. cbn [app] in *.
  intros [= <-]. rewrite fold_PushBack. unfold State, Size, atomic.LoadUint32,
    atomic.StoreUint32, pendingEvidence, pendingEntries in *. pool_simpl.
  rewrite Hst, Hbuf, Hsdb, Hbs, Hlist. cbn [app].
  split; [reflexivity|]. split; [reflexivity|]. split; [reflexivity|].
  split; [reflexivity|]. split.
  { intros k v Hin. rewrite Hstore in Hin. apply elem_write in Hin. tauto. }
  split; [exact Hall|]. split; [reflexivity|].
  f_equal. f_equal. clear -Hall. induction Hall as [|kv l [ev Hev] Hall IH];
    [reflexivity|]. cbn [omap list_omap length]. rewrite Hev. cbn [length].
  rewrite IH. reflexivity.
Qed.

(** *** The invariants under [AddEvidence] *)

Lemma set_absent_Permutation {V : Type} (db : list (Key * V)) (k : Key) (v : V) :
  dbm.get k db = None -> dbm.set k v db ≡ₚ (k, v) :: db.
Proof.
  induction db as [|[k0 v0] db IH]; cbn [dbm.get dbm.set]; [reflexivity|].
  destruct (decide (k0 = k)) as [->|Hne]; [discriminate|]. intros Hget.
  destruct (compare k k0) eqn:Hc.
  - apply compare_eq in Hc. congruence.
  - reflexivity.
  - rewrite (IH Hget). apply Permutation_swap.
Qed.

Lemma pendingEntries_set_new (db : list (Key * tmproto.Bytes)) (ev : Evidence)
    (v : tmproto.Bytes) :
  dbm.has (keyPending ev) db = false ->
  dbm.IteratePrefix (dbm.set (keyPending ev) v db) [Int64 prefixPending]
  ≡ₚ (keyPending ev, v) :: dbm.IteratePrefix db [Int64 prefixPending].
Proof.
  intros Hhas. unfold dbm.IteratePrefix. rewrite set_absent_Permutation.
  - rewrite filter_cons, decide_True; [reflexivity|].
    exists [Int64 (Height ev); Str (Hash ev)]. reflexivity.
  - unfold dbm.has in Hhas. destruct (dbm.get _ db); [discriminate|reflexivity].
Qed.

(** X15. With a store that answers the membership tests and a size counter
    below its maximum, [AddEvidence] preserves the invariants of the pool
    whatever it returns: no item is both pending and committed, the
    broadcast list holds the pending evidence, and the size counter is the
    number of pending entries. *)
Theorem AddEvidence_preserves_invariants (evpool : Pool) (ev : Evidence) :
  (forall key, fails (OpHas key) = false) ->
  Size evpool + 1 < uint32.modulus ->
  I1_disjoint evpool /\ I2_list_is_pending evpool /\ I3_size_is_pending evpool ->
  I1_disjoint (AddEvidence evpool ev).2
  /\ I2_list_is_pending (AddEvidence evpool ev).2
  /\ I3_size_is_pending (AddEvidence evpool ev).2.
Proof.
  intros Hok Hroom (H1 & H2 & H3).
  rewrite (AddEvidence_eq evpool ev Hok). cbv zeta. pool_simpl.
  unfold I1_disjoint, I2_list_is_pending, I3_size_is_pending, pendingEvidence,
    pendingEntries, Size, atomic.LoadUint32 in *.
  destruct (dbm.has (keyPending ev) (evidenceStore evpool)) eqn:Hp;
    [pool_simpl; auto|].
  destruct (dbm.has (keyCommitted ev) (evidenceStore evpool)) eqn:Hc;
    [pool_simpl; auto|].
  destruct (verify _ ev); [pool_simpl; auto|].
  destruct (fails (OpSet (keyPending ev))); [pool_simpl; auto|]. pool_simpl.
  pose proof (pendingEntries_set_new (evidenceStore evpool) ev
                (tmproto.EvidenceBytes ev) Hp) as Hperm.
  split; [|split].
  - intros e [Hpe Hce].
    rewrite has_set_ne in Hce by apply keyPending_neq_keyCommitted.
    destruct (decide (keyPending ev = keyPending e)) as [Heq|Hne].
    + assert (Hk : keyCommitted e = keyCommitted ev)
        by (apply keyCommitted_inj; symmetry; exact Heq).
      rewrite Hk, Hc in Hce. discriminate.
    + rewrite has_set_ne in Hpe by exact Hne. apply (H1 e). auto.
  - rewrite Hperm. cbn [omap list_omap snd bytesToEv tmproto.Unmarshal
      tmproto.EvidenceFromProto map]. rewrite map_app. cbn [map].
    rewrite <- Permutation_cons_append. constructor. exact H2.
  - rewrite Hperm. cbn [length]. unfold atomic.AddUint32, uint32.wrap.
    rewrite Z.mod_small; lia.
Qed.

(** *** A failing membership test *)

Lemma set_present_keys {V : Type} (db : list (Key * V)) (k : Key) (v : V) :
  dbm.ascending db -> dbm.has k db = true ->
  map fst (dbm.set k v db) = map fst db.
Proof.
  unfold dbm.has. induction db as [|[k0 v0] db IH]; cbn [dbm.get dbm.set];
    [discriminate|].
  intros Hasc Hhas. apply ascending_cons in Hasc as [Hlt Hasc].
  destruct (compare k k0) eqn:Hc.
  - apply compare_eq in Hc. subst k0. reflexivity.
  - destruct (decide (k0 = k)) as [->|Hne];
      [rewrite compare_refl in Hc; discriminate|].
    destruct (dbm.get k db) as [v1|] eqn:Hget; [|discriminate].
    apply get_Some_elem in Hget. apply Hlt in Hget.
    rewrite compare_antisym, Hget in Hc. discriminate.
  - destruct (decide (k0 = k)) as [->|Hne];
      [rewrite compare_refl in Hc; discriminate|].
    cbn [map fst]. rewrite (IH Hasc Hhas). reflexivity.
Qed.

Lemma IteratePrefix_keys {V : Type} (db db' : list (Key * V)) (p : Key) :
  map fst db' = map fst db ->
  map fst (dbm.IteratePrefix db' p) = map fst (dbm.IteratePrefix db p).
Proof.
  unfold dbm.IteratePrefix. revert db'.
  induction db as [|[k v] db IH]; intros [|[k' v'] db'] Hkeys; try discriminate;
    [reflexivity|].
  injection Hkeys as Hk Hkeys. cbn [fst] in Hk. subst k'.
  rewrite !filter_cons. cbn [fst].
  destruct (decide (p `prefix_of` k)); cbn [map fst]; rewrite (IH db' Hkeys);
    reflexivity.
Qed.

(** X16. [isPending] answers "not pending" when the store's [Has] fails.
    [AddEvidence] of an item that is pending then adds it a second time:
    with the item not found committed, accepted by the verifier and written
    by the store, whose entries are in key order, the call returns no
    error, the store has the same keys as before, and yet the size counter
    is incremented and the item is appended to the broadcast list once
    more. *)
Theorem AddEvidence_failing_Has_adds_pending_again (evpool : Pool) (ev : Evidence) :
  fails (OpHas (keyPending ev)) = true ->
  (isCommitted evpool ev).1 = false ->
  verify evpool ev = None ->
  fails (OpSet (keyPending ev)) = false ->
  dbm.ascending (evidenceStore evpool) ->
  dbm.has (keyPending ev) (evidenceStore evpool) = true ->
  (AddEvidence evpool ev).1 = None
  /\ map fst (evidenceStore (AddEvidence evpool ev).2)
     = map fst (evidenceStore evpool)
  /\ map fst (pendingEntries (AddEvidence evpool ev).2)
     = map fst (pendingEntries evpool)
  /\ evidenceList (AddEvidence evpool ev).2 = evidenceList evpool ++ [ev]
  /\ Size (AddEvidence evpool ev).2 = uint32.wrap (Size evpool + 1).
Proof.
  intros Hfail Hc Hv Hset Hasc Hp. unfold AddEvidence. cbv zeta.
  rewrite isPending_eq, Hfail.
  set (p1 := logf log.Error "failed to find pending evidence"
               (logf log.Debug "attempting to add evidence" evpool)).
  assert (Hm1 : same_memory evpool p1).
  { eapply same_memory_trans; apply same_memory_logf. }
  assert (Hs1 : evidenceStore p1 = evidenceStore evpool) by reflexivity.
  assert (Hc1 : (isCommitted p1 ev).1 = false).
  { rewrite isCommitted_eq in Hc |- *. rewrite Hs1.
    destruct (fails (OpHas (keyCommitted ev))); exact Hc. }
  destruct (isCommitted_frame p1 ev) as [Hm2 Hs2].
  destruct (isCommitted p1 ev) as [committed p2]. cbn [fst snd] in Hc1, Hm2, Hs2.
  subst committed.
  assert (Hm : same_memory evpool p2)
    by (eapply same_memory_trans; [exact Hm1|exact Hm2]).
  rewrite (verify_same_memory evpool p2 ev Hm), Hv.
  unfold addPendingEvidence, store_Set. rewrite Hset.
  destruct Hm as (Hl & Hsz & _).
  assert (Hkeys : map fst (dbm.set (keyPending ev) (tmproto.EvidenceBytes ev)
                             (evidenceStore p2)) = map fst (evidenceStore evpool)).
  { rewrite Hs2, Hs1. apply set_present_keys; assumption. }
  unfold Size, atomic.LoadUint32, pendingEntries. pool_simpl.
  split; [reflexivity|]. split; [exact Hkeys|].
  split; [apply IteratePrefix_keys; exact Hkeys|].
  rewrite Hl, Hsz. split; reflexivity.
Qed.

(** *** Keys *)

(** X17. The keys of the two sets: a pending key and a committed key each
    determine the height and the hash of the item and nothing more, no
    pending key is a committed key, an iteration over one prefix meets the
    keys of that set only, and every committed key sorts before every
    pending key. *)
Theorem keys_separate_pending_and_committed (a b : Evidence) :
  (keyPending a = keyPending b <-> Height a = Height b /\ Hash a = Hash b)
  /\ (keyCommitted a = keyCommitted b <-> Height a = Height b /\ Hash a = Hash b)
  /\ keyPending a <> keyCommitted b
  /\ prefixToBytes prefixPending `prefix_of` keyPending a
  /\ ~ prefixToBytes prefixPending `prefix_of` keyCommitted a
  /\ prefixToBytes prefixCommitted `prefix_of` keyCommitted a
  /\ ~ prefixToBytes prefixCommitted `prefix_of` keyPending a
  /\ compare (keyCommitted a) (keyPending b) = Lt.
Proof.
  split; [apply keyPending_inj|].
  split; [rewrite keyCommitted_inj; apply keyPending_inj|].
  split; [apply keyPending_neq_keyCommitted|].
  split; [exists [Int64 (Height a); Str (Hash a)]; reflexivity|].
  split; [apply keyCommitted_not_pending_prefix|].
  split; [exists [Int64 (Height a); Str (Hash a)]; reflexivity|].
  split; [|reflexivity].
  intros [rest Hr]. unfold keyPending, prefixToBytes, Append in Hr.
  cbn [app] in Hr. discriminate Hr.
Qed.

(** *** Expiry over time *)

Lemma time_Sub_mono (t1 t2 u : time.Time) :
  t1 <= t2 -> time.Sub t1 u <= time.Sub t2 u.
Proof.
  intros Hle. unfold time.Sub, time.minDuration, time.maxDuration, int64.min,
    int64.max.
  destruct (Z.ltb_spec (t1 - u) (- 2 ^ 63)), (Z.ltb_spec (t2 - u) (- 2 ^ 63)),
    (Z.ltb_spec (2 ^ 63 - 1) (t1 - u)), (Z.ltb_spec (2 ^ 63 - 1) (t2 - u)); lia.
Qed.

(** X18. Expired evidence stays expired: when the state moves to a height
    and a time that are not smaller, under the same consensus parameters
    and without overflow of the two height differences, an item that was
    expired is expired still. The saturation of the time difference keeps
    this true for any times. *)
Theorem isExpired_stays_expired (evpool evpool' : Pool) (height : Z)
    (t : time.Time) :
  sm.ConsensusParams (state evpool') = sm.ConsensusParams (state evpool) ->
  sm.LastBlockHeight (state evpool) <= sm.LastBlockHeight (state evpool') ->
  sm.LastBlockTime (state evpool) <= sm.LastBlockTime (state evpool') ->
  int64.InRange (sm.LastBlockHeight (state evpool) - height) ->
  int64.InRange (sm.LastBlockHeight (state evpool') - height) ->
  isExpired evpool height t = true -> isExpired evpool' height t = true.
Proof.
  intros Hparams Hh Ht Hr Hr'. rewrite !isExpired_unfold. unfold int64.sub.
  rewrite !int64_wrap_id by assumption. rewrite Hparams.
  pose proof (time_Sub_mono _ _ t Ht). lia.
Qed.

(** *** Votes reported by consensus *)

Lemma processConsensusBuffer_step_store (st : sm.State) (p : Pool)
    (voteSet : duplicateVoteSet) :
  evidenceStore (processConsensusBuffer_step st p voteSet) = evidenceStore p
  \/ exists d,
       evidenceStore (processConsensusBuffer_step st p voteSet)
       = dbm.set (keyPending d) (tmproto.EvidenceBytes d) (evidenceStore p).
Proof.
  unfold processConsensusBuffer_step.
  destruct (formDuplicateVoteEvidence p st voteSet) as [[dve|] p1] eqn:Hform.
  - apply formDuplicateVoteEvidence_Some in Hform. subst p1.
    unfold isPending, isCommitted, store_Has, addPendingEvidence, store_Set.
    repeat (match goal with |- context [if ?c then _ else _] => destruct c end;
            cbv beta iota zeta; pool_simpl);
      first [left; reflexivity | right; eexists; reflexivity].
  - left. unfold formDuplicateVoteEvidence in Hform.
    repeat (match type of Hform with context [if ?c then _ else _] => destruct c end);
      try discriminate;
      repeat (match type of Hform with context [match ?c with _ => _ end] =>
                destruct c end);
      try discriminate; injection Hform as <-; reflexivity.
Qed.

Lemma pending_wf_set (p q : Pool) (d : Evidence) :
  evidenceStore q = dbm.set (keyPending d) (tmproto.EvidenceBytes d) (evidenceStore p) ->
  pending_wf p -> pending_wf q.
Proof.
  intros Hq Hwf k v Hin. apply pendingEntries_prefix in Hin as [Hin Hpre].
  rewrite Hq in Hin. apply elem_set in Hin as [Heq|Hin].
  - injection Heq as -> ->. eauto.
  - apply Hwf. unfold pendingEntries, dbm.IteratePrefix.
    apply list_elem_of_filter. auto.
Qed.

Lemma pending_wf_same_store (p q : Pool) :
  evidenceStore q = evidenceStore p -> pending_wf p -> pending_wf q.
Proof. unfold pending_wf, pendingEntries. intros ->. auto. Qed.

Lemma processConsensusBuffer_fold_wf (st : sm.State) (buffer : list duplicateVoteSet)
    (p : Pool) :
  pending_wf p -> pending_wf (fold_left (processConsensusBuffer_step st) buffer p).
Proof.
  revert p. induction buffer as [|voteSet buffer IH]; intros p Hwf; cbn [fold_left];
    [exact Hwf|].
  apply IH. destruct (processConsensusBuffer_step_store st p voteSet) as [Hs|[d Hs]].
  - eapply pending_wf_same_store; eassumption.
  - eapply pending_wf_set; eassumption.
Qed.

Lemma markEvidenceAsCommitted_pending_subset (p : Pool) (evidence : list Evidence)
    (height : Z) (k : Key) (v : tmproto.Bytes) :
  (k, v) ∈ pendingEntries (markEvidenceAsCommitted p evidence height) ->
  (k, v) ∈ pendingEntries p.
Proof.
  unfold markEvidenceAsCommitted.
  pose proof (markEvidenceAsCommitted_loop_pending height evidence p [] ∅) as Hloop.
  destruct (fold_left _ evidence _) as [[p1 b1] m1]. cbn [fst] in Hloop.
  destruct (Nat.eqb _ 0); [rewrite Hloop; auto|].
  unfold batch_WriteSync. destruct (fails OpBatchWriteSync).
  - unfold pendingEntries in *. pool_simpl. rewrite Hloop. auto.
  - unfold pendingEntries in *. pool_simpl. intros Hin.
    apply elem_IteratePrefix_write in Hin as [Hin _]. rewrite <- Hloop. exact Hin.
Qed.

(** The pool when [Update] reaches its pruning step, after votes of the new
    height were reported: the evidence formed from them is pending or
    committed, and the pending entries are well formed. *)
Lemma Update_reconciled_reported (evpool : Pool) (st : sm.State)
    (voteA voteB : Vote) (evs : list Evidence) :
  (forall op, fails op = false) ->
  pending_wf evpool ->
  Vote_Height voteA = sm.LastBlockHeight st ->
  let dve :=
    NewDuplicateVoteEvidence voteA voteB (sm.LastBlockTime st) (sm.LastValidators st) in
  let p3 := Update_reconciled (ReportConflictingVotes evpool voteA voteB) st evs in
  (dbm.has (keyPending dve) (evidenceStore p3) = true
   \/ dbm.has (keyCommitted dve) (evidenceStore p3) = true)
  /\ pending_wf p3.
Proof.
  intros Hok Hwf Hh dve p3. subst p3. unfold Update_reconciled.
  set (p0 := logf log.Debug "updating evidence pool"
               (ReportConflictingVotes evpool voteA voteB)).
  assert (Hpcb :
    (dbm.has (keyPending dve) (evidenceStore (processConsensusBuffer p0 st)) = true
     \/ dbm.has (keyCommitted dve) (evidenceStore (processConsensusBuffer p0 st)) = true)
    /\ pending_wf (processConsensusBuffer p0 st)).
  { unfold processConsensusBuffer.
    change (consensusBuffer p0)
      with (consensusBuffer evpool ++ [mkDuplicateVoteSet voteA voteB]).
    rewrite fold_left_app. cbn [fold_left].
    set (p1 := fold_left (processConsensusBuffer_step st) (consensusBuffer evpool) p0).
    assert (Hwf1 : pending_wf p1)
      by (apply processConsensusBuffer_fold_wf; exact Hwf).
    assert (Hform : formDuplicateVoteEvidence p1 st (mkDuplicateVoteSet voteA voteB)
                    = (Some dve, p1)).
    { unfold formDuplicateVoteEvidence. cbn [VoteA VoteB].
      rewrite Hh, Z.eqb_refl. reflexivity. }
    split.
    - change (evidenceStore (with_consensusBuffer [] ?q)) with (evidenceStore q).
      destruct (dbm.has (keyPending dve) (evidenceStore p1)) eqn:Hp.
      { left. rewrite (proj2 (processConsensusBuffer_step_seen p1 st _ dve Hform
                                (Hok _) (Hok _) (or_introl Hp))). exact Hp. }
      destruct (dbm.has (keyCommitted dve) (evidenceStore p1)) eqn:Hc.
      { right. rewrite (proj2 (processConsensusBuffer_step_seen p1 st _ dve Hform
                                 (Hok _) (Hok _) (or_intror Hc))). exact Hc. }
      left. destruct (processConsensusBuffer_step_new p1 st _ dve Hform (Hok _) Hp Hc)
        as (Hs & _).
      rewrite Hs. apply has_set_eq.
    - apply (pending_wf_same_store
               (processConsensusBuffer_step st p1 (mkDuplicateVoteSet voteA voteB)));
        [reflexivity|].
      destruct (processConsensusBuffer_step_store st p1 (mkDuplicateVoteSet voteA voteB))
        as [Hs|[d Hs]].
      + eapply pending_wf_same_store; eassumption.
      + eapply pending_wf_set; eassumption. }
  destruct Hpcb as [Hhas Hwf2].
  set (q := updateState (processConsensusBuffer p0 st) st).
  change (evidenceStore (processConsensusBuffer p0 st)) with (evidenceStore q) in Hhas.
  assert (Hwfq : pending_wf q) by exact Hwf2.
  split.
  - destruct (markEvidenceAsCommitted_store q evs (sm.LastBlockHeight st) Hok)
      as [Hin Hout].
    destruct (decide (Exists (fun ev => keyPending ev = keyPending dve) evs))
      as [Hex|Hnex].
    + apply Exists_exists in Hex as (ev & Hev & Hk). right.
      destruct (Hin ev Hev) as [_ Hc].
      assert (Hkc : keyCommitted ev = keyCommitted dve)
        by (apply keyCommitted_inj; exact Hk).
      rewrite <- Hkc. exact Hc.
    + assert (Hdiff : forall ev, ev ∈ evs -> keyPending ev <> keyPending dve).
      { intros ev Hev Hk. apply Hnex. apply Exists_exists. eauto. }
      destruct (Hout dve Hdiff) as [Hgp Hgc]. unfold dbm.has. rewrite Hgp, Hgc.
      exact Hhas.
  - intros k v Hkv. apply Hwfq.
    eapply markEvidenceAsCommitted_pending_subset. exact Hkv.
Qed.

(** X19. Votes that consensus reports for the height of the next block
    become evidence at the update to that block: with a store that performs
    its operations, well-formed pending entries and a non-negative
    [MaxAgeNumBlocks], after [ReportConflictingVotes(A, B)] and an [Update]
    to a state whose last block height is that of [A], the duplicate-vote
    evidence of [A] and [B] with the time and validators of that state is
    pending or committed, and the pruning of the same update does not
    remove it. *)
Theorem reported_votes_become_evidence (evpool evpool' : Pool) (st : sm.State)
    (voteA voteB : Vote) (evs : list Evidence) :
  (forall op, fails op = false) ->
  pending_wf evpool ->
  Vote_Height voteA = sm.LastBlockHeight st ->
  0 <= tmproto.MaxAgeNumBlocks (tmproto.Evidence (sm.ConsensusParams st)) ->
  Update (ReportConflictingVotes evpool voteA voteB) st evs = Returns evpool' ->
  (isPending evpool'
     (NewDuplicateVoteEvidence voteA voteB (sm.LastBlockTime st)
        (sm.LastValidators st))).1 = true
  \/ (isCommitted evpool'
        (NewDuplicateVoteEvidence voteA voteB (sm.LastBlockTime st)
           (sm.LastValidators st))).1 = true.
Proof.
  intros Hok Hwf Hh HM. rewrite Update_eq. destruct (_ <=? _); [discriminate|].
  cbv zeta.
  destruct (Update_reconciled_reported evpool st voteA voteB evs Hok Hwf Hh)
    as [Hhas Hwf3].
  destruct (Update_reconciled_config (ReportConflictingVotes evpool voteA voteB) st evs)
    as (Hstate & _).
  set (dve := NewDuplicateVoteEvidence voteA voteB (sm.LastBlockTime st)
                (sm.LastValidators st)) in *.
  set (p3 := Update_reconciled (ReportConflictingVotes evpool voteA voteB) st evs) in *.
  destruct (_ && _).
  - destruct (removeExpiredPendingEvidence_store p3) as (b & Hstore & Hb).
    destruct (removeExpiredPendingEvidence p3) as [[h t] p4]. cbn [snd] in *.
    intros [= <-]. rewrite isPending_eq, isCommitted_eq, !Hok. pool_simpl.
    rewrite Hstore. unfold dbm.has in *. rewrite !get_write_cases.
    rewrite (decide_False (P := keyCommitted dve ∈ b)).
    + rewrite (decide_False (P := keyPending dve ∈ b)); [exact Hhas|].
      intros Hin. destruct (Hb _ Hin) as (v & Hv & Hexp).
      destruct (Hwf3 _ _ Hv) as (ev & -> & Hk).
      apply keyPending_inj in Hk as [Hheight _].
      unfold expired_entry in Hexp. cbn in Hexp.
      apply isExpired_unfold in Hexp as [Hage _].
      rewrite Hstate, <- Hheight in Hage. cbn [Height dve NewDuplicateVoteEvidence] in Hage.
      rewrite Hh in Hage. unfold int64.sub in Hage. rewrite Z.sub_diag in Hage.
      change (int64.wrap 0) with 0 in Hage. lia.
    + intros Hin. destruct (Hb _ Hin) as (v & Hv & _).
      apply pendingEntries_prefix in Hv as [_ Hpre].
      exact (keyCommitted_not_pending_prefix dve Hpre).
  - intros [= <-]. rewrite isPending_eq, isCommitted_eq, !Hok. cbn [fst]. exact Hhas.
Qed.

End MorePoolFacts.

(** ** The further properties on the scenarios *)

Lemma AddEvidence_adds_new_evidence_witness :
  (AddEvidence (H := healthy) (emptyPool 10 (second 100)) ev10).1 = None
  /\ dbm.get (keyPending (H := healthy) ev10)
       (evidenceStore (AddEvidence (H := healthy) (emptyPool 10 (second 100)) ev10).2)
     = Some (tmproto.EvidenceBytes ev10)
  /\ bytesToEv (tmproto.EvidenceBytes ev10) = Some ev10
  /\ (isPending (H := healthy)
        (AddEvidence (H := healthy) (emptyPool 10 (second 100)) ev10).2 ev10).1 = true
  /\ Size (AddEvidence (H := healthy) (emptyPool 10 (second 100)) ev10).2
     = uint32.wrap (Size (emptyPool 10 (second 100)) + 1)
  /\ evidenceList (AddEvidence (H := healthy) (emptyPool 10 (second 100)) ev10).2
     = evidenceList (emptyPool 10 (second 100)) ++ [ev10]
  /\ (forall key, key <> keyPending (H := healthy) ev10 ->
        dbm.get key
          (evidenceStore (AddEvidence (H := healthy) (emptyPool 10 (second 100)) ev10).2)
        = dbm.get key (evidenceStore (emptyPool 10 (second 100))))
  /\ same_config (emptyPool 10 (second 100))
       (AddEvidence (H := healthy) (emptyPool 10 (second 100)) ev10).2.
Proof.
  apply (AddEvidence_adds_new_evidence (H := healthy) (emptyPool 10 (second 100)) ev10).
  - intros key. reflexivity.
  - reflexivity.
  - reflexivity.
  - reflexivity.
  - reflexivity.
Defined.

Lemma AddEvidence_error_changes_nothing_witness :
  evidenceStore (AddEvidence (H := rejecting) (emptyPool 10 (second 100)) ev10).2
  = evidenceStore (emptyPool 10 (second 100))
  /\ same_memory (emptyPool 10 (second 100))
       (AddEvidence (H := rejecting) (emptyPool 10 (second 100)) ev10).2
  /\ (verify (H := rejecting) (emptyPool 10 (second 100)) ev10
      = Some (errors_New "evidence is not valid")
      \/ (verify (H := rejecting) (emptyPool 10 (second 100)) ev10 = None
          /\ fails (Collaborators := rejecting)
               (OpSet (keyPending (H := rejecting) ev10)) = true)).
Proof.
  apply (AddEvidence_error_changes_nothing (H := rejecting)
           (emptyPool 10 (second 100)) ev10 (errors_New "evidence is not valid")).
  vm_compute. reflexivity.
Defined.

Lemma CheckEvidence_accepted_is_distinct_and_pending_witness :
  NoDup (map (Hash (Collaborators := healthy)) [ev10; ev10'])
  /\ forall ev, ev ∈ [ev10; ev10'] ->
       fails (Collaborators := healthy) (OpSet (keyPending (H := healthy) ev)) = false ->
       dbm.has (keyPending (H := healthy) ev)
         (evidenceStore
            (CheckEvidence (H := healthy) (pendingPool healthy) [ev10; ev10']).2) = true.
Proof.
  apply (CheckEvidence_accepted_is_distinct_and_pending (H := healthy)
           (pendingPool healthy) [ev10; ev10']).
  vm_compute. reflexivity.
Defined.

Lemma CheckEvidence_rejects_committed_witness :
  exists err, (CheckEvidence (H := healthy) committedPool [ev10'; ev10]).1 = Some err.
Proof.
  apply (CheckEvidence_rejects_committed (H := healthy) committedPool [ev10'; ev10] ev10).
  - apply elem_of_cons. right. apply elem_of_cons. left. reflexivity.
  - reflexivity.
  - vm_compute. reflexivity.
  - vm_compute. reflexivity.
Defined.

Lemma markEvidenceAsCommitted_commits_all_witness :
  (forall ev, ev ∈ [ev10] ->
     (isPending (H := healthy)
        (markEvidenceAsCommitted (H := healthy) (pendingPool healthy) [ev10] 11) ev).1
     = false
     /\ (isCommitted (H := healthy)
           (markEvidenceAsCommitted (H := healthy) (pendingPool healthy) [ev10] 11) ev).1
        = true)
  /\ (forall e,
       (forall ev, ev ∈ [ev10] ->
          ~ (Height ev = Height e
             /\ Hash (Collaborators := healthy) ev = Hash (Collaborators := healthy) e)) ->
       (isPending (H := healthy)
          (markEvidenceAsCommitted (H := healthy) (pendingPool healthy) [ev10] 11) e).1
       = (isPending (H := healthy) (pendingPool healthy) e).1
       /\ (isCommitted (H := healthy)
             (markEvidenceAsCommitted (H := healthy) (pendingPool healthy) [ev10] 11) e).1
          = (isCommitted (H := healthy) (pendingPool healthy) e).1).
Proof.
  apply (markEvidenceAsCommitted_commits_all (H := healthy) (pendingPool healthy)
           [ev10] 11).
  intros op. reflexivity.
Defined.

Lemma Update_commits_block_evidence_witness :
  (isPending (H := healthy) committedPool ev10).1 = false
  /\ (isCommitted (H := healthy) committedPool ev10).1 = true.
Proof.
  apply (Update_commits_block_evidence (H := healthy) (pendingPool healthy)
           committedPool (stateAt 11 (second 101)) [ev10]).
  - intros op. reflexivity.
  - vm_compute. reflexivity.
  - apply elem_of_cons. left. reflexivity.
Defined.

Lemma Update_successive_heights_witness :
  State expiryPool2 = stateAt 10 (second 105)
  /\ forall st' evs',
       ((exists evpool'', Update (H := healthy) expiryPool2 st' evs' = Returns evpool'') <->
        sm.LastBlockHeight (stateAt 10 (second 105)) < sm.LastBlockHeight st')
       /\ ((exists msg, Update (H := healthy) expiryPool2 st' evs' = Panic msg) <->
           sm.LastBlockHeight st' <= sm.LastBlockHeight (stateAt 10 (second 105))).
Proof.
  apply (Update_successive_heights (H := healthy) expiryPool1 expiryPool2
           (stateAt 10 (second 105)) []).
  vm_compute. reflexivity.
Defined.

Lemma agedPool_ascending : dbm.ascending (evidenceStore agedPool).
Proof. vm_compute. tauto. Qed.

Lemma agedPool_entries :
  pendingEntries agedPool
  = [(keyPending (H := healthy) e300, tmproto.EvidenceBytes e300);
     (keyPending (H := healthy) e400, tmproto.EvidenceBytes e400);
     (keyPending (H := healthy) e500, tmproto.EvidenceBytes e500)].
Proof. vm_compute. reflexivity. Qed.

Lemma removeExpiredPendingEvidence_keeps_unexpired_witness :
  (forall k v, (k, v) ∈ pendingEntries agedPool -> expired_entry agedPool (k, v) = false ->
     (k, v) ∈ pendingEntries (removeExpiredPendingEvidence (H := healthy) agedPool).2)
  /\ (forall k, ~ [orderedcode.Int64 prefixPending] `prefix_of` k ->
       dbm.get k (evidenceStore (removeExpiredPendingEvidence (H := healthy) agedPool).2)
       = dbm.get k (evidenceStore agedPool))
  /\ (forall k v,
       (k, v) ∈ pendingEntries (removeExpiredPendingEvidence (H := healthy) agedPool).2 ->
       (k, v) ∈ pendingEntries agedPool).
Proof.
  apply (removeExpiredPendingEvidence_keeps_unexpired (H := healthy) agedPool).
  exact agedPool_ascending.
Defined.

Lemma removeExpiredPendingEvidence_drops_expired_prefix_witness :
  pendingEntries (removeExpiredPendingEvidence (H := healthy) agedPool).2
  = drop_expired agedPool (pendingEntries agedPool)
  /\ (drop_expired agedPool (pendingEntries agedPool) = [] ->
      (removeExpiredPendingEvidence (H := healthy) agedPool).1
      = (sm.LastBlockHeight (State agedPool), sm.LastBlockTime (State agedPool)))
  /\ (forall k v ev rest,
      drop_expired agedPool (pendingEntries agedPool) = (k, v) :: rest ->
      bytesToEv v = Some ev ->
      let params := tmproto.Evidence (sm.ConsensusParams (State agedPool)) in
      (removeExpiredPendingEvidence (H := healthy) agedPool).1
      = (int64.add (int64.add (Height ev) (tmproto.MaxAgeNumBlocks params)) 1,
         time.Add (time.Add (Time ev) (tmproto.MaxAgeDuration params)) time.Second)).
Proof.
  apply (removeExpiredPendingEvidence_drops_expired_prefix (H := healthy) agedPool).
  - intros op. reflexivity.
  - exact agedPool_ascending.
  - rewrite agedPool_entries. repeat constructor; eexists; reflexivity.
Defined.

(** On [agedPool] the scan drops the items of heights 1 and 2, keeps that
    of height 3 and sets the cursor to height 9 and 14 s. *)
Example removeExpiredPendingEvidence_on_agedPool :
  drop_expired agedPool (pendingEntries agedPool)
  = [(keyPending (H := healthy) e500, tmproto.EvidenceBytes e500)]
  /\ (removeExpiredPendingEvidence (H := healthy) agedPool).1 = (9, second 14).
Proof. split; vm_compute; reflexivity. Qed.

Lemma PendingEvidence_oldest_first_witness :
  Height e300 < Height e500
  \/ (Height e300 = Height e500
      /\ String.compare (Hash (Collaborators := healthy) e300)
           (Hash (Collaborators := healthy) e500) = Lt).
Proof.
  apply (PendingEvidence_oldest_first (H := healthy) agedPool (-1) agedPool_ascending)
    with (out := (PendingEvidence (H := healthy) agedPool (-1)).1.1)
         (i := 0%nat) (j := 2%nat).
  - intros k v Hin. rewrite agedPool_entries in Hin.
    repeat (apply elem_of_cons in Hin as [Hin|Hin];
            [injection Hin as -> ->; eexists; split; reflexivity|]).
    inversion Hin.
  - right. reflexivity.
  - lia.
  - vm_compute. reflexivity.
  - vm_compute. reflexivity.
Defined.

Lemma listEvidence_stops_at_undecodable_witness :
  exists err,
    listEvidence (H := healthy) (corruptPool (tmproto.OtherBytes "junk")) prefixPending (-1)
    = (match tmproto.Unmarshal (tmproto.OtherBytes "junk") with
       | None => [ev10]
       | Some _ => []
       end,
       aggregateSize (H := healthy) [ev10], Some err).
Proof.
  apply (listEvidence_stops_at_undecodable (H := healthy)
           (corruptPool (tmproto.OtherBytes "junk")) prefixPending
           [(keyPending (H := healthy) ev10, tmproto.EvidenceBytes ev10)] []
           corruptKey (tmproto.OtherBytes "junk") [ev10]).
  - reflexivity.
  - vm_compute. reflexivity.
  - reflexivity.
  - reflexivity.
Defined.

(** The same with an entry that is a protobuf message and no valid
    evidence: the item listed before it is not returned. *)
Example listEvidence_stops_at_invalid_evidence :
  listEvidence (H := healthy) (corruptPool (tmproto.InvalidEvidenceBytes "junk"))
    prefixPending (-1)
  = ([], aggregateSize (H := healthy) [ev10], Some ErrUnmarshal).
Proof. vm_compute. reflexivity. Qed.

Lemma listEvidence_negative_cap_lists_nothing_witness :
  (listEvidence (H := healthy) threePool prefixPending (-2)).1 = ([], 0).
Proof.
  apply (listEvidence_negative_cap_lists_nothing (H := healthy) threePool
           prefixPending (-2)).
  - exact sampleSize_nonneg.
  - lia.
Defined.

Lemma NewPool_loads_pending_evidence_witness :
  sm.Load restartStore = inr (State restartedPool)
  /\ stateDB restartedPool = restartStore /\ blockStore restartedPool = restartBlocks
  /\ consensusBuffer restartedPool = []
  /\ (forall k v, (k, v) ∈ evidenceStore restartedPool ->
        (k, v) ∈ evidenceStore threePool)
  /\ Forall (fun kv => is_Some (bytesToEv kv.2)) (pendingEntries restartedPool)
  /\ evidenceList restartedPool = pendingEvidence restartedPool
  /\ Size restartedPool = uint32.wrap (Z.of_nat (length (pendingEntries restartedPool))).
Proof.
  apply (NewPool_loads_pending_evidence (H := healthy) [] (evidenceStore threePool)
           restartStore restartBlocks restartedPool).
  vm_compute. reflexivity.
Defined.

(** The pool opened on the store of [threePool] at height 8 and 13 s holds
    the item of height 3 alone. *)
Example NewPool_on_restart :
  evidenceList restartedPool = [e500] /\ Size restartedPool = 1
  /\ (pruningHeight restartedPool, pruningTime restartedPool) = (9, second 14).
Proof. repeat split; vm_compute; reflexivity. Qed.

Lemma AddEvidence_preserves_invariants_witness :
  I1_disjoint (H := healthy)
    (AddEvidence (H := healthy) (emptyPool 10 (second 100)) ev10).2
  /\ I2_list_is_pending (H := healthy)
       (AddEvidence (H := healthy) (emptyPool 10 (second 100)) ev10).2
  /\ I3_size_is_pending (AddEvidence (H := healthy) (emptyPool 10 (second 100)) ev10).2.
Proof.
  apply (AddEvidence_preserves_invariants (H := healthy) (emptyPool 10 (second 100)) ev10).
  - intros key. reflexivity.
  - vm_compute. reflexivity.
  - split; [|split].
    + intros ev [Hp _]. discriminate Hp.
    + unfold I2_list_is_pending. reflexivity.
    + reflexivity.
Defined.

Lemma AddEvidence_failing_Has_adds_pending_again_witness :
  (AddEvidence (H := hasFailing) (pendingPool healthy) ev10).1 = None
  /\ map fst (evidenceStore (AddEvidence (H := hasFailing) (pendingPool healthy) ev10).2)
     = map fst (evidenceStore (pendingPool healthy))
  /\ map fst (pendingEntries (AddEvidence (H := hasFailing) (pendingPool healthy) ev10).2)
     = map fst (pendingEntries (pendingPool healthy))
  /\ evidenceList (AddEvidence (H := hasFailing) (pendingPool healthy) ev10).2
     = evidenceList (pendingPool healthy) ++ [ev10]
  /\ Size (AddEvidence (H := hasFailing) (pendingPool healthy) ev10).2
     = uint32.wrap (Size (pendingPool healthy) + 1).
Proof.
  apply (AddEvidence_failing_Has_adds_pending_again (H := hasFailing)
           (pendingPool healthy) ev10).
  - reflexivity.
  - reflexivity.
  - reflexivity.
  - reflexivity.
  - vm_compute. tauto.
  - vm_compute. reflexivity.
Defined.

(** After it, the size counter is 2 and the broadcast list holds the item
    twice, for one pending entry. *)
Example AddEvidence_failing_Has_breaks_size :
  Size (AddEvidence (H := hasFailing) (pendingPool healthy) ev10).2 = 2
  /\ evidenceList (AddEvidence (H := hasFailing) (pendingPool healthy) ev10).2
     = [ev10; ev10]
  /\ length (pendingEntries (AddEvidence (H := hasFailing) (pendingPool healthy) ev10).2)
     = 1%nat.
Proof. repeat split; vm_compute; reflexivity. Qed.

Lemma isExpired_stays_expired_witness :
  isExpired (emptyPool 13 (second 113)) 5 (second 100) = true.
Proof.
  apply (isExpired_stays_expired (emptyPool 12 (second 112)) (emptyPool 13 (second 113))
           5 (second 100)).
  - reflexivity.
  - vm_compute. discriminate.
  - vm_compute. discriminate.
  - in_range.
  - in_range.
  - vm_compute. reflexivity.
Defined.

Lemma reported_votes_become_evidence_witness :
  (isPending (H := healthy) reportedPool
     (NewDuplicateVoteEvidence (vote 10 "blockA") (vote 10 "blockB")
        (sm.LastBlockTime (stateAt 10 (second 100)))
        (sm.LastValidators (stateAt 10 (second 100))))).1 = true
  \/ (isCommitted (H := healthy) reportedPool
        (NewDuplicateVoteEvidence (vote 10 "blockA") (vote 10 "blockB")
           (sm.LastBlockTime (stateAt 10 (second 100)))
           (sm.LastValidators (stateAt 10 (second 100))))).1 = true.
Proof.
  apply (reported_votes_become_evidence (H := healthy) (emptyPool 9 (second 90))
           reportedPool (stateAt 10 (second 100)) (vote 10 "blockA") (vote 10 "blockB")
           []).
  - intros op. reflexivity.
  - intros k v Hin. inversion Hin.
  - reflexivity.
  - vm_compute. discriminate.
  - vm_compute. reflexivity.
Defined.

(** There the evidence is pending, and [PendingEvidence] returns it. *)
Example reported_votes_are_pending :
  (PendingEvidence (H := healthy) reportedPool (-1)).1.1
  = [NewDuplicateVoteEvidence (vote 10 "blockA") (vote 10 "blockB") (second 100)
       [mkValidator "val1" 10]].
Proof. vm_compute. reflexivity. Qed.
